(** * depth-nerf: view selection, ray table, training loop and validator

    A shallow embedding of [src/data/dataset.py] (class [SyntheticRealistic])
    and of [src/run-nerf.py] (functions [validation] and [train]).

    Conventions.
    - Python floats are read as the rationals they denote ([Q]); the two
      non-rational values the code manipulates ([np.inf] as a mask, a
      non-finite loss) are explicit constructors.  Where the code
      truncates a float to an integer the operands and the product are
      rounded to binary64 first ([round64]), since there rounding decides
      an integer; the exponent range of binary64 is taken as unbounded
      upwards.
    - External collaborators (K-means, the renderer, the blur and resize
      transforms, the perceptual network, the shuffling sampler) enter as
      inputs of the functions that consume their results.
    - Python exceptions are values of type [exn]; a loop run returns the
      state it reached together with its outcome. *)

From Stdlib Require Import String.
From Stdlib Require Import List Arith ZArith QArith Qminmax Lia Bool.
From Stdlib Require Import Permutation Lqa.
Import ListNotations.

Close Scope Q_scope.
Close Scope string_scope.

Set Implicit Arguments.

(** ** Python and tensor primitives shared by the two source files *)

Module Py.

(** The exceptions the modelled code can raise. *)
Inductive exn : Type :=
| StopIteration
| UnboundLocalError (name : string)
| ZeroDivisionError
| IndexError
| ValueError
| AttributeError
| RuntimeError.

(** A call either returns a value or raises. *)
Inductive result (A : Type) : Type :=
| Ok (a : A)
| Raise (e : exn).

Arguments Ok {A} a.
Arguments Raise {A} e.

Definition rbind {A B : Type} (r : result A) (f : A -> result B) : result B :=
  match r with
  | Ok a => f a
  | Raise e => Raise e
  end.

(** A float that a computation may drive out of the finite range: a
    finite value, or one of [nan], [inf], [-inf]. *)
Inductive float : Type :=
| Finite (q : Q)
| NonFinite.

Definition fadd (x y : float) : float :=
  match x, y with
  | Finite a, Finite b => Finite (a + b)
  | _, _ => NonFinite
  end.

(** [c * x] and [x / c] for a finite [c]. *)
Definition fscale (c : Q) (x : float) : float :=
  match x with
  | Finite a => Finite (c * a)
  | NonFinite => NonFinite
  end.

Definition fdiv (x : float) (c : Q) : float :=
  match x with
  | Finite a => Finite (a / c)
  | NonFinite => NonFinite
  end.

(** Two floats denote the same value. *)
Definition feq (x y : float) : Prop :=
  match x, y with
  | Finite a, Finite b => (a == b)%Q
  | NonFinite, NonFinite => True
  | _, _ => False
  end.

(** [int(x)] on a float: truncation toward zero. *)
Definition py_int (x : Q) : Z := Z.quot (Qnum x) (Zpos (Qden x)).

(** [2 ^ e] for an integer [e]. *)
Definition pow2 (e : Z) : Q :=
  if (0 <=? e)%Z then inject_Z (2 ^ e)
  else Qmake 1 (Z.to_pos (2 ^ (- e))).

(** [floor (log2 |x|)] for [x <> 0]: the difference of the bit lengths
    of numerator and denominator, or one less. *)
Definition ilog2 (x : Q) : Z :=
  let n := Z.abs (Qnum x) in
  let g := (Z.log2 n - Z.log2 (Zpos (Qden x)))%Z in
  if Qle_bool (pow2 g) (Qmake n (Qden x)) then g else (g - 1)%Z.

(** Rounding to the nearest integer, ties to the even one. *)
Definition round_half_even (x : Q) : Z :=
  let f := (Qnum x / Zpos (Qden x))%Z in
  let r := (Qnum x mod Zpos (Qden x))%Z in
  match (2 * r ?= Zpos (Qden x))%Z with
  | Lt => f
  | Gt => (f + 1)%Z
  | Eq => if Z.even f then f else (f + 1)%Z
  end.

(** The binary64 float nearest to [x], ties to even: a significand of 53
    bits, with the fixed spacing [2 ^ -1074] of the subnormal range at the
    bottom.  This is the value of [float(x)] and, applied to an exact sum
    or product of two floats, the result of the float operation. *)
Definition round64 (x : Q) : Q :=
  if Qeq_bool x 0 then 0%Q
  else
    let e := Z.max (ilog2 x - 52) (- 1074) in
    (inject_Z (round_half_even (x / pow2 e)) * pow2 e)%Q.

(** [x * y] on two floats. *)
Definition fmul64 (x y : Q) : Q := round64 (x * y).

(** [l[i:j]] for [0 <= i <= j]. *)
Definition slice {A : Type} (l : list A) (i j : nat) : list A :=
  firstn (j - i) (skipn i l).

(** [range(0, stop, step)] for [step > 0]: the multiples of [step] below
    [stop].  (A zero step raises in Python; every caller modelled here
    passes a positive one.) *)
Definition range_step (stop step : nat) : list nat :=
  map (fun q => q * step) (seq 0 ((stop + step - 1) / step)).

(** [l[idxs]] with an integer index array: one entry per index, in the
    order of [idxs]; an index out of range raises [IndexError]. *)
Fixpoint take {A : Type} (l : list A) (idxs : list nat) : result (list A) :=
  match idxs with
  | [] => Ok []
  | j :: rest =>
      match nth_error l j with
      | None => Raise IndexError
      | Some x => rbind (take l rest) (fun xs => Ok (x :: xs))
      end
  end.

(** [t.reshape(-1, c)] on the flattened contents [flat] of a tensor: rows
    of [c] consecutive entries; the element count must be a multiple of
    [c]. *)
Definition reshape_rows {A : Type} (c : nat) (flat : list A)
  : result (list (list A)) :=
  if Nat.eqb c 0 then Raise RuntimeError
  else if Nat.eqb (length flat mod c) 0
  then Ok (map (fun r => slice flat (r * c) (r * c + c))
               (seq 0 (length flat / c)))
  else Raise RuntimeError.

End Py.

(** ** View Selector: [SyntheticRealistic.__init__], lines 68-82 *)

Module ViewSelector.
Import Py.

(** A float of [cluster_dists]: a finite distance, or [np.inf]. *)
Inductive dist : Type :=
| Fin (q : Q)
| Inf.

(** [a < b] on [cluster_dists] entries. *)
Definition dist_ltb (a b : dist) : bool :=
  match a, b with
  | Fin x, Fin y => negb (Qle_bool y x)
  | Fin _, Inf => true
  | Inf, _ => false
  end.

(** [np.where(labels == i, dists, np.inf)] *)
Definition np_where (labels : list nat) (i : nat) (dists : list Q) : list dist :=
  map (fun ld => if Nat.eqb (fst ld) i then Fin (snd ld) else Inf)
      (combine labels dists).

(** The scan of [np.argmin]: [pos] is the index of the head of [l],
    [best] the index of the smallest entry seen so far and [bv] its value;
    a later entry replaces it only when strictly smaller, so the first
    occurrence of the minimum is returned. *)
Fixpoint argmin_scan (l : list dist) (pos best : nat) (bv : dist) : nat :=
  match l with
  | [] => best
  | x :: t =>
      if dist_ltb x bv then argmin_scan t (S pos) pos x
      else argmin_scan t (S pos) best bv
  end.

(** [np.argmin]; on an empty array numpy raises [ValueError]. *)
Definition argmin (l : list dist) : result nat :=
  match l with
  | [] => Raise ValueError
  | x :: t => Ok (argmin_scan t 1 0 x)
  end.

(** The loop of lines 75-78: [idxs[i] = np.argmin(cluster_dists)] for
    [i in range(n_imgs)].  [labels] is [kmeans.labels_] and [dists] the
    distance of every view to the centre of its own cluster (line 73). *)
Fixpoint select_loop (labels : list nat) (dists : list Q) (cs : list nat)
  : result (list nat) :=
  match cs with
  | [] => Ok []
  | i :: rest =>
      rbind (argmin (np_where labels i dists)) (fun j =>
      rbind (select_loop labels dists rest) (fun js =>
      Ok (j :: js)))
  end.

Definition select (labels : list nat) (dists : list Q) (n_imgs : nat)
  : result (list nat) :=
  select_loop labels dists (seq 0 n_imgs).

(** View [j] is a member of cluster [i]. *)
Definition member (labels : list nat) (i j : nat) : Prop :=
  nth_error labels j = Some i.

(** What section 4.1 promises of the returned indices: [k] of them, no
    duplicates, the [i]-th one a member of cluster [i] and not farther from
    the centre than any other member of cluster [i]. *)
Definition selection_ok (labels : list nat) (dists : list Q) (k : nat)
  (idxs : list nat) : Prop :=
  List.length idxs = k /\
  NoDup idxs /\
  forall i j, nth_error idxs i = Some j ->
    member labels i j /\
    forall j' d d', member labels i j' ->
      nth_error dists j = Some d -> nth_error dists j' = Some d' ->
      (d <= d')%Q.

End ViewSelector.

(** ** Ray Builder and Ray Dataset: class [SyntheticRealistic] *)

Module Dataset.
Import Py.

(** A pixel is its list of channel values, an image an [H x W] grid of
    pixels, a pose a [4 x 4] matrix given by rows. *)
Abbreviation pixel := (list Q) (only parsing).
Abbreviation image := (list (list (list Q))) (only parsing).
Abbreviation pose := (list (list Q)) (only parsing).

(** [hwf]: image height, width and focal length. *)
Record intrinsics : Type := {
  height : nat;
  width : nat;
  focal : Q
}.

(** An item of the dataset: [__getitem__] returns a pair in image mode
    and a triple in ray mode. *)
Inductive sample : Type :=
| ImageSample (img : image) (p : pose)
| RaySample (ray_o ray_d rgb : list Q).

(** The attributes of a [SyntheticRealistic] object.  [rays_o], [rays_d]
    and [rgb] do not exist until [__build_data] has run. *)
Record dataset : Type := {
  scene : string;
  split : string;
  near : Q;
  far : Q;
  img_mode : bool;
  hwf : intrinsics;
  testimg : image;
  testpose : pose;
  imgs : list image;
  poses : list pose;
  rays_o : option (list (list Q));
  rays_d : option (list (list Q));
  rgb : option (list (list Q))
}.

(** What [__load] returns: RGBA images, poses and intrinsics. *)
Record scene_data : Type := {
  all_imgs : list image;
  all_poses : list pose;
  scene_hwf : intrinsics
}.

(** What the fitted K-means model exposes and line 73 derives from it:
    the cluster label of every view and its distance to the centre of
    that cluster. *)
Record kmeans_fit : Type := {
  labels : list nat;
  dists : list Q
}.

(** The image transforms of torchvision, acting on a batch of images.
    [blur ksize sigma] is [GaussianBlur(ksize, sigma=sigma)] and
    [resize h w] is [Resize((h, w))]; the two [torch.permute] calls around
    them only change the memory layout they expect and cancel. *)
Record transforms : Type := {
  blur : Z -> Z -> list image -> list image;
  resize : nat -> nat -> list image -> list image
}.

(** Lines 58-61: [imgs[..., :3] * imgs[..., -1:] + (1. - imgs[..., -1:])]
    or [imgs[..., :3]]. *)
Definition composite (white_bkgd : bool) (px : pixel) : pixel :=
  if white_bkgd
  then map (fun c => c * last px 0 + (1 - last px 0))%Q (firstn 3 px)
  else firstn 3 px.

Definition entry (p : pose) (r c : nat) : Q := nth c (nth r p []) 0%Q.

(** Modelled from the spec: [get_rays] of [utils/utilities.py] is not
    under src/.  Section 4.2: pixel [(i, j)] maps to a camera-space
    direction through the focal length and the image centre, rotated into
    world space by the pose; the origin is the translation column of the
    pose, the same for every pixel of the view.  Returns the [H x W]
    grids of origins and of directions. *)
Definition get_rays (H W : nat) (f : Q) (p : pose) : image * image :=
  let o := [entry p 0 3; entry p 1 3; entry p 2 3] in
  let dir (i j : nat) :=
    let x := ((inject_Z (Z.of_nat j) - inject_Z (Z.of_nat W) / 2) / f)%Q in
    let y := (- ((inject_Z (Z.of_nat i) - inject_Z (Z.of_nat H) / 2) / f))%Q in
    let z := (- (1))%Q in
    map (fun r => entry p r 0 * x + entry p r 1 * y + entry p r 2 * z)%Q
        [0; 1; 2] in
  (map (fun i => map (fun j => o) (seq 0 W)) (seq 0 H),
   map (fun i => map (fun j => dir i j) (seq 0 W)) (seq 0 H)).

(** [torch.cat((o, d), -1)] on two [H x W x 3] grids. *)
Definition cat_last (o d : image) : image :=
  map (fun rr => map (fun od => fst od ++ snd od) (combine (fst rr) (snd rr)))
      (combine o d).

(** The contents of a [N x H x W x C] tensor in row-major order. *)
Definition flatten (t : list image) : list Q := concat (concat (concat t)).

(** Lines 134-135: [torch.cat(U.get_rays(H, W, f, p), -1)] for every
    pose, stacked. *)
Definition ray_grids (i : intrinsics) (ps : list pose) : list image :=
  map (fun p =>
         let od := get_rays (height i) (width i) (focal i) p in
         cat_last (fst od) (snd od)) ps.

(** [__build_data], lines 133-139; [torch.stack] raises on an empty
    list. *)
Definition build_data (ds : dataset) (new_imgs : list image)
  (new_poses : list pose) (new_hwf : intrinsics) : result dataset :=
  match new_poses with
  | [] => Raise RuntimeError
  | _ =>
      let rays := ray_grids new_hwf new_poses in
      rbind (reshape_rows 6 (flatten rays)) (fun rows =>
      rbind (reshape_rows 3 (flatten new_imgs)) (fun colors =>
      Ok {| scene := scene ds; split := split ds;
            near := near ds; far := far ds;
            img_mode := img_mode ds; hwf := hwf ds;
            testimg := testimg ds; testpose := testpose ds;
            imgs := imgs ds; poses := poses ds;
            rays_o := Some (map (firstn 3) rows);
            rays_d := Some (map (skipn 3) rows);
            rgb := Some colors |}))
  end.

(** The size of the last axis of the [N x R x C] pose tensor; the poses
    of a tensor all have the shape of the first one (a pose without rows
    is read as one without columns). *)
Definition pose_cols (ps : list pose) : nat :=
  List.length (hd [] (hd [] ps)).

(** Line 70: [KMeans(n_clusters=n_imgs, n_init=10).fit(x)] on the
    positions of [n_views] cameras.  scikit-learn raises [ValueError] when
    there are fewer samples than clusters, and when [n_clusters] is not
    at least 1. *)
Definition kmeans_accepts (n_imgs n_views : nat) : result unit :=
  if Nat.eqb n_imgs 0 then Raise ValueError
  else if n_views <? n_imgs then Raise ValueError
  else Ok tt.

(** [__init__], lines 47-86.  [ld] is the result of [__load], [idx] the
    value of [np.random.randint(0, N)], which raises [ValueError] for
    [N = 0], and [km] the model K-means fits once it has accepted its
    arguments.  Line 69, [poses[:, :3, 3]], raises [IndexError] on poses
    of fewer than four columns. *)
Definition init (scene_name split_name : string) (n_imgs : nat)
  (white_bkgd mode : bool) (ld : scene_data) (idx : nat) (km : kmeans_fit)
  : result dataset :=
  let rgb_imgs := map (map (map (composite white_bkgd))) (all_imgs ld) in
  if Nat.eqb (List.length rgb_imgs) 0 then Raise ValueError
  else
  match nth_error rgb_imgs idx, nth_error (all_poses ld) idx with
  | Some timg, Some tpose =>
      if pose_cols (all_poses ld) <? 4 then Raise IndexError
      else
      rbind (kmeans_accepts n_imgs (List.length (all_poses ld))) (fun _ =>
      rbind (ViewSelector.select (labels km) (dists km) n_imgs) (fun idxs =>
      rbind (take rgb_imgs idxs) (fun sel_imgs =>
      rbind (take (all_poses ld) idxs) (fun sel_poses =>
      let ds := {| scene := scene_name; split := split_name;
                   near := 2; far := 8;
                   img_mode := mode; hwf := scene_hwf ld;
                   testimg := timg; testpose := tpose;
                   imgs := sel_imgs; poses := sel_poses;
                   rays_o := None; rays_d := None; rgb := None |} in
      if mode then Ok ds
      else build_data ds sel_imgs sel_poses (scene_hwf ld)))))
  | _, _ => Raise IndexError
  end.

(** [__len__], lines 97-100. *)
Definition len (ds : dataset) : result nat :=
  if img_mode ds then Ok (List.length (imgs ds))
  else match rgb ds with
       | Some colors => Ok (List.length colors)
       | None => Raise AttributeError
       end.

(** [__getitem__], lines 112-115. *)
Definition getitem (ds : dataset) (idx : nat) : result sample :=
  if img_mode ds then
    match nth_error (imgs ds) idx, nth_error (poses ds) idx with
    | Some im, Some p => Ok (ImageSample im p)
    | _, _ => Raise IndexError
    end
  else
    match rays_o ds, rays_d ds, rgb ds with
    | Some os, Some dirs, Some colors =>
        match nth_error os idx, nth_error dirs idx, nth_error colors idx with
        | Some o, Some d, Some c => Ok (RaySample o d c)
        | _, _, _ => Raise IndexError
        end
    | _, _, _ => Raise AttributeError
    end.

(** [__downsample], lines 159-166.  The integer division of line 161
    raises on a zero factor; [Resize] raises [RuntimeError] when the
    target height or width is zero. *)
Definition downsample (T : transforms) (ims : list image) (i : intrinsics)
  (factor : nat) : result (list image * intrinsics) :=
  if Nat.eqb factor 0 then Raise ZeroDivisionError
  else
    let new_H := height i / factor in
    let new_W := width i / factor in
    let new_focal := (focal i / inject_Z (Z.of_nat factor))%Q in
    if Nat.eqb new_H 0 || Nat.eqb new_W 0 then Raise RuntimeError
    else
      Ok (resize T new_H new_W ims,
          {| height := new_H; width := new_W; focal := new_focal |}).

(** [gaussian_downsample], lines 223-242: the returned pair and the
    dataset after the call. *)
Definition gaussian_downsample (T : transforms) (ds : dataset) (t : Q)
  : result ((list image * intrinsics) * dataset) :=
  let t := py_int t in
  if (0 <? t)%Z then
    let blurred := blur T (6 * t + 1)%Z t (imgs ds) in
    rbind (downsample T blurred (hwf ds) 1) (fun r =>
    rbind (build_data ds (fst r) (poses ds) (snd r)) (fun ds' =>
    Ok (r, ds')))
  else Ok ((imgs ds, hwf ds), ds).

(** A grid of [h] rows of [w] vectors of [c] entries, and a batch of [n]
    such grids. *)
Definition grid_shaped (h w c : nat) (im : image) : Prop :=
  List.length im = h /\
  Forall (fun row => List.length row = w /\
                     Forall (fun px => List.length px = c) row) im.

Definition shaped (n h w c : nat) (t : list image) : Prop :=
  List.length t = n /\ Forall (grid_shaped h w c) t.

(** A 4 x 4 camera-to-world matrix, as [__load] reads them. *)
Definition pose4x4 (p : pose) : Prop :=
  List.length p = 4 /\ Forall (fun row => List.length row = 4) p.

(** The vector at row [i], column [j] of a grid. *)
Definition grid_at (g : image) (i j : nat) : option (list Q) :=
  match nth_error g i with
  | Some row => nth_error row j
  | None => None
  end.

(** Row [r] of the ray table of a dataset. *)
Definition table_row (ds : dataset) (r : nat)
  : option (list Q * list Q * list Q) :=
  match rays_o ds, rays_d ds, rgb ds with
  | Some os, Some dirs, Some colors =>
      match nth_error os r, nth_error dirs r, nth_error colors r with
      | Some o, Some d, Some c => Some (o, d, c)
      | _, _, _ => None
      end
  | _, _, _ => None
  end.

(** A sequence of calls of [gaussian_downsample] on the same object,
    with the blur deviations [ts]. *)
Fixpoint resample (T : transforms) (ds : dataset) (ts : list Q)
  : result dataset :=
  match ts with
  | [] => Ok ds
  | t :: rest =>
      rbind (gaussian_downsample T ds t) (fun r => resample T (snd r) rest)
  end.

(** The contract of the torchvision transforms on a batch of non-empty
    images: the blur keeps the shape of its input and [Resize((h, w))]
    returns images of [h] by [w] pixels with the channels of its input. *)
Definition transforms_ok (T : transforms) : Prop :=
  (forall k s n h w c t, shaped n h w c t -> shaped n h w c (blur T k s t)) /\
  (forall h' w' n h w c t,
      0 < h -> 0 < w ->
      shaped n h w c t -> shaped n h' w' c (resize T h' w' t)).

(** The state in which construction and every rebuild leave a dataset
    over [n] views of [h] by [w] pixels: [n] RGB images of that shape,
    [n] poses, the intrinsics of that shape and, in ray mode, a colour
    column of [n * h * w] rows. *)
Definition built (n h w : nat) (mode : bool) (ds : dataset) : Prop :=
  img_mode ds = mode /\
  shaped n h w 3 (imgs ds) /\
  List.length (poses ds) = n /\
  height (hwf ds) = h /\ width (hwf ds) = w /\
  (mode = false ->
   exists colors, rgb ds = Some colors /\ List.length colors = n * h * w).

End Dataset.

(** ** Validator: the perceptual-distance part of [validation] *)

Module Validator.
Import Py.

Definition qsum (l : list Q) : Q := fold_right Qplus 0%Q l.

(** [tensor.mean()] of a batch of per-image distances; the mean of an
    empty tensor is [nan]. *)
Definition mean (l : list Q) : float :=
  match l with
  | [] => NonFinite
  | _ => Finite (qsum l / inject_Z (Z.of_nat (List.length l)))
  end.

(** Lines 153-168.  [d] lists, in the order of [rgbs], the distance the
    perceptual network assigns to each rendered image and its ground
    truth; on a slice of the batch the network returns the matching slice
    of [d]. *)
Definition val_lpips (d : list Q) : float :=
  let val_size := List.length d in
  if val_size <? 25 then mean d
  else
    let n_chunks := 5 in
    let chunk_size := val_size / n_chunks in
    let chunk_idxs := range_step val_size chunk_size in
    let chunks := map (fun i => slice d i (i + chunk_size)) chunk_idxs in
    fdiv (fold_left (fun acc chunk => fadd acc (mean chunk)) chunks
                    (Finite 0))
         (inject_Z (Z.of_nat n_chunks)).

(** The one-pass computation of line 157, at any size. *)
Definition one_pass_lpips (d : list Q) : float := mean d.

End Validator.

(** ** Training loop: function [train] *)

Module Train.
Import Py.

(** The command-line arguments [train] reads. *)
Record args : Type := {
  n_iters : nat;
  val_rate : Z;
  debug : bool;
  no_val : bool;
  beta : option Q;
  ao : option Q;
  reg : string;
  reg_ratio : Q;
  Td : Z
}.

(** One entry of [model.named_parameters()]: the name, the leading
    dimension (the parameters of a network have at least one), and the
    two norms lines 280 and 282 take of the tensor. *)
Record param : Type := {
  pname : string;
  lead_dim : nat;
  abs_sum : float;
  l2_norm : float
}.

(** The renderer, the loss and the model as the loop sees them at
    iteration [k] on the batch of sample indices [b]. *)
Record collaborators : Type := {
  mse_loss : nat -> list nat -> float;
  n_sigmas : nat -> list nat -> nat;
  occ_reg : nat -> list nat -> float;
  named_parameters : nat -> list param
}.

(** [DataLoader(train_set, batch_size, shuffle=True)] over a dataset in
    ray mode, whose items are the triples line 242 unpacks; a sample is
    named by its index.  [shuffles e] is the order the sampler draws at
    the [e]-th call of [iter]. *)
Record loader : Type := {
  n_samples : nat;
  batch_size : nat;
  shuffles : nat -> list nat
}.

(** The batches of one pass over [order]; the last one may be short. *)
Definition batches (L : loader) (order : list nat) : list (list nat) :=
  map (fun i => slice order i (i + batch_size L))
      (range_step (List.length order) (batch_size L)).

(** The observable actions of a run, in the order they happen. *)
Inductive event : Type :=
| Step (k : nat) (batch : list nat) (loss : float)
       (model_training estimator_training : bool)
| Log (k : nat) (alpha : Q)
| Validate (k : nat) (model_training estimator_training : bool)
| LogVal (k : nat) (alpha : Q).

(** The mutable state of a run: module modes, the data iterator and the
    number of [iter(train_loader)] calls so far, the local variable
    [alpha] (unbound until first assigned) and the actions so far. *)
Record tstate : Type := {
  model_training : bool;
  estimator_training : bool;
  lpips_training : bool;
  iterator : list (list nat);
  epochs : nat;
  alpha : option Q;
  trace : list event
}.

(** State and exceptions: a computation maps a state to the state it
    leaves behind and the value it returns or the exception it raises. *)
Definition M (A : Type) : Type := tstate -> tstate * result A.

Definition ret {A : Type} (a : A) : M A := fun st => (st, Ok a).

Definition raise {A : Type} (e : exn) : M A := fun st => (st, Raise e).

Definition bind {A B : Type} (m : M A) (f : A -> M B) : M B :=
  fun st =>
    match m st with
    | (st', Ok a) => f a st'
    | (st', Raise e) => (st', Raise e)
    end.

Notation "x <- m ;; k" := (bind m (fun x => k))
  (at level 61, m at next level, right associativity).
Notation "m ;;; k" := (bind m (fun _ => k))
  (at level 61, right associativity).

Definition emit (e : event) : M unit :=
  fun st =>
    ({| model_training := model_training st;
        estimator_training := estimator_training st;
        lpips_training := lpips_training st;
        iterator := iterator st; epochs := epochs st;
        alpha := alpha st; trace := trace st ++ [e] |}, Ok tt).

(** [model.train(); estimator.train()] *)
Definition set_train : M unit :=
  fun st =>
    ({| model_training := true; estimator_training := true;
        lpips_training := lpips_training st;
        iterator := iterator st; epochs := epochs st;
        alpha := alpha st; trace := trace st |}, Ok tt).

(** [model.eval(); estimator.eval(); lpips_net.eval()] *)
Definition set_eval : M unit :=
  fun st =>
    ({| model_training := false; estimator_training := false;
        lpips_training := false;
        iterator := iterator st; epochs := epochs st;
        alpha := alpha st; trace := trace st |}, Ok tt).

Definition set_iterator (it : list (list nat)) (e : nat) (st : tstate)
  : tstate :=
  {| model_training := model_training st;
     estimator_training := estimator_training st;
     lpips_training := lpips_training st;
     iterator := it; epochs := e;
     alpha := alpha st; trace := trace st |}.

Definition set_alpha (v : Q) : M unit :=
  fun st =>
    ({| model_training := model_training st;
        estimator_training := estimator_training st;
        lpips_training := lpips_training st;
        iterator := iterator st; epochs := epochs st;
        alpha := Some v; trace := trace st |}, Ok tt).

(** Reading the local variable [alpha]. *)
Definition read_alpha : M Q :=
  fun st =>
    match alpha st with
    | Some v => (st, Ok v)
    | None => (st, Raise (UnboundLocalError "alpha"%string))
    end.

(** Lines 241-245: [next(iterator)], and on [StopIteration] a fresh
    [iter(train_loader)] followed by [next] again. *)
Definition next_batch (L : loader) : M (list nat) :=
  fun st =>
    match iterator st with
    | b :: rest => (set_iterator rest (epochs st) st, Ok b)
    | [] =>
        match batches L (shuffles L (epochs st)) with
        | b :: rest => (set_iterator rest (S (epochs st)) st, Ok b)
        | [] => (set_iterator [] (S (epochs st)) st, Raise StopIteration)
        end
    end.

(** Lines 266-269. *)
Definition occlusion (a : args) (E : collaborators) (k : nat)
  (b : list nat) (loss : float) : float :=
  match beta a with
  | Some _ =>
      if 0 <? n_sigmas E k b then fadd loss (occ_reg E k b) else loss
  | None => loss
  end.

(** ['weight' in name] *)
Fixpoint contains (needle s : string) : bool :=
  String.prefix needle s ||
  match s with
  | EmptyString => false
  | String _ s' => contains needle s'
  end.

(** Lines 277-282: the penalty accumulated over the weight matrices. *)
Definition weight_penalty (a : args) (ps : list param) : float :=
  fold_left
    (fun acc p =>
       if contains "weight" (pname p) && (3 <? lead_dim p)
       then if String.eqb (reg a) "l1" then fadd acc (abs_sum p)
            else fadd acc (l2_norm p)
       else acc)
    ps (Finite 0).

(** [Ts = int(args.reg_ratio * args.Td)], line 275: the float
    [args.reg_ratio] times the integer [args.Td] converted to a float, a
    binary64 product, truncated toward zero. *)
Definition window (a : args) : Z :=
  py_int (fmul64 (round64 (reg_ratio a)) (round64 (inject_Z (Td a)))).

(** Lines 284-285, for [k < Ts]; a float division by zero raises. *)
Definition coefficient (a0 : Q) (Ts : Z) (k : nat) : result Q :=
  let x := (a0 + (1 - a0) * (inject_Z (Z.of_nat k) / inject_Z Ts))%Q in
  if Qeq_bool (1 - a0) 0 then Raise ZeroDivisionError
  else Ok ((a0 / (1 - a0)) * (1 - Qmin 1 x))%Q.

(** Lines 272-286: returns the loss with the penalty added. *)
Definition freq_regularizer (a : args) (E : collaborators) (k : nat)
  (loss : float) : M float :=
  match ao a with
  | None => ret loss
  | Some a0 =>
      let Ts := window a in
      if (Z.of_nat k <? Ts)%Z then
        let freq_reg := weight_penalty a (named_parameters E k) in
        match coefficient a0 Ts k with
        | Raise e => raise e
        | Ok v => set_alpha v ;;; ret (fadd loss (fscale v freq_reg))
        end
      else ret loss
  end.

(** [k % args.val_rate] *)
Definition py_mod (k : nat) (v : Z) : M Z :=
  if (v =? 0)%Z then raise ZeroDivisionError
  else ret (Z.of_nat k mod v)%Z.

(** Lines 289-292: backward pass and optimizer step on [loss]. *)
Definition optimizer_step (k : nat) (b : list nat) (loss : float) : M unit :=
  fun st =>
    emit (Step k b loss (model_training st) (estimator_training st)) st.

(** Lines 307-312. *)
Definition log_metrics (a : args) (k : nat) : M unit :=
  if debug a then ret tt
  else
    m <- py_mod k (val_rate a) ;;
    if (m =? 0)%Z then ret tt
    else v <- read_alpha ;; emit (Log k v).

(** Lines 315-361. *)
Definition validate_step (a : args) (k : nat) : M unit :=
  m <- py_mod k (val_rate a) ;;
  if (m =? 0)%Z && (0 <? k) && negb (no_val a) then
    set_eval ;;;
    (fun st =>
       emit (Validate k (model_training st) (estimator_training st)) st) ;;;
    if debug a then ret tt
    else v <- read_alpha ;; emit (LogVal k v)
  else ret tt.

(** The body of the loop, lines 238-361. *)
Definition body (a : args) (E : collaborators) (L : loader) (k : nat)
  : M unit :=
  set_train ;;;
  b <- next_batch L ;;
  let loss := occlusion a E k b (mse_loss E k b) in
  loss <- freq_regularizer a E k loss ;;
  optimizer_step k b loss ;;;
  log_metrics a k ;;;
  validate_step a k.

(** [for k in pbar: ...] *)
Fixpoint loop (f : nat -> M unit) (ks : list nat) : M unit :=
  match ks with
  | [] => ret tt
  | k :: rest => f k ;;; loop f rest
  end.

(** The state on entry to the loop: line 231 has created the first
    iterator, [alpha] is unbound, the modules are in their default
    training mode. *)
Definition initial (L : loader) : tstate :=
  {| model_training := true; estimator_training := true;
     lpips_training := true;
     iterator := batches L (shuffles L 0); epochs := 1;
     alpha := None; trace := [] |}.

(** [train]: the final state and whether the call returned or raised. *)
Definition train (a : args) (E : collaborators) (L : loader)
  : tstate * result unit :=
  loop (body a E L) (seq 0 (n_iters a)) (initial L).

(** The batch source on its own: [m] consecutive draws of lines
    241-245. *)
Fixpoint draw (L : loader) (m : nat) : M (list (list nat)) :=
  match m with
  | 0 => ret []
  | S m' => b <- next_batch L ;; bs <- draw L m' ;; ret (b :: bs)
  end.

(** The iterations at which a run called [validation], those at which it
    stepped the optimizer, and the losses it stepped on. *)
Definition validated (tr : list event) : list nat :=
  flat_map (fun e => match e with Validate k _ _ => [k] | _ => [] end) tr.

Definition stepped (tr : list event) : list nat :=
  flat_map (fun e => match e with Step k _ _ _ _ => [k] | _ => [] end) tr.

(** The sampler draws a permutation of the sample indices at every
    epoch, and batches are not empty. *)
Definition loader_ok (L : loader) : Prop :=
  0 < batch_size L /\
  forall e, Permutation (shuffles L e) (seq 0 (n_samples L)).

(** The closed form of section 4.3, step 5, in the words of the spec:
    [a = a0 + (1 - a0) * (k / window_length)] and
    [alpha = (a0 / (1 - a0)) * (1 - min(1, a))]. *)
Definition closed_form (a0 : Q) (window_length : Z) (k : nat) : Q :=
  let a := (a0 + (1 - a0) *
              (inject_Z (Z.of_nat k) / inject_Z window_length))%Q in
  ((a0 / (1 - a0)) * (1 - Qmin 1 a))%Q.

(** The claim's reading of the same formula: the window length is the
    product [activation_ratio * max_iters] itself, which need not be an
    integer. *)
Definition claimed_window (a : args) : Q :=
  (reg_ratio a * inject_Z (Td a))%Q.

Definition claimed_alpha (a0 window_length : Q) (k : nat) : Q :=
  let a := (a0 + (1 - a0) * (inject_Z (Z.of_nat k) / window_length))%Q in
  ((a0 / (1 - a0)) * (1 - Qmin 1 a))%Q.

(** Line 315: [k % args.val_rate == 0 and k > 0 and not args.no_val]. *)
Definition validation_due (a : args) (k : nat) : bool :=
  (Z.of_nat k mod val_rate a =? 0)%Z && (0 <? k) && negb (no_val a).

(** The modes section 4.3 requires: an optimizer step with model and
    accelerator in training mode, a validation pass with both in
    evaluation mode. *)
Definition modes_ok (e : event) : Prop :=
  match e with
  | Step _ _ _ m est => m = true /\ est = true
  | Validate _ m est => m = false /\ est = false
  | _ => True
  end.

(** The configurations under which no arithmetic of the loop raises and
    [alpha] is bound before it is read: a non-zero validation period, a
    floor different from 1, and either logging off or the regularizer
    configured with a non-empty window. *)
Definition arithmetic_ok (a : args) : Prop :=
  val_rate a <> 0%Z /\
  forall a0, ao a = Some a0 -> ~ (1 - a0 == 0)%Q.

Definition regularizer_active (a : args) : Prop :=
  exists a0, ao a = Some a0 /\ (0 < window a)%Z.

(** The value of [alpha] after the regularizer block of iteration [k],
    given its value before. *)
Definition alpha_after (a : args) (k : nat) (before : option Q) : option Q :=
  match ao a with
  | Some a0 =>
      if (Z.of_nat k <? window a)%Z then Some (closed_form a0 (window a) k)
      else before
  | None => before
  end.

(** Iteration [k] emits the plain training metrics (line 307). *)
Definition emits_metrics (a : args) (k : nat) : bool :=
  negb (debug a) && negb (Z.of_nat k mod val_rate a =? 0)%Z.

(** Iteration [k] reads [alpha]: at line 311 or at line 349. *)
Definition reads_alpha (a : args) (k : nat) : bool :=
  negb (debug a) &&
  (negb (Z.of_nat k mod val_rate a =? 0)%Z || validation_due a k).

(** The metrics emissions of a run, with the coefficient they report. *)
Definition logged (tr : list event) : list (nat * Q) :=
  flat_map (fun e => match e with Log k v => [(k, v)] | _ => [] end) tr.

(** The losses the optimizer stepped on. *)
Definition step_losses (tr : list event) : list (nat * list nat * float) :=
  flat_map (fun e => match e with
                     | Step k b l _ _ => [(k, b, l)]
                     | _ => []
                     end) tr.

(** [alpha] is bound whenever iteration [s] of the run is about to read
    it: logging is off, or [alpha] is already bound, or the run is at
    its first iteration with the regularizer active. *)
Definition ready (a : args) (s : nat) (st : tstate) : Prop :=
  debug a = true \/ alpha st <> None \/ (s = 0 /\ regularizer_active a).

(** A positive multiple of the validation period. *)
Definition positive_multiple (k : nat) (period : Z) : Prop :=
  exists q, (0 < q)%Z /\ Z.of_nat k = (q * period)%Z.

(** A batch is available at the next draw. *)
Definition can_draw (L : loader) (st : tstate) : Prop :=
  iterator st <> [] \/ batches L (shuffles L (epochs st)) <> [].

End Train.

(** ** Concrete runs used below *)

Module Examples.
Import Py Dataset Train.

(** Two views of one row of two RGBA pixels, the second camera moved
    along the x axis; one cluster per view. *)
Definition identity_pose : pose :=
  [[1; 0; 0; 0]; [0; 1; 0; 0]; [0; 0; 1; 0]; [0; 0; 0; 1]]%Q.

Definition shifted_pose : pose :=
  [[1; 0; 0; 2]; [0; 1; 0; 0]; [0; 0; 1; 0]; [0; 0; 0; 1]]%Q.

Definition toy_scene : scene_data :=
  {| all_imgs := [ [[ [1; 0; 0; 1]; [0; 1; 0; 1] ]];
                   [[ [0; 0; 1; 1]; [1; 1; 1; 1] ]] ]%Q;
     all_poses := [identity_pose; shifted_pose];
     scene_hwf := {| height := 1; width := 2; focal := 1 |} |}.

Definition toy_fit : kmeans_fit :=
  {| labels := [0; 1]; dists := [0; 0]%Q |}.

(** A blur that changes nothing and a resize that repeats the source
    periodically. *)
Definition tiling : transforms :=
  {| blur := fun _ _ t => t;
     resize := fun h w t =>
       map (fun im : image =>
              map (fun i =>
                     map (fun j =>
                            nth (j mod List.length (nth 0 im []))
                                (nth (i mod List.length im) im []) [])
                         (seq 0 w))
                  (seq 0 h)) t |}.

(** A dataset object before any ray table is built. *)
Definition toy_dataset : dataset :=
  {| scene := "lego"; split := "train"; near := 2; far := 8;
     img_mode := false;
     hwf := {| height := 1; width := 2; focal := 1 |};
     testimg := [[ [1; 0; 0]; [0; 1; 0] ]]%Q;
     testpose := identity_pose;
     imgs := [ [[ [1; 0; 0]; [0; 1; 0] ]] ]%Q;
     poses := [identity_pose];
     rays_o := None; rays_d := None; rgb := None |}.

(** Three samples, batches of one, two alternating shuffles. *)
Definition loader3 : loader :=
  {| n_samples := 3; batch_size := 1;
     shuffles := fun e => if Nat.even e then [2; 0; 1] else [1; 2; 0] |}.

(** A model of one weight matrix and one bias, with a renderer whose
    photometric loss is 1 on every batch ... *)
Definition unit_loss : collaborators :=
  {| mse_loss := fun _ _ => Finite 1;
     n_sigmas := fun _ _ => 0;
     occ_reg := fun _ _ => Finite 0;
     named_parameters := fun _ =>
       [{| pname := "net.0.weight"; lead_dim := 256;
           abs_sum := Finite 2; l2_norm := Finite 1 |};
        {| pname := "net.0.bias"; lead_dim := 256;
           abs_sum := Finite 3; l2_norm := Finite 1 |}] |}.

(** ... and one whose loss is non-finite at iteration 0. *)
Definition diverging_loss : collaborators :=
  {| mse_loss := fun k _ => if Nat.eqb k 0 then NonFinite else Finite 1;
     n_sigmas := fun _ _ => 0;
     occ_reg := fun _ _ => Finite 0;
     named_parameters := fun _ =>
       [{| pname := "net.0.weight"; lead_dim := 256;
           abs_sum := Finite 2; l2_norm := Finite 1 |};
        {| pname := "net.0.bias"; lead_dim := 256;
           abs_sum := Finite 3; l2_norm := Finite 1 |}] |}.

(** Four iterations, validation every second one, logging off, no
    regularizer. *)
Definition quiet_args : args :=
  {| n_iters := 4; val_rate := 2; debug := true; no_val := false;
     beta := None; ao := None; reg := "l1"%string; reg_ratio := (1 # 2)%Q; Td := 4 |}.

(** The same with logging on. *)
Definition logging_args : args :=
  {| n_iters := 4; val_rate := 2; debug := false; no_val := false;
     beta := None; ao := None; reg := "l1"%string; reg_ratio := (1 # 2)%Q; Td := 4 |}.

(** Three iterations with the frequency regularizer: floor 1/2 and
    window [int(0.5 * 4) = 2]; metrics at iterations 1 and 2. *)
Definition regularized_args : args :=
  {| n_iters := 3; val_rate := 5; debug := false; no_val := false;
     beta := None; ao := Some (1 # 2)%Q; reg := "l1"%string;
     reg_ratio := (1 # 2)%Q; Td := 4 |}.

(** The same run with another activation ratio and decay length. *)
Definition ratio_args (r : Q) (td : Z) : args :=
  {| n_iters := 3; val_rate := 5; debug := false; no_val := false;
     beta := None; ao := Some (1 # 2)%Q; reg := "l1"%string;
     reg_ratio := r; Td := td |}.

End Examples.

(** ** The rest of [validation] and the set sizes of [main] *)

Module Metrics.
Import Py.

(** Lines 174-183: [val_ssim = 0.], one [val_ssim += SSIM(...)] per image
    pair, then [val_ssim /= len(rgbs)].  [scores] lists the values
    [SSIM] returns, in the order of [rgbs]; with no image the division
    is a float division by the integer zero. *)
Definition val_ssim (scores : list Q) : result Q :=
  let total := fold_left Qplus scores 0%Q in
  if Nat.eqb (List.length scores) 0 then Raise ZeroDivisionError
  else Ok (total / inject_Z (Z.of_nat (List.length scores)))%Q.

(** Line 397: [subset_size = int(args.val_ratio * 25)], the number of
    views of the validation set used during training; a float product,
    truncated. *)
Definition subset_size (val_ratio : Q) : Z :=
  py_int (fmul64 (round64 val_ratio) (round64 25)).

(** Line 470: the final validation set has [n_imgs=25] views. *)
Definition final_size : nat := 25.

End Metrics.

(** ** The batches a run consumes *)

Module Stream.
Import Py Train.

(** The batches of the first [e] epochs, epoch after epoch. *)
Definition epoch_stream (L : loader) (e : nat) : list (list nat) :=
  flat_map (fun i => batches L (shuffles L i)) (seq 0 e).

(** The last iteration at or before [k] that lies inside the window of
    the regularizer. *)
Definition last_in_window (a : args) (k : nat) : nat :=
  Nat.min k (Z.to_nat (window a) - 1).

(** Lines 277-278: the parameters the penalty sums over. *)
Definition penalized (p : param) : bool :=
  contains "weight" (pname p) && (3 <? lead_dim p).

(** Lines 279-282: the norm the penalty takes of one parameter,
    [torch.abs(param).sum()] under ['l1'] and
    [torch.square(param).sum().sqrt()] otherwise. *)
Definition norm_of (a : args) (p : param) : float :=
  if String.eqb (reg a) "l1" then abs_sum p else l2_norm p.

End Stream.

(** ** Scene Loader: [SyntheticRealistic.__load] *)

Module Loader.
Import Py Dataset.

(** One entry of [meta['frames']] together with the array [iio.imread]
    returns for its file: the camera-to-world matrix by rows and the
    image as [H x W x C] bytes. *)
Record frame : Type := {
  transform_matrix : list (list Q);
  pixels : list (list (list nat))
}.

(** The shape of a matrix and of an image array. *)
Definition shape2 (m : list (list Q)) : nat * nat :=
  (List.length m, List.length (hd [] m)).

Definition shape3 (im : list (list (list nat))) : nat * nat * nat :=
  (List.length im, List.length (hd [] im),
   List.length (hd [] (hd [] im))).

Definition shape2_eqb (x y : nat * nat) : bool :=
  Nat.eqb (fst x) (fst y) && Nat.eqb (snd x) (snd y).

Definition shape3_eqb (x y : nat * nat * nat) : bool :=
  shape2_eqb (fst x) (fst y) && Nat.eqb (snd x) (snd y).

(** [np.stack(arrs, axis=0)]: [ValueError] on an empty list and when an
    array differs in shape from the first. *)
Definition stack {A S : Type} (shape : A -> S) (eqb : S -> S -> bool)
  (arrs : list A) : result (list A) :=
  match arrs with
  | [] => Raise ValueError
  | first :: rest =>
      if forallb (fun x => eqb (shape x) (shape first)) rest then Ok arrs
      else Raise ValueError
  end.

(** [/ 255.] on one byte of an image. *)
Definition scale (b : nat) : Q := (inject_Z (Z.of_nat b) / 255)%Q.

(** Lines 186-211.  [tan_half_fov] is the value of
    [np.tan(0.5 * camera_angle_x)]; numpy divides by a zero tangent
    without raising, the focal length is then not finite. *)
Definition load (frames : list frame) (tan_half_fov : Q)
  : result (list image * list pose * (nat * nat * float)) :=
  rbind (stack shape2 shape2_eqb (map transform_matrix frames)) (fun ps =>
  rbind (stack shape3 shape3_eqb (map pixels frames)) (fun raw =>
  let images :=
    map (map (map (map scale))) raw in
  let H := List.length (hd [] raw) in
  let W := List.length (hd [] (hd [] raw)) in
  let focal_length :=
    if Qeq_bool tan_half_fov 0 then NonFinite
    else Finite ((1 # 2) * inject_Z (Z.of_nat W) / tan_half_fov)%Q in
  Ok (images, ps, (H, W, focal_length)))).

(** An image that is a proper array of [h] rows of [w] pixels of [c]
    bytes each. *)
Definition array3 (h w c : nat) (im : list (list (list nat))) : Prop :=
  List.length im = h /\
  Forall (fun row => List.length row = w /\
                     Forall (fun px => List.length px = c /\
                                       Forall (fun b => b <= 255) px) row)
         im.

(** The nested lists of an array.  A matrix read from JSON is an array
    when its rows have one length; an image read from a PNG file has a
    positive height, width and channel count.  On these [shape2] and
    [shape3] are the [shape] of the array. *)
Definition is_array2 (m : list (list Q)) : Prop :=
  Forall (fun row => List.length row = List.length (hd [] m)) m.

Definition is_array3 (im : list (list (list nat))) : Prop :=
  exists h w c, 0 < h /\ 0 < w /\ 0 < c /\ array3 h w c im.

Definition readable (fr : frame) : Prop :=
  is_array2 (transform_matrix fr) /\ is_array3 (pixels fr).

(** Line 55 of [__init__]: the three results of [__load] as the
    constructor uses them.  The intrinsics hold a focal length only when
    it is finite. *)
Definition as_scene (r : list image * list pose * (nat * nat * float))
  : option scene_data :=
  match r with
  | (images, ps, (H, W, Finite f)) =>
      Some {| all_imgs := images; all_poses := ps;
              scene_hwf := {| height := H; width := W; focal := f |} |}
  | _ => None
  end.

(** Every channel value of a batch of images lies in [[0, 1]]. *)
Definition unit_range (t : list image) : Prop :=
  Forall (Forall (Forall (Forall (fun v => 0 <= v /\ v <= 1)%Q))) t.

(** The number of channels of the image of a frame. *)
Definition channels (fr : frame) : nat := snd (shape3 (pixels fr)).

(** Two frames of one row of two RGBA pixels, and a third one of two
    rows. *)
Definition toy_frame (x : Q) (r g : nat) : frame :=
  {| transform_matrix :=
       [[1; 0; 0; x]; [0; 1; 0; 0]; [0; 0; 1; 4]; [0; 0; 0; 1]]%Q;
     pixels := [[[r; g; 0; 255]; [0; g; r; 0]]] |}.

Definition toy_frames : list frame := [toy_frame 0 255 0; toy_frame 1 51 102].

Definition tall_frame : frame :=
  {| transform_matrix :=
       [[1; 0; 0; 2]; [0; 1; 0; 0]; [0; 0; 1; 4]; [0; 0; 0; 1]]%Q;
     pixels := [[[1; 2; 3; 255]; [4; 5; 6; 255]];
                [[7; 8; 9; 255]; [0; 0; 0; 0]]] |}.

End Loader.

(** * Properties *)

(** ** Primitives *)

Module PyFacts.
Import Py.

Lemma rbind_ok {A B : Type} (r : result A) (f : A -> result B) (b : B) :
  rbind r f = Ok b -> exists a, r = Ok a /\ f a = Ok b.
Proof.
  destruct r as [a|e]; simpl; intros H; [exists a; auto | discriminate].
Qed.

(** *** Binary64 rounding *)

Lemma pow2_pos (e : Z) : (0 < pow2 e)%Q.
Proof.
  unfold pow2. destruct (Z.leb_spec 0 e) as [He|He].
  - change 0%Q with (inject_Z 0). rewrite <- Zlt_Qlt.
    apply Z.pow_pos_nonneg; lia.
  - reflexivity.
Qed.

Lemma pow2_inv (e : Z) :
  (e <= 0)%Z -> (inject_Z (2 ^ (- e)) * pow2 e == 1)%Q.
Proof.
  intros He. unfold pow2. destruct (Z.leb_spec 0 e) as [H0|H0].
  - assert (E : e = 0%Z) by lia. subst e. reflexivity.
  - unfold Qeq. simpl. rewrite Z2Pos.id by (apply Z.pow_pos_nonneg; lia).
    ring.
Qed.

Lemma round_half_even_le (q : Q) (c : Z) :
  (q <= inject_Z c)%Q -> (round_half_even q <= c)%Z.
Proof.
  destruct q as [n d]. unfold Qle, round_half_even. cbn [Qnum Qden inject_Z]. intros H.
  pose proof (Z.div_mod n (Zpos d)) as Hdm.
  pose proof (Z.mod_pos_bound n (Zpos d)) as Hr.
  set (f := (n / Zpos d)%Z) in *. set (r := (n mod Zpos d)%Z) in *.
  assert (Hf : (f <= c)%Z)
    by (apply Z.div_le_upper_bound; lia).
  assert (Hs : (0 < r -> f + 1 <= c)%Z).
  { intros Hr0. destruct (Z.eq_dec f c) as [->|Hne]; lia. }
  destruct (Z.compare_spec (2 * r) (Zpos d)); [destruct (Z.even f)| |]; lia.
Qed.

Lemma round_half_even_nonneg (q : Q) :
  (0 <= q)%Q -> (0 <= round_half_even q)%Z.
Proof.
  destruct q as [n d]. unfold Qle, round_half_even. cbn [Qnum Qden inject_Z]. intros H.
  pose proof (Z.div_mod n (Zpos d)) as Hdm.
  pose proof (Z.mod_pos_bound n (Zpos d)) as Hr.
  assert (Hf : (0 <= n / Zpos d)%Z) by (apply Z.div_pos; lia).
  set (f := (n / Zpos d)%Z) in *. set (r := (n mod Zpos d)%Z) in *.
  destruct (Z.compare_spec (2 * r) (Zpos d)); [destruct (Z.even f)| |]; lia.
Qed.

Lemma ilog2_le (x : Q) (c : Z) :
  (0 < x)%Q -> (x <= inject_Z c)%Q -> (ilog2 x <= Z.log2 c)%Z.
Proof.
  destruct x as [n d]. unfold Qlt, Qle, ilog2. cbn [Qnum Qden inject_Z]. intros Hpos Hle.
  assert (Hn : (0 < n)%Z) by lia.
  assert (Hc : (0 < c)%Z) by nia.
  rewrite (Z.abs_eq n) by lia.
  set (g := (Z.log2 n - Z.log2 (Zpos d))%Z).
  pose proof (Z.log2_nonneg c) as Hlc.
  destruct (Qle_bool (pow2 g) (n # d)) eqn:E.
  - apply Qle_bool_iff in E.
    destruct (Z.leb_spec 0 g) as [Hg|Hg]; [|lia].
    unfold pow2 in E. destruct (Z.leb_spec 0 g) as [_|Hg']; [|lia].
    unfold Qle in E. simpl in E.
    assert (Hp : (0 < 2 ^ g)%Z) by (apply Z.pow_pos_nonneg; lia).
    apply Z.log2_le_pow2; [assumption|]. nia.
  - assert (Hm : (Z.log2 n <= Z.log2 (c * Zpos d))%Z)
      by (apply Z.log2_le_mono; lia).
    pose proof (Z.log2_mul_above c (Zpos d)) as Ha.
    unfold g. lia.
Qed.

Lemma round64_nonneg (x : Q) : (0 <= x)%Q -> (0 <= round64 x)%Q.
Proof.
  intros Hx. unfold round64. destruct (Qeq_bool x 0); [apply Qle_refl|].
  set (e := Z.max (ilog2 x - 52) (- 1074)).
  apply Qmult_le_0_compat.
  - change 0%Q with (inject_Z 0). rewrite <- Zle_Qle.
    apply round_half_even_nonneg. apply Qle_shift_div_l.
    + apply pow2_pos.
    + rewrite Qmult_0_l. assumption.
  - apply Qlt_le_weak. apply pow2_pos.
Qed.

(** Rounding never crosses an integer below [2 ^ 53]. *)
Lemma round64_le (x : Q) (c : Z) :
  (c < 2 ^ 53)%Z -> (0 <= x)%Q -> (x <= inject_Z c)%Q ->
  (round64 x <= inject_Z c)%Q.
Proof.
  intros Hc H0 Hle. unfold round64.
  destruct (Qeq_bool x 0) eqn:E0.
  { apply Qeq_bool_iff in E0. rewrite <- E0. assumption. }
  assert (Hpos : (0 < x)%Q).
  { apply Qle_lteq in H0. destruct H0 as [H0|H0]; [assumption|].
    assert (Hz : Qeq_bool x 0 = true)
      by (apply Qeq_bool_iff; symmetry; assumption).
    congruence. }
  assert (Hcpos : (0 < c)%Z).
  { rewrite Zlt_Qlt. eapply Qlt_le_trans; [exact Hpos|exact Hle]. }
  pose proof (ilog2_le Hpos Hle) as Hil.
  assert (Hl : (Z.log2 c < 53)%Z) by (apply Z.log2_lt_pow2; assumption).
  set (e := Z.max (ilog2 x - 52) (- 1074)).
  assert (He : (e <= 0)%Z) by (unfold e; lia).
  pose proof (pow2_pos e) as Hp.
  pose proof (pow2_inv He) as Hinv.
  assert (Hy : (x / pow2 e <= inject_Z (c * 2 ^ (- e)))%Q).
  { apply Qle_shift_div_r; [assumption|].
    rewrite inject_Z_mult, <- Qmult_assoc, Hinv, Qmult_1_r. assumption. }
  apply round_half_even_le in Hy. rewrite Zle_Qle in Hy.
  apply Qle_trans with (inject_Z (c * 2 ^ (- e)) * pow2 e)%Q.
  - apply Qmult_le_compat_r; [assumption|]. apply Qlt_le_weak. assumption.
  - rewrite inject_Z_mult, <- Qmult_assoc, Hinv, Qmult_1_r. apply Qle_refl.
Qed.

(** A float product of a float in [[0, a]] and a float in [[0, b]]
    truncates to an integer in [[0, a * b]]. *)
Lemma int_fmul64_bounds (x y : Q) (a b : Z) :
  (a * b < 2 ^ 53)%Z -> (0 <= a)%Z ->
  (0 <= x)%Q -> (x <= inject_Z a)%Q -> (0 <= y)%Q -> (y <= inject_Z b)%Q ->
  (0 <= Z.quot (Qnum (fmul64 x y)) (Zpos (Qden (fmul64 x y))) <= a * b)%Z.
Proof.
  intros Hab Ha Hx0 Hxa Hy0 Hyb. unfold fmul64.
  assert (Hp0 : (0 <= x * y)%Q) by (apply Qmult_le_0_compat; assumption).
  assert (Hpa : (x * y <= inject_Z (a * b))%Q).
  { rewrite inject_Z_mult.
    apply Qle_trans with (inject_Z a * y)%Q.
    - apply Qmult_le_compat_r; assumption.
    - rewrite !(Qmult_comm (inject_Z a)).
      apply Qmult_le_compat_r; [assumption|].
      change 0%Q with (inject_Z 0). rewrite <- Zle_Qle. assumption. }
  pose proof (round64_nonneg Hp0) as H0.
  pose proof (round64_le Hab Hp0 Hpa) as H1.
  destruct (round64 (x * y)) as [n d]. unfold Qle in *.
  cbn [Qnum Qden inject_Z] in *.
  assert (Hn : (0 <= n)%Z) by lia.
  rewrite Z.quot_div_nonneg by lia. split.
  - apply Z.div_pos; lia.
  - apply Z.div_le_upper_bound; lia.
Qed.

(** A slice taken beyond a prefix of known length is a slice of the
    rest. *)
Lemma slice_app_skip {A : Type} (p l : list A) (c i j : nat) :
  List.length p = c -> slice (p ++ l) (c + i) (c + j) = slice l i j.
Proof.
  intros Hp. unfold slice.
  replace (c + j - (c + i)) with (j - i) by lia.
  rewrite skipn_app, Hp.
  rewrite (skipn_all2 p) by lia.
  replace (c + i - c) with i by lia. reflexivity.
Qed.

Lemma slice_app_head {A : Type} (p l : list A) (c : nat) :
  List.length p = c -> slice (p ++ l) 0 c = p.
Proof.
  intros Hp. unfold slice. simpl. rewrite Nat.sub_0_r.
  rewrite firstn_app, Hp, Nat.sub_diag. simpl.
  rewrite app_nil_r. apply firstn_all2. lia.
Qed.

(** Cutting the concatenation of rows of width [c] at the multiples of
    [c] gives the rows back. *)
Lemma slice_rows {A : Type} (c : nat) (ps : list (list A)) :
  Forall (fun p => List.length p = c) ps ->
  map (fun r => slice (concat ps) (r * c) (r * c + c))
      (seq 0 (List.length ps)) = ps.
Proof.
  induction 1 as [|p t Hp Ht IH]; [reflexivity|].
  simpl List.length. simpl seq. simpl concat. simpl map. f_equal.
  - apply slice_app_head. assumption.
  - rewrite <- seq_shift, map_map. rewrite <- IH at 2.
    apply map_ext. intros r. simpl.
    replace (c + r * c + c) with (c + (r * c + c)) by lia.
    apply slice_app_skip. assumption.
Qed.

Lemma concat_length_rows {A : Type} (c : nat) (ps : list (list A)) :
  Forall (fun p => List.length p = c) ps ->
  List.length (concat ps) = List.length ps * c.
Proof.
  induction 1 as [|p t Hp Ht IH]; [reflexivity|].
  simpl. rewrite length_app, IH, Hp. reflexivity.
Qed.

(** Reshaping the concatenation of rows of width [c] to width [c] gives
    the rows back. *)
Lemma reshape_rows_concat {A : Type} (c : nat) (ps : list (list A)) :
  0 < c -> Forall (fun p => List.length p = c) ps ->
  reshape_rows c (concat ps) = Ok ps.
Proof.
  intros Hc Hps. unfold reshape_rows.
  destruct (Nat.eqb_spec c 0) as [->|_]; [lia|].
  rewrite (concat_length_rows Hps).
  rewrite Nat.Div0.mod_mul, Nat.div_mul by lia. simpl.
  rewrite (slice_rows Hps). reflexivity.
Qed.

End PyFacts.

(** ** View Selector *)

Module ViewSelectorFacts.
Import Py PyFacts ViewSelector.

Lemma dist_ltb_irrefl (x : dist) : dist_ltb x x = false.
Proof.
  destruct x as [q|]; simpl; [|reflexivity].
  apply negb_false_iff, Qle_bool_iff, Qle_refl.
Qed.

(** Replacing the running minimum by a strictly smaller entry keeps
    everything seen so far above it. *)
Lemma dist_ltb_chain (x y bv : dist) :
  dist_ltb x bv = true -> dist_ltb y bv = false -> dist_ltb y x = false.
Proof.
  destruct x as [x|], y as [y|], bv as [b|]; simpl; try congruence.
  intros Hx Hy.
  apply negb_true_iff in Hx. apply negb_false_iff in Hy.
  apply negb_false_iff. apply Qle_bool_iff. apply Qle_bool_iff in Hy.
  destruct (Qlt_le_dec x b) as [Hlt|Hle].
  - apply Qlt_le_weak. eapply Qlt_le_trans; eassumption.
  - apply Qle_bool_iff in Hle. congruence.
Qed.

(** The scan returns the position of an entry that no entry of the whole
    array is strictly below. *)
Lemma argmin_scan_min (l pre : list dist) (best : nat) (bv : dist) :
  nth_error pre best = Some bv ->
  (forall y, In y pre -> dist_ltb y bv = false) ->
  exists v,
    nth_error (pre ++ l) (argmin_scan l (List.length pre) best bv) = Some v /\
    forall y, In y (pre ++ l) -> dist_ltb y v = false.
Proof.
  revert pre best bv.
  induction l as [|x t IH]; intros pre best bv Hbest Hmin; simpl.
  - exists bv. rewrite app_nil_r. auto.
  - replace (pre ++ x :: t) with ((pre ++ [x]) ++ t)
      by (rewrite <- app_assoc; reflexivity).
    replace (S (List.length pre)) with (List.length (pre ++ [x]))
      by (rewrite length_app; simpl; lia).
    destruct (dist_ltb x bv) eqn:Hx.
    + apply IH.
      * rewrite nth_error_app2 by lia. rewrite Nat.sub_diag. reflexivity.
      * intros y Hy. apply in_app_or in Hy. destruct Hy as [Hy|[<-|[]]].
        -- eapply dist_ltb_chain; eauto.
        -- apply dist_ltb_irrefl.
    + apply IH.
      * rewrite nth_error_app1; [assumption|].
        apply nth_error_Some. congruence.
      * intros y Hy. apply in_app_or in Hy. destruct Hy as [Hy|[<-|[]]]; auto.
Qed.

Lemma argmin_min (l : list dist) (r : nat) :
  argmin l = Ok r ->
  exists v, nth_error l r = Some v /\
            forall y, In y l -> dist_ltb y v = false.
Proof.
  destruct l as [|x t]; simpl; [discriminate|].
  intros H. injection H as <-.
  destruct (@argmin_scan_min t [x] 0 x) as [v [Hv Hmin]].
  - reflexivity.
  - intros y [<-|[]]. apply dist_ltb_irrefl.
  - exists v. split; assumption.
Qed.

Lemma np_where_nth (labels : list nat) (dists : list Q) (i j : nat) :
  nth_error (np_where labels i dists) j =
  match nth_error labels j, nth_error dists j with
  | Some l, Some d => Some (if Nat.eqb l i then Fin d else Inf)
  | _, _ => None
  end.
Proof.
  unfold np_where. revert dists j.
  induction labels as [|l ls IH]; intros [|d ds] [|j]; simpl; auto.
  - destruct (nth_error ls j); reflexivity.
Qed.

(** When cluster [i] has a member, the arg-min of the masked distances is
    a member of cluster [i] at least as close as every other member. *)
Lemma argmin_member (labels : list nat) (dists : list Q) (i j0 r : nat) :
  List.length labels = List.length dists ->
  member labels i j0 ->
  argmin (np_where labels i dists) = Ok r ->
  member labels i r /\
  forall j' d d', member labels i j' ->
    nth_error dists r = Some d -> nth_error dists j' = Some d' ->
    (d <= d')%Q.
Proof.
  intros Hlen Hj0 Harg.
  destruct (argmin_min _ Harg) as [v [Hv Hmin]].
  assert (Hin : forall j' d', member labels i j' ->
            nth_error dists j' = Some d' ->
            In (Fin d') (np_where labels i dists)).
  { intros j' d' Hm Hd. apply nth_error_In with (n := j').
    rewrite np_where_nth. unfold member in Hm. rewrite Hm, Hd.
    rewrite Nat.eqb_refl. reflexivity. }
  assert (Hd0 : exists d0, nth_error dists j0 = Some d0).
  { destruct (nth_error dists j0) eqn:E; [eauto|].
    apply nth_error_None in E.
    assert (j0 < List.length labels)
      by (apply nth_error_Some; unfold member in Hj0; congruence).
    lia. }
  destruct Hd0 as [d0 Hd0].
  rewrite np_where_nth in Hv.
  destruct (nth_error labels r) as [l|] eqn:El; [|discriminate].
  destruct (nth_error dists r) as [d|] eqn:Ed; [|discriminate].
  destruct (Nat.eqb l i) eqn:Eli.
  - apply Nat.eqb_eq in Eli. subst l. injection Hv as <-.
    split; [exact El|].
    intros j' d1 d' Hm Hd1 Hd'. injection Hd1 as <-.
    specialize (Hmin _ (Hin _ _ Hm Hd')). simpl in Hmin.
    apply negb_false_iff in Hmin. apply Qle_bool_iff in Hmin. exact Hmin.
  - injection Hv as <-.
    specialize (Hmin _ (Hin _ _ Hj0 Hd0)). simpl in Hmin. discriminate.
Qed.

Lemma select_loop_nth (labels : list nat) (dists : list Q) (cs idxs : list nat) :
  select_loop labels dists cs = Ok idxs ->
  List.length idxs = List.length cs /\
  forall n j, nth_error idxs n = Some j ->
    exists i, nth_error cs n = Some i /\
              argmin (np_where labels i dists) = Ok j.
Proof.
  revert idxs. induction cs as [|c cs IH]; intros idxs; simpl.
  - intros H. injection H as <-. split; [reflexivity|].
    intros [|n] j; discriminate.
  - intros H. apply rbind_ok in H. destruct H as [j0 [Hj0 H]].
    apply rbind_ok in H. destruct H as [js [Hjs H]].
    injection H as <-. destruct (IH _ Hjs) as [Hl Hn].
    split; [simpl; lia|].
    intros [|n] j; simpl.
    + intros Hj. injection Hj as <-. eauto.
    + apply Hn.
Qed.

Lemma select_loop_total (labels : list nat) (dists : list Q) (cs : list nat) :
  np_where labels 0 dists <> [] ->
  exists idxs, select_loop labels dists cs = Ok idxs.
Proof.
  intros Hne. induction cs as [|c cs [js IH]]; simpl; [eauto|].
  assert (Hc : exists j, argmin (np_where labels c dists) = Ok j).
  { unfold np_where in *.
    destruct (combine labels dists); [exfalso; apply Hne; reflexivity|].
    simpl. eauto. }
  destruct Hc as [j ->]. simpl. rewrite IH. simpl. eauto.
Qed.

Lemma seq_nth_error (k n i : nat) :
  nth_error (seq 0 k) n = Some i -> i = n /\ n < k.
Proof.
  intros H.
  assert (Hn : n < List.length (seq 0 k))
    by (apply nth_error_Some; congruence).
  rewrite length_seq in Hn. split; [|assumption].
  apply nth_error_nth with (d := 0) in H.
  rewrite seq_nth in H by assumption. simpl in H. congruence.
Qed.

(** C1: for a valid target count [k], that is on a K-means result whose
    [k] clusters all have a member, the View Selector returns exactly
    [k] indices without duplicates, the [i]-th one a member of cluster [i]
    and an arg-min-distance member of it: no member of cluster [i] lies
    strictly closer to the centre of cluster [i]. *)
Theorem select_one_per_cluster (labels : list nat) (dists : list Q) (k : nat) :
  List.length labels = List.length dists ->
  (forall i, i < k -> exists j, member labels i j) ->
  exists idxs,
    select labels dists k = Ok idxs /\ selection_ok labels dists k idxs.
Proof.
  intros Hlen Hmem. unfold select.
  destruct k as [|k'].
  { exists []. split; [reflexivity|]. repeat split.
    - constructor.
    - destruct i; discriminate.
    - destruct i; discriminate. }
  set (k := S k') in *.
  assert (Hne : np_where labels 0 dists <> []).
  { destruct (Hmem 0) as [j0 Hj0]; [subst k; lia|].
    intros Hnil.
    assert (Hn : nth_error (np_where labels 0 dists) j0 = None)
      by (rewrite Hnil; destruct j0; reflexivity).
    rewrite np_where_nth in Hn. unfold member in Hj0. rewrite Hj0 in Hn.
    destruct (nth_error dists j0) eqn:E; [discriminate|].
    apply nth_error_None in E.
    assert (j0 < List.length labels) by (apply nth_error_Some; congruence).
    lia. }
  destruct (select_loop_total labels dists (seq 0 k) Hne) as [idxs Hsel].
  exists idxs. split; [assumption|].
  destruct (select_loop_nth _ _ _ Hsel) as [Hl Hn].
  rewrite length_seq in Hl.
  assert (Hper : forall i j, nth_error idxs i = Some j ->
            member labels i j /\
            forall j' d d', member labels i j' ->
              nth_error dists j = Some d -> nth_error dists j' = Some d' ->
              (d <= d')%Q).
  { intros i j Hij. destruct (Hn _ _ Hij) as [c [Hc Harg]].
    apply seq_nth_error in Hc. destruct Hc as [-> Hlt].
    destruct (Hmem i Hlt) as [j0 Hj0].
    eapply argmin_member; eauto. }
  repeat split.
  - assumption.
  - apply NoDup_nth_error. intros i1 i2 Hi1 Heq.
    destruct (nth_error idxs i1) as [j|] eqn:E1;
      [|apply nth_error_None in E1; lia].
    symmetry in Heq.
    destruct (Hper _ _ E1) as [M1 _]. destruct (Hper _ _ Heq) as [M2 _].
    unfold member in *. congruence.
  - apply Hper; assumption.
  - apply Hper; assumption.
Qed.

(** A run of the theorem: five cameras on a line, at [x = 0, 2, 10, 11]
    and [12].  K-means with two clusters puts the centres at [1] and
    [11]: the first two views lie at distance 1 from theirs, the last
    three at distances 1, 0 and 1. *)
Lemma select_one_per_cluster_witness :
  exists idxs,
    select [0; 0; 1; 1; 1] [1; 1; 1; 0; 1]%Q 2 = Ok idxs /\
    selection_ok [0; 0; 1; 1; 1] [1; 1; 1; 0; 1]%Q 2 idxs.
Proof.
  apply (@select_one_per_cluster [0; 0; 1; 1; 1] [1; 1; 1; 0; 1]%Q 2).
  - reflexivity.
  - intros i Hi. destruct i as [|[|i]].
    + exists 0. reflexivity.
    + exists 2. reflexivity.
    + lia.
Defined.

(** Outside the domain of C1 the loop of lines 75-78 has no guard.  When
    more clusters are requested than there are distinct camera positions
    (two views at the same position, two clusters), a cluster stays
    empty: both views carry label 0, the masked distances of cluster 1
    are all infinite, [np.argmin] returns index 0 for it, and the
    selection is [0; 0]. *)
Lemma select_empty_cluster_duplicate :
  select [0; 0] [0; 0]%Q 2 = Ok [0; 0] /\
  ~ selection_ok [0; 0] [0; 0]%Q 2 [0; 0].
Proof.
  split; [reflexivity|].
  intros [_ [Hnd _]]. inversion Hnd as [|x l Hnotin _]. subst.
  apply Hnotin. left. reflexivity.
Qed.

End ViewSelectorFacts.

(** ** Regularizer coefficient *)

Module CoefficientFacts.
Import Py Train.

Lemma coefficient_closed_form (a0 : Q) (Ts : Z) (k : nat) :
  ~ (1 - a0 == 0)%Q ->
  coefficient a0 Ts k = Ok (closed_form a0 Ts k).
Proof.
  intros Hne. unfold coefficient, closed_form.
  destruct (Qeq_bool (1 - a0) 0) eqn:E; [|reflexivity].
  apply Qeq_bool_iff in E. contradiction.
Qed.

(** [k / Ts] lies in [0, 1] on the closed window and grows with [k]. *)
Lemma ratio_bounds (Ts : Z) (k : nat) :
  (0 < Ts)%Z -> (Z.of_nat k <= Ts)%Z ->
  (0 <= inject_Z (Z.of_nat k) / inject_Z Ts /\
   inject_Z (Z.of_nat k) / inject_Z Ts <= 1)%Q.
Proof.
  intros HTs Hk.
  assert (HT : (0 < inject_Z Ts)%Q)
    by (change 0%Q with (inject_Z 0); rewrite <- Zlt_Qlt; assumption).
  split.
  - apply Qle_shift_div_l; [assumption|]. rewrite Qmult_0_l.
    change 0%Q with (inject_Z 0). rewrite <- Zle_Qle. lia.
  - apply Qle_shift_div_r; [assumption|]. rewrite Qmult_1_l.
    rewrite <- Zle_Qle. assumption.
Qed.

Lemma ratio_mono (Ts : Z) (k1 k2 : nat) :
  (0 < Ts)%Z -> k1 <= k2 ->
  (inject_Z (Z.of_nat k1) / inject_Z Ts <=
   inject_Z (Z.of_nat k2) / inject_Z Ts)%Q.
Proof.
  intros HTs Hk.
  assert (HT : (0 < inject_Z Ts)%Q)
    by (change 0%Q with (inject_Z 0); rewrite <- Zlt_Qlt; assumption).
  unfold Qdiv. apply Qmult_le_compat_r.
  - rewrite <- Zle_Qle. lia.
  - apply Qlt_le_weak. apply Qinv_lt_0_compat. assumption.
Qed.

(** On the closed window the clamp [min(1, a)] is inactive and the
    closed form is the straight line from [a0] down to [0]. *)
Lemma closed_form_linear (a0 : Q) (Ts : Z) (k : nat) :
  (0 < a0)%Q -> (a0 < 1)%Q -> (0 < Ts)%Z -> (Z.of_nat k <= Ts)%Z ->
  (closed_form a0 Ts k ==
   a0 * (1 - inject_Z (Z.of_nat k) / inject_Z Ts))%Q.
Proof.
  intros H0 H1 HTs Hk. unfold closed_form.
  destruct (ratio_bounds k HTs Hk) as [Hr0 Hr1].
  set (r := (inject_Z (Z.of_nat k) / inject_Z Ts)%Q) in *.
  assert (Ha : (a0 + (1 - a0) * r <= 1)%Q).
  { assert ((1 - a0) * r <= (1 - a0) * 1)%Q.
    { rewrite !(Qmult_comm (1 - a0)).
      apply Qmult_le_compat_r; [assumption|lra]. }
    lra. }
  rewrite (Q.min_r _ _ Ha). field. lra.
Qed.

Lemma closed_form_mono (a0 : Q) (Ts : Z) (k1 k2 : nat) :
  (0 < a0)%Q -> (a0 < 1)%Q -> (0 < Ts)%Z -> k1 <= k2 ->
  (closed_form a0 Ts k2 <= closed_form a0 Ts k1)%Q.
Proof.
  intros H0 H1 HTs Hk. unfold closed_form.
  pose proof (ratio_mono HTs Hk) as Hr.
  set (r1 := (inject_Z (Z.of_nat k1) / inject_Z Ts)%Q) in *.
  set (r2 := (inject_Z (Z.of_nat k2) / inject_Z Ts)%Q) in *.
  assert (Ha : (a0 + (1 - a0) * r1 <= a0 + (1 - a0) * r2)%Q).
  { assert ((1 - a0) * r1 <= (1 - a0) * r2)%Q.
    { rewrite !(Qmult_comm (1 - a0)).
      apply Qmult_le_compat_r; [assumption|lra]. }
    lra. }
  pose proof (Q.min_le_compat_l _ _ 1%Q Ha) as Hm.
  assert (Hc : (0 <= a0 / (1 - a0))%Q).
  { apply Qle_shift_div_l; lra. }
  rewrite !(Qmult_comm (a0 / (1 - a0))).
  apply Qmult_le_compat_r; [lra|assumption].
Qed.

Lemma inject_Z_pos (z : Z) : (0 < z)%Z -> (0 < inject_Z z)%Q.
Proof.
  intros H. change 0%Q with (inject_Z 0). rewrite <- Zlt_Qlt. assumption.
Qed.

Lemma closed_form_start (a0 : Q) (Ts : Z) :
  (0 < a0)%Q -> (a0 < 1)%Q -> (0 < Ts)%Z ->
  (closed_form a0 Ts 0 == a0)%Q.
Proof.
  intros H0 H1 HTs.
  rewrite closed_form_linear by (simpl; auto; lia).
  pose proof (inject_Z_pos HTs) as HT. simpl Z.of_nat.
  field. lra.
Qed.

(** At [k = Ts] the closed form evaluates to zero. *)
Lemma closed_form_end (a0 : Q) (Ts : Z) (k : nat) :
  (0 < a0)%Q -> (a0 < 1)%Q -> (0 < Ts)%Z -> Z.of_nat k = Ts ->
  (closed_form a0 Ts k == 0)%Q.
Proof.
  intros H0 H1 HTs Hk.
  rewrite closed_form_linear by (auto; lia).
  pose proof (inject_Z_pos HTs) as HT. rewrite Hk.
  field. lra.
Qed.

(** At the last iteration of the window, [k = Ts - 1], it is
    [a0 / Ts]. *)
Lemma closed_form_last (a0 : Q) (Ts : Z) (k : nat) :
  (0 < a0)%Q -> (a0 < 1)%Q -> (0 < Ts)%Z -> Z.of_nat k = (Ts - 1)%Z ->
  (closed_form a0 Ts k == a0 / inject_Z Ts)%Q.
Proof.
  intros H0 H1 HTs Hk.
  rewrite closed_form_linear by (auto; lia).
  pose proof (inject_Z_pos HTs) as HT. rewrite Hk.
  unfold Z.sub. rewrite inject_Z_plus, inject_Z_opp.
  change (inject_Z 1) with 1%Q. field. lra.
Qed.

(** Inside the window it is strictly positive. *)
Lemma closed_form_pos (a0 : Q) (Ts : Z) (k : nat) :
  (0 < a0)%Q -> (a0 < 1)%Q -> (Z.of_nat k < Ts)%Z ->
  (0 < closed_form a0 Ts k)%Q.
Proof.
  intros H0 H1 Hk.
  assert (HTs : (0 < Ts)%Z) by lia.
  rewrite closed_form_linear by (auto; lia).
  pose proof (inject_Z_pos HTs) as HT.
  assert (Hr : (inject_Z (Z.of_nat k) / inject_Z Ts < 1)%Q).
  { apply Qlt_shift_div_r; [assumption|]. rewrite Qmult_1_l.
    rewrite <- Zlt_Qlt. assumption. }
  apply Qmult_lt_0_compat; lra.
Qed.

End CoefficientFacts.

(** ** Training loop *)

Module TrainFacts.
Import Py Train.

Lemma validation_due_zero_period (a : args) (k : nat) :
  val_rate a = 0%Z -> validation_due a k = false.
Proof.
  intros H. unfold validation_due. rewrite H, Z.mod_0_r.
  destruct k; [reflexivity|]. simpl. reflexivity.
Qed.

(** Unfolds the loop body and splits on every test it makes. *)
Ltac body_cases a L k st :=
  unfold body, bind, set_train, next_batch, freq_regularizer,
    optimizer_step, log_metrics, validate_step, py_mod, read_alpha,
    set_alpha, set_eval, emit, set_iterator, ret, raise, bind;
  simpl;
  destruct (iterator st) as [|b0 rest0] eqn:Eit;
  [destruct (batches L (shuffles L (epochs st))) as [|b0 rest0] eqn:Ebt|];
  simpl;
  repeat match goal with
         | |- context [match ao a with _ => _ end] =>
             destruct (ao a) as [a0|] eqn:Eao; simpl
         | |- context [if (Z.of_nat k <? ?T)%Z then _ else _] =>
             destruct (Z.of_nat k <? T)%Z eqn:Ewin; simpl
         | |- context [match coefficient ?x ?T k with _ => _ end] =>
             destruct (coefficient x T k) as [v|ex] eqn:Ecoef; simpl
         | |- context [if debug a then _ else _] =>
             destruct (debug a) eqn:Edbg; simpl
         | |- context [if (val_rate a =? 0)%Z then _ else _] =>
             destruct (val_rate a =? 0)%Z eqn:Evr; simpl
         | |- context [(Z.of_nat k mod val_rate a =? 0)%Z] =>
             destruct (Z.of_nat k mod val_rate a =? 0)%Z eqn:Emod; simpl
         | |- context [0 <? k] =>
             destruct (0 <? k) eqn:Epos; simpl
         | |- context [no_val a] =>
             destruct (no_val a) eqn:Env; simpl
         | |- context [match alpha st with _ => _ end] =>
             destruct (alpha st) as [al|] eqn:Eal; simpl
         end.

(** What one iteration adds to the trace: at most one optimizer step,
    taken in training mode; a validation pass exactly when line 315 asks
    for one after a step, run in evaluation mode. *)
Lemma body_trace (a : args) (E : collaborators) (L : loader) (k : nat)
  (st : tstate) :
  exists evs,
    trace (fst (body a E L k st)) = trace st ++ evs /\
    Forall modes_ok evs /\
    validated evs = filter (validation_due a) (stepped evs) /\
    (stepped evs = [k] \/
     stepped evs = [] /\ snd (body a E L k st) <> Ok tt) /\
    (snd (body a E L k st) = Ok tt -> stepped evs = [k]).
Proof.
  destruct (Z.eq_dec (val_rate a) 0) as [Hz|Hnz].
  - pose proof (validation_due_zero_period a k Hz) as Hdue.
    body_cases a L k st;
      try (rewrite Z.eqb_neq in Evr; contradiction);
      repeat rewrite <- app_assoc; simpl;
      (first [ exists []; split; [symmetry; apply app_nil_r|]
             | eexists; split; [reflexivity|] ]); simpl; rewrite ?Hdue;
      repeat split; auto; try (right; split; [reflexivity|discriminate]);
      try discriminate; repeat constructor.
  - unfold validation_due. body_cases a L k st;
      try (rewrite Z.eqb_eq in Evr; contradiction);
      repeat rewrite <- app_assoc; simpl;
      (first [ exists []; split; [symmetry; apply app_nil_r|]
             | eexists; split; [reflexivity|] ]); simpl;
      rewrite ?Emod, ?Epos, ?Env; simpl;
      repeat split; auto; try (right; split; [reflexivity|discriminate]);
      try discriminate; repeat constructor.
Qed.

Ltac use_coefficient H :=
  match goal with
  | Ec : coefficient ?x ?T ?k = _, Ea : ao _ = Some ?x |- _ =>
      rewrite (@CoefficientFacts.coefficient_closed_form x T k) in Ec
        by (apply H; first [exact Ea | reflexivity]);
      first [discriminate Ec | injection Ec as <-]
  end.

(** The result of one iteration when no arithmetic raises and a batch
    can be drawn: [alpha] is rebound inside the window, and the only
    possible failure is reading [alpha] while it is unbound. *)
Lemma body_result (a : args) (E : collaborators) (L : loader) (k : nat)
  (st : tstate) :
  arithmetic_ok a -> can_draw L st ->
  alpha (fst (body a E L k st)) = alpha_after a k (alpha st) /\
  snd (body a E L k st) =
    (if reads_alpha a k
     then match alpha_after a k (alpha st) with
          | Some _ => Ok tt
          | None => Raise (UnboundLocalError "alpha"%string)
          end
     else Ok tt) /\
  logged (trace (fst (body a E L k st))) =
    logged (trace st) ++
    (if emits_metrics a k
     then match alpha_after a k (alpha st) with
          | Some v => [(k, v)]
          | None => []
          end
     else []) /\
  stepped (trace (fst (body a E L k st))) = stepped (trace st) ++ [k].
Proof.
  intros [Hvr Hao] Hdraw.
  unfold alpha_after, reads_alpha, emits_metrics, validation_due, logged,
    stepped.
  body_cases a L k st;
    try (rewrite Z.eqb_eq in Evr; contradiction);
    try (destruct Hdraw as [Hd|Hd]; congruence);
    try use_coefficient Hao;
    rewrite ?Eao, ?Ewin, ?Eal; simpl;
    rewrite ?flat_map_app; simpl; rewrite ?app_nil_r;
    repeat split; auto.
Qed.

(** A non-finite photometric loss stays non-finite through both
    regularizers. *)
Lemma occlusion_nonfinite (a : args) (E : collaborators) (k : nat)
  (b : list nat) :
  occlusion a E k b NonFinite = NonFinite.
Proof.
  unfold occlusion. destruct (beta a); [|reflexivity].
  destruct (0 <? n_sigmas E k b); reflexivity.
Qed.

(** The optimizer steps one iteration adds: none, or one on the loss of
    the batch just drawn, non-finite whenever the photometric loss is. *)
Lemma body_step_losses (a : args) (E : collaborators) (L : loader) (k : nat)
  (st : tstate) :
  step_losses (trace (fst (body a E L k st))) = step_losses (trace st) \/
  exists b l,
    step_losses (trace (fst (body a E L k st))) =
      step_losses (trace st) ++ [(k, b, l)] /\
    (mse_loss E k b = NonFinite -> l = NonFinite).
Proof.
  unfold step_losses.
  body_cases a L k st;
    rewrite ?flat_map_app; simpl; rewrite ?app_nil_r; auto;
    right; do 2 eexists; (split; [reflexivity|]);
    intros ->; rewrite occlusion_nonfinite; reflexivity.
Qed.

Lemma loop_cons (f : nat -> M unit) (k : nat) (ks : list nat) (st : tstate) :
  loop f (k :: ks) st =
  match f k st with
  | (st1, Ok _) => loop f ks st1
  | (st1, Raise e) => (st1, Raise e)
  end.
Proof. reflexivity. Qed.

(** The trace of a whole run, finished or not: optimizer steps at the
    first iterations in order, all in training mode; validation passes
    exactly at the stepped iterations line 315 selects, all in evaluation
    mode. *)
Lemma loop_trace (a : args) (E : collaborators) (L : loader)
  (ks : list nat) (st : tstate) :
  exists evs,
    trace (fst (loop (body a E L) ks st)) = trace st ++ evs /\
    Forall modes_ok evs /\
    validated evs = filter (validation_due a) (stepped evs) /\
    (exists m, m <= List.length ks /\ stepped evs = firstn m ks) /\
    (snd (loop (body a E L) ks st) = Ok tt -> stepped evs = ks).
Proof.
  revert st. induction ks as [|k ks IH]; intros st.
  - exists []. simpl. rewrite app_nil_r. repeat split; auto.
    exists 0. split; auto.
  - rewrite loop_cons.
    destruct (body_trace a E L k st) as [ev1 [Ht1 [Hm1 [Hv1 [Hs1 Hok1]]]]].
    destruct (body a E L k st) as [st1 [u|e]] eqn:Eb; simpl in *.
    + destruct u. specialize (Hok1 eq_refl).
      destruct (IH st1) as [ev2 [Ht2 [Hm2 [Hv2 [[m [Hm Hs2]] Hok2]]]]].
      exists (ev1 ++ ev2). rewrite Ht2, Ht1, app_assoc.
      unfold validated, stepped in *. rewrite !flat_map_app.
      rewrite filter_app, Hv1, Hv2, Hok1, Hs2.
      repeat split; auto.
      * apply Forall_app; auto.
      * exists (S m). split; [lia|reflexivity].
      * intros Hok. rewrite <- Hs2, (Hok2 Hok). reflexivity.
    + exists ev1. repeat split; auto; try discriminate.
      destruct Hs1 as [Hs1|[Hs1 _]]; rewrite Hs1.
      * exists 1. split; [lia|reflexivity].
      * exists 0. split; [lia|reflexivity].
Qed.

Lemma range_step_nonempty (stop step : nat) :
  0 < stop -> 0 < step -> range_step stop step <> [].
Proof.
  intros Hs Hp. unfold range_step.
  assert (H : 0 < (stop + step - 1) / step)
    by (apply Nat.div_str_pos; lia).
  destruct ((stop + step - 1) / step); [lia|]. simpl. discriminate.
Qed.

(** A loader over at least one sample always has a next batch. *)
Lemma can_draw_any (L : loader) (st : tstate) :
  loader_ok L -> 0 < n_samples L -> can_draw L st.
Proof.
  intros [Hb Hperm] Hn. right. unfold batches.
  pose proof (Permutation_length (Hperm (epochs st))) as Hlen.
  rewrite length_seq in Hlen. rewrite Hlen.
  pose proof (range_step_nonempty Hn Hb) as Hne.
  destruct (range_step (n_samples L) (batch_size L)); [congruence|].
  simpl. discriminate.
Qed.

Lemma alpha_after_some (a : args) (k : nat) (before : option Q) :
  before <> None -> alpha_after a k before <> None.
Proof.
  intros H. unfold alpha_after. destruct (ao a); [|assumption].
  destruct (Z.of_nat k <? window a)%Z; [discriminate|assumption].
Qed.

Lemma alpha_after_active (a : args) (before : option Q) :
  regularizer_active a -> alpha_after a 0 before <> None.
Proof.
  intros [a0 [Hao Hw]]. unfold alpha_after. rewrite Hao.
  destruct (Z.of_nat 0 <? window a)%Z eqn:E; [discriminate|].
  apply Z.ltb_ge in E. simpl in E. lia.
Qed.

Lemma alpha_after_inactive (a : args) (k : nat) :
  ~ regularizer_active a -> alpha_after a k None = None.
Proof.
  intros H. unfold alpha_after. destruct (ao a) as [a0|] eqn:Hao; [|reflexivity].
  destruct (Z.of_nat k <? window a)%Z eqn:E; [|reflexivity].
  exfalso. apply H. exists a0. split; [assumption|].
  apply Z.ltb_lt in E. lia.
Qed.

(** Under [ready] every iteration completes, and the plain metrics are
    emitted at exactly the iterations line 307 selects. *)
Lemma loop_completes (a : args) (E : collaborators) (L : loader) :
  arithmetic_ok a -> (forall st, can_draw L st) ->
  forall n s st, ready a s st ->
    snd (loop (body a E L) (seq s n) st) = Ok tt /\
    map fst (logged (trace (fst (loop (body a E L) (seq s n) st)))) =
      map fst (logged (trace st)) ++ filter (emits_metrics a) (seq s n).
Proof.
  intros Har Hdraw. induction n as [|n IH]; intros s st Hready.
  - simpl. rewrite app_nil_r. auto.
  - simpl seq. rewrite loop_cons.
    destruct (body_result E s Har (Hdraw st)) as [Hal [Hres [Hlog _]]].
    assert (Hnext : debug a = true \/ alpha_after a s (alpha st) <> None).
    { destruct Hready as [Hd|[Hs|[-> Hact]]]; auto.
      - right. apply alpha_after_some. assumption.
      - right. apply alpha_after_active. assumption. }
    destruct (body a E L s st) as [st1 r] eqn:Eb. simpl in *.
    assert (Hr : r = Ok tt).
    { rewrite Hres. destruct Hnext as [Hd|Hs].
      - unfold reads_alpha. rewrite Hd. reflexivity.
      - destruct (reads_alpha a s); [|reflexivity].
        destruct (alpha_after a s (alpha st)); [reflexivity|congruence]. }
    rewrite Hr.
    assert (Hready1 : ready a (S s) st1).
    { destruct Hnext as [Hd|Hs]; [left; assumption|].
      right. left. rewrite Hal. assumption. }
    destruct (IH (S s) st1 Hready1) as [Hok Hl].
    split; [assumption|]. rewrite Hl, Hlog, map_app, <- app_assoc.
    f_equal. simpl filter.
    destruct (emits_metrics a s) eqn:Eem; [|reflexivity].
    destruct (alpha_after a s (alpha st)) eqn:Eaa; [reflexivity|].
    destruct Hnext as [Hd|Hs]; [|congruence].
    unfold emits_metrics in Eem. rewrite Hd in Eem. discriminate.
Qed.

(** Without an active regularizer [alpha] is never bound: no metrics
    emission succeeds, and the run fails at the first iteration that
    reads [alpha]. *)
Lemma loop_unbound (a : args) (E : collaborators) (L : loader) :
  arithmetic_ok a -> (forall st, can_draw L st) ->
  ~ regularizer_active a ->
  forall ks st, alpha st = None ->
    snd (loop (body a E L) ks st) =
      (if existsb (reads_alpha a) ks
       then Raise (UnboundLocalError "alpha"%string) else Ok tt) /\
    logged (trace (fst (loop (body a E L) ks st))) = logged (trace st).
Proof.
  intros Har Hdraw Hin. induction ks as [|k ks IH]; intros st Hst.
  - simpl. auto.
  - rewrite loop_cons.
    destruct (body_result E k Har (Hdraw st)) as [Hal [Hres [Hlog _]]].
    rewrite Hst, (alpha_after_inactive k Hin) in *.
    destruct (body a E L k st) as [st1 r] eqn:Eb. simpl in *.
    assert (Hl1 : logged (trace st1) = logged (trace st)).
    { rewrite Hlog. destruct (emits_metrics a k); apply app_nil_r. }
    destruct (reads_alpha a k); subst r; simpl.
    + auto.
    + destruct (IH st1 Hal) as [Hr Hl]. rewrite Hr, Hl. auto.
Qed.

Lemma validation_due_spec (a : args) (k : nat) :
  (0 < val_rate a)%Z ->
  validation_due a k = true <->
  positive_multiple k (val_rate a) /\ no_val a = false.
Proof.
  intros Hv. unfold validation_due, positive_multiple.
  rewrite !andb_true_iff, Z.eqb_eq, Nat.ltb_lt, negb_true_iff.
  split.
  - intros [[Hmod Hk] Hnv]. split; [|assumption].
    apply Z.mod_divide in Hmod; [|lia]. destruct Hmod as [q Hq].
    exists q. split; [nia|assumption].
  - intros [[q [Hq Hk]] Hnv]. repeat split; [| |assumption].
    + rewrite Hk. apply Z.mod_mul. lia.
    + nia.
Qed.

Lemma firstn_seq_le (m n s : nat) : m <= n -> firstn m (seq s n) = seq s m.
Proof.
  revert n s. induction m as [|m IH]; intros n s H; [reflexivity|].
  destruct n as [|n]; [lia|]. simpl. f_equal. apply IH. lia.
Qed.

Lemma firstn_seq0 (m n : nat) : m <= n -> firstn m (seq 0 n) = seq 0 m.
Proof. apply firstn_seq_le. Qed.

Lemma in_seq0 (k n : nat) : In k (seq 0 n) <-> k < n.
Proof. rewrite in_seq. lia. Qed.

(** C8: in every run of the loop a validation pass is executed at
    iteration [k] exactly when iteration [k] made its optimizer step, [k]
    is a positive multiple of the validation period and validation is not
    disabled; every optimizer step happens with model and accelerator in
    training mode and every validation pass with both in evaluation mode;
    the iterations run in order from 0, a run that returns has made all
    [n_iters] of them, and the run does return when a batch can be drawn
    and no arithmetic or variable read of the loop raises. *)
Theorem validation_schedule (a : args) (E : collaborators) (L : loader) :
  (0 < val_rate a)%Z ->
  let run := train a E L in
  let tr := trace (fst run) in
  (forall k, In k (validated tr) <->
             In k (stepped tr) /\
             positive_multiple k (val_rate a) /\ no_val a = false) /\
  Forall modes_ok tr /\
  (exists m, m <= n_iters a /\ stepped tr = seq 0 m) /\
  (snd run = Ok tt -> stepped tr = seq 0 (n_iters a)) /\
  (loader_ok L -> 0 < n_samples L -> arithmetic_ok a ->
   debug a = true \/ regularizer_active a ->
   snd run = Ok tt).
Proof.
  intros Hv run tr. subst run tr. unfold train.
  destruct (loop_trace a E L (seq 0 (n_iters a)) (initial L))
    as [evs [Ht [Hm [Hval [[m [Hmle Hst]] Hok]]]]].
  simpl in Ht. rewrite Ht. rewrite length_seq in Hmle.
  split; [|split; [|split; [|split]]].
  - intros k. rewrite Hval, filter_In, (validation_due_spec a k Hv).
    tauto.
  - assumption.
  - exists m. split; [assumption|]. rewrite Hst. apply firstn_seq0.
    assumption.
  - assumption.
  - intros HL Hn Har Hrd.
    apply (loop_completes E Har (fun st => can_draw_any st HL Hn)).
    destruct Hrd as [Hd|Hact]; [left; assumption|].
    right. right. auto.
Qed.

Lemma loader3_ok : loader_ok Examples.loader3 /\ 0 < n_samples Examples.loader3.
Proof.
  split; [split|]; simpl; try lia.
  intros e. destruct (Nat.even e).
  - apply (Permutation_cons_app [0; 1] [] 2). apply Permutation_refl.
  - apply (Permutation_cons_app [0] [2] 1). apply perm_swap.
Qed.

Lemma quiet_args_ok : arithmetic_ok Examples.quiet_args.
Proof.
  split; simpl; [discriminate|]. intros a0 H. discriminate.
Qed.

(** A run of the theorem: four iterations, validation every second
    one. *)
Lemma validation_schedule_witness :
  (0 < val_rate Examples.quiet_args)%Z /\
  snd (train Examples.quiet_args Examples.unit_loss Examples.loader3) = Ok tt /\
  (In 2 (validated (trace (fst (train Examples.quiet_args Examples.unit_loss
                                      Examples.loader3)))) <->
   In 2 (stepped (trace (fst (train Examples.quiet_args Examples.unit_loss
                                    Examples.loader3)))) /\
   positive_multiple 2 (val_rate Examples.quiet_args) /\
   no_val Examples.quiet_args = false).
Proof.
  assert (Hv : (0 < val_rate Examples.quiet_args)%Z) by reflexivity.
  destruct (@validation_schedule Examples.quiet_args Examples.unit_loss
              Examples.loader3 Hv) as [Hiff [_ [_ [_ Hret]]]].
  split; [exact Hv|]. split; [|apply Hiff].
  apply Hret.
  - apply loader3_ok.
  - simpl. lia.
  - apply quiet_args_ok.
  - left. reflexivity.
Defined.

(** The optimizer steps of a run: each on a loss that is non-finite
    whenever the photometric loss of its batch is. *)
Lemma loop_step_losses (a : args) (E : collaborators) (L : loader)
  (ks : list nat) (st : tstate) (k : nat) (b : list nat) (l : float) :
  In (k, b, l) (step_losses (trace (fst (loop (body a E L) ks st)))) ->
  In (k, b, l) (step_losses (trace st)) \/
  (mse_loss E k b = NonFinite -> l = NonFinite).
Proof.
  revert st. induction ks as [|k0 ks IH]; intros st Hin.
  - left. exact Hin.
  - rewrite loop_cons in Hin.
    pose proof (body_step_losses a E L k0 st) as Hb.
    destruct (body a E L k0 st) as [st1 [u|e]] eqn:Eb; simpl in *.
    + apply IH in Hin. destruct Hin as [Hin|Hin]; [|right; assumption].
      destruct Hb as [Hb|[b1 [l1 [Hb Hnf]]]]; rewrite Hb in Hin.
      * left. assumption.
      * apply in_app_or in Hin. destruct Hin as [Hin|[Heq|[]]].
        -- left. assumption.
        -- injection Heq as <- <- <-. right. assumption.
    + destruct Hb as [Hb|[b1 [l1 [Hb Hnf]]]]; rewrite Hb in Hin.
      * left. assumption.
      * apply in_app_or in Hin. destruct Hin as [Hin|[Heq|[]]].
        -- left. assumption.
        -- injection Heq as <- <- <-. right. assumption.
Qed.

(** C4, as amended: the training loop makes no finiteness check.
    Whenever a batch can be drawn and no arithmetic or variable read of
    the loop raises, [train] returns normally whatever the losses; every
    iteration from 0 to [n_iters - 1] takes its optimizer step, and the
    step of an iteration whose photometric loss is non-finite is taken on
    that non-finite loss. *)
Theorem nonfinite_loss_not_checked (a : args) (E : collaborators)
  (L : loader) :
  loader_ok L -> 0 < n_samples L -> arithmetic_ok a ->
  debug a = true \/ regularizer_active a ->
  let run := train a E L in
  snd run = Ok tt /\
  stepped (trace (fst run)) = seq 0 (n_iters a) /\
  forall k b l, In (k, b, l) (step_losses (trace (fst run))) ->
    mse_loss E k b = NonFinite -> l = NonFinite.
Proof.
  intros HL Hn Har Hrd run. subst run.
  assert (Hok : snd (train a E L) = Ok tt).
  { apply (loop_completes E Har (fun st => can_draw_any st HL Hn)).
    destruct Hrd as [Hd|Hact]; [left; assumption|].
    right. right. auto. }
  split; [assumption|]. split.
  - destruct (loop_trace a E L (seq 0 (n_iters a)) (initial L))
      as [evs [Ht [_ [_ [_ Hall]]]]].
    unfold train. rewrite Ht. simpl. apply Hall. exact Hok.
  - intros k b l Hin. unfold train in Hin.
    apply loop_step_losses in Hin. destruct Hin as [[]|Hin]. exact Hin.
Qed.

(** A run of the theorem on the renderer whose loss is non-finite at
    iteration 0. *)
Lemma nonfinite_loss_not_checked_witness :
  snd (train Examples.quiet_args Examples.diverging_loss Examples.loader3)
    = Ok tt /\
  stepped (trace (fst (train Examples.quiet_args Examples.diverging_loss
                             Examples.loader3))) = [0; 1; 2; 3].
Proof.
  destruct (@nonfinite_loss_not_checked Examples.quiet_args
              Examples.diverging_loss Examples.loader3) as [Hok [Hst _]].
  - apply loader3_ok.
  - simpl. lia.
  - apply quiet_args_ok.
  - left. reflexivity.
  - split; [exact Hok|exact Hst].
Defined.

(** C4 as stated fails: the photometric loss of iteration 0 is
    non-finite, the optimizer steps on it, iterations 1, 2 and 3 follow
    with their own optimizer steps, and [train] returns normally. *)
Lemma nonfinite_loss_counterexample :
  mse_loss Examples.diverging_loss 0 [2] = NonFinite /\
  snd (train Examples.quiet_args Examples.diverging_loss Examples.loader3)
    = Ok tt /\
  step_losses (trace (fst (train Examples.quiet_args Examples.diverging_loss
                                 Examples.loader3))) =
    [(0, [2], NonFinite); (1, [0], Finite 1); (2, [1], Finite 1);
     (3, [1], Finite 1)].
Proof.
  repeat split; reflexivity.
Qed.

Lemma emits_reads (a : args) (k : nat) :
  emits_metrics a k = true -> reads_alpha a k = true.
Proof.
  unfold emits_metrics, reads_alpha.
  destruct (debug a); simpl; [discriminate|].
  intros ->. reflexivity.
Qed.

(** C10: with logging enabled, the metrics emission of a non-validation
    iteration reads [alpha], which only the regularizer block binds.
    When the frequency regularizer is configured with a non-empty window
    the run returns normally and emits the metrics at every iteration
    whose index is not a multiple of the validation period.  Without it
    no emission ever succeeds: the run raises [UnboundLocalError] for
    [alpha] as soon as an iteration reads it, in particular whenever the
    run contains an iteration that should emit. *)
Theorem alpha_read_requires_regularizer (a : args) (E : collaborators)
  (L : loader) :
  loader_ok L -> 0 < n_samples L -> arithmetic_ok a -> debug a = false ->
  let run := train a E L in
  (regularizer_active a ->
   snd run = Ok tt /\
   map fst (logged (trace (fst run))) =
     filter (emits_metrics a) (seq 0 (n_iters a))) /\
  (~ regularizer_active a ->
   logged (trace (fst run)) = [] /\
   snd run =
     (if existsb (reads_alpha a) (seq 0 (n_iters a))
      then Raise (UnboundLocalError "alpha"%string) else Ok tt) /\
   forall k, k < n_iters a -> emits_metrics a k = true ->
     snd run = Raise (UnboundLocalError "alpha"%string)).
Proof.
  intros HL Hn Har Hdbg run. subst run. unfold train.
  pose proof (fun st => can_draw_any st HL Hn) as Hdraw.
  split.
  - intros Hact.
    apply (loop_completes E Har Hdraw (n_iters a)).
    right. right. auto.
  - intros Hin.
    destruct (loop_unbound E Har Hdraw Hin (seq 0 (n_iters a))
                (initial L) eq_refl) as [Hres Hlog].
    split; [exact Hlog|]. split; [exact Hres|].
    intros k Hk Hem. rewrite Hres.
    assert (Hex : existsb (reads_alpha a) (seq 0 (n_iters a)) = true).
    { apply existsb_exists. exists k. split.
      - apply in_seq0. assumption.
      - apply emits_reads. assumption. }
    rewrite Hex. reflexivity.
Qed.

Lemma logging_args_ok : arithmetic_ok Examples.logging_args.
Proof.
  split; simpl; [discriminate|]. intros a0 H. discriminate.
Qed.

Lemma logging_args_inactive : ~ regularizer_active Examples.logging_args.
Proof. intros [a0 [H _]]. discriminate. Qed.

(** A run of the theorem with logging on and no regularizer: iteration 1
    is the first to emit and the run fails there. *)
Lemma alpha_read_requires_regularizer_witness :
  debug Examples.logging_args = false /\
  emits_metrics Examples.logging_args 1 = true /\
  snd (train Examples.logging_args Examples.unit_loss Examples.loader3) =
    Raise (UnboundLocalError "alpha"%string).
Proof.
  destruct (@alpha_read_requires_regularizer Examples.logging_args
              Examples.unit_loss Examples.loader3) as [_ Hun].
  - apply loader3_ok.
  - simpl. lia.
  - apply logging_args_ok.
  - reflexivity.
  - destruct (Hun logging_args_inactive) as [_ [_ Hfail]].
    split; [reflexivity|]. split; [reflexivity|].
    apply (Hfail 1); [simpl; lia|reflexivity].
Defined.

(** C2, as amended: the active window is half-open, [0 <= k < Ts] with
    [Ts = int(reg_ratio * Td)], the float product truncated to an
    integer.  For a floor [0 < a0 < 1], at every
    iteration [k < Ts] the regularizer block binds [alpha] to the closed
    form [(a0 / (1 - a0)) * (1 - min(1, a0 + (1 - a0) * (k / Ts)))] and
    adds [alpha * freq_reg] to the loss; at every iteration [k >= Ts] it
    leaves [alpha] and the loss untouched.  Over the window [alpha]
    starts at [a0], its maximum, is non-increasing in [k], stays strictly
    positive and ends at [a0 / Ts] for [k = Ts - 1]; the closed form
    itself would be [0] at [k = Ts]. *)
Theorem coefficient_in_window (a : args) (E : collaborators) (a0 : Q) :
  ao a = Some a0 -> (0 < a0)%Q -> (a0 < 1)%Q ->
  let Ts := window a in
  (forall k loss st, (Z.of_nat k < Ts)%Z ->
     alpha (fst (freq_regularizer a E k loss st)) =
       Some (closed_form a0 Ts k) /\
     snd (freq_regularizer a E k loss st) =
       Ok (fadd loss (fscale (closed_form a0 Ts k)
                             (weight_penalty a (named_parameters E k))))) /\
  (forall k loss st, (Ts <= Z.of_nat k)%Z ->
     freq_regularizer a E k loss st = (st, Ok loss)) /\
  ((0 < Ts)%Z -> (closed_form a0 Ts 0 == a0)%Q) /\
  (forall k, (Z.of_nat k < Ts)%Z ->
     (0 < closed_form a0 Ts k)%Q /\ (closed_form a0 Ts k <= a0)%Q) /\
  (forall k1 k2, k1 <= k2 -> (Z.of_nat k2 < Ts)%Z ->
     (closed_form a0 Ts k2 <= closed_form a0 Ts k1)%Q) /\
  (forall k, Z.of_nat k = (Ts - 1)%Z ->
     (closed_form a0 Ts k == a0 / inject_Z Ts)%Q) /\
  (forall k, (0 < Ts)%Z -> Z.of_nat k = Ts ->
     (closed_form a0 Ts k == 0)%Q).
Proof.
  intros Hao H0 H1 Ts.
  assert (Hne : ~ (1 - a0 == 0)%Q) by lra.
  split; [|split; [|split; [|split; [|split; [|split]]]]].
  - intros k loss st Hk. unfold freq_regularizer. rewrite Hao.
    fold Ts. apply Z.ltb_lt in Hk. rewrite Hk.
    rewrite (CoefficientFacts.coefficient_closed_form Ts k Hne).
    split; reflexivity.
  - intros k loss st Hk. unfold freq_regularizer. rewrite Hao.
    fold Ts. apply Z.ltb_ge in Hk. rewrite Hk. reflexivity.
  - intros HTs. apply CoefficientFacts.closed_form_start; assumption.
  - intros k Hk. split.
    + apply CoefficientFacts.closed_form_pos; assumption.
    + assert (HTs : (0 < Ts)%Z) by lia.
      rewrite <- (CoefficientFacts.closed_form_start H0 H1 HTs) at 2.
      apply CoefficientFacts.closed_form_mono; auto. lia.
  - intros k1 k2 Hle Hk. apply CoefficientFacts.closed_form_mono; auto. lia.
  - intros k Hk. apply CoefficientFacts.closed_form_last; auto. lia.
  - intros k HTs Hk. apply CoefficientFacts.closed_form_end; auto.
Qed.

(** A run of the theorem: floor 1/2 and window 2. *)
Lemma coefficient_in_window_witness :
  ao Examples.regularized_args = Some (1 # 2)%Q /\
  (0 < 1 # 2)%Q /\ (1 # 2 < 1)%Q /\
  (closed_form (1 # 2) (window Examples.regularized_args) 0 == 1 # 2)%Q /\
  (closed_form (1 # 2) (window Examples.regularized_args) 1 <=
   closed_form (1 # 2) (window Examples.regularized_args) 0)%Q.
Proof.
  assert (Hao : ao Examples.regularized_args = Some (1 # 2)%Q)
    by reflexivity.
  assert (H0 : (0 < 1 # 2)%Q) by reflexivity.
  assert (H1 : (1 # 2 < 1)%Q) by reflexivity.
  destruct (@coefficient_in_window Examples.regularized_args
              Examples.unit_loss (1 # 2)%Q Hao H0 H1)
    as [_ [_ [Hstart [_ [Hmono _]]]]].
  split; [exact Hao|]. split; [exact H0|]. split; [exact H1|]. split.
  - apply Hstart. reflexivity.
  - apply (Hmono 0 1); [lia|reflexivity].
Defined.

(** The product of line 275 is a binary64 product: [0.29 * 100] is
    [28.999999999999996] and truncates to 28, [0.7 * 10] rounds to
    [7.0], and [0.1 * 3] is [0.30000000000000004]. *)
Lemma window_binary64 :
  window (Examples.ratio_args (29 # 100) 100) = 28%Z /\
  window (Examples.ratio_args (7 # 10) 10) = 7%Z /\
  window (Examples.ratio_args (57 # 100) 100) = 56%Z /\
  window (Examples.ratio_args (1 # 4) 10) = 2%Z /\
  (round64 (1 # 10) == 3602879701896397 # 36028797018963968)%Q /\
  (fmul64 (round64 (1 # 10)) 3 ==
   5404319552844596 # 18014398509481984)%Q.
Proof.
  repeat split; vm_compute; reflexivity.
Qed.

(** C2 as stated fails in two places.  The window length is the
    truncated product: with ratio 0.25 and [Td = 10] the product is 2.5
    and [Ts = 2], so at [k = 1], inside the claimed window, the
    coefficient the code computes is 1/4 where the claimed closed form
    with window length 2.5 gives 3/10.  And the window is half-open: with
    ratio 0.5 and [Td = 4] the product is exactly 2, the block is skipped
    at iteration 2, and the coefficient the loop holds and reports at
    [k = window_length] is the 1/4 of iteration 1, not 0. *)
Lemma coefficient_window_counterexample :
  ((claimed_window (Examples.ratio_args (1 # 4) 10) == 5 # 2)%Q /\
   window (Examples.ratio_args (1 # 4) 10) = 2%Z /\
   exists v,
     alpha (fst (freq_regularizer (Examples.ratio_args (1 # 4) 10)
                   Examples.unit_loss 1 (Finite 1)
                   (initial Examples.loader3))) = Some v /\
     (v == 1 # 4)%Q /\
     (claimed_alpha (1 # 2)
        (claimed_window (Examples.ratio_args (1 # 4) 10)) 1 == 3 # 10)%Q /\
     ~ (v == claimed_alpha (1 # 2)
               (claimed_window (Examples.ratio_args (1 # 4) 10)) 1)%Q) /\
  ((claimed_window Examples.regularized_args == 2)%Q /\
   window Examples.regularized_args = 2%Z /\
   (claimed_alpha (1 # 2) (claimed_window Examples.regularized_args) 2
    == 0)%Q /\
   exists v,
     logged (trace (fst (train Examples.regularized_args Examples.unit_loss
                               Examples.loader3))) = [(1, v); (2, v)] /\
     alpha (fst (train Examples.regularized_args Examples.unit_loss
                       Examples.loader3)) = Some v /\
     (v == 1 # 4)%Q /\ ~ (v == 0)%Q).
Proof.
  split.
  - split; [reflexivity|]. split; [vm_compute; reflexivity|].
    eexists. split; [vm_compute; reflexivity|].
    split; [reflexivity|]. split; [reflexivity|].
    intros H. discriminate H.
  - split; [reflexivity|]. split; [vm_compute; reflexivity|].
    split; [reflexivity|].
    eexists. split; [vm_compute; reflexivity|].
    split; [vm_compute; reflexivity|]. split; [reflexivity|].
    intros H. discriminate H.
Qed.

End TrainFacts.

(** ** Batch source *)

Module BatchFacts.
Import Py PyFacts Train TrainFacts.

Lemma next_batch_ok (L : loader) (st : tstate) :
  can_draw L st -> exists b, snd (next_batch L st) = Ok b.
Proof.
  intros Hd. unfold next_batch.
  destruct (iterator st) as [|b rest] eqn:Eit; [|simpl; eauto].
  destruct (batches L (shuffles L (epochs st))) as [|b rest] eqn:Ebt;
    [|simpl; eauto].
  destruct Hd; congruence.
Qed.

Lemma draw_succ (L : loader) (m : nat) (st : tstate) :
  draw L (S m) st =
  match next_batch L st with
  | (st1, Ok b) =>
      match draw L m st1 with
      | (st2, Ok bs) => (st2, Ok (b :: bs))
      | (st2, Raise e) => (st2, Raise e)
      end
  | (st1, Raise e) => (st1, Raise e)
  end.
Proof.
  simpl. unfold bind. destruct (next_batch L st) as [st1 [b|e]]; reflexivity.
Qed.

(** Any number of draws succeeds. *)
Lemma draw_total (L : loader) :
  (forall st, can_draw L st) ->
  forall m st, exists bs,
    snd (draw L m st) = Ok bs /\ List.length bs = m.
Proof.
  intros Hd. induction m as [|m IH]; intros st.
  - exists []. auto.
  - rewrite draw_succ. destruct (next_batch_ok (Hd st)) as [b Hb].
    destruct (next_batch L st) as [st1 r]. simpl in Hb. subst r.
    destruct (IH st1) as [bs [Hbs Hl]].
    destruct (draw L m st1) as [st2 r]. simpl in Hbs. subst r.
    exists (b :: bs). simpl. auto.
Qed.

(** Drawing what is pending consumes it in order. *)
Lemma draw_pending (L : loader) (it rest : list (list nat)) (st : tstate) :
  iterator st = it ++ rest ->
  draw L (List.length it) st = (set_iterator rest (epochs st) st, Ok it).
Proof.
  revert st. induction it as [|b it IH]; intros st Hit.
  - destruct st. simpl in *. subst. reflexivity.
  - simpl List.length. rewrite draw_succ. unfold next_batch at 1.
    rewrite Hit. cbn [app]. cbv iota beta.
    rewrite (IH (set_iterator (it ++ rest) (epochs st) st)) by reflexivity.
    reflexivity.
Qed.

(** On an exhausted iterator the first draw reshuffles; the draws of the
    new epoch then follow. *)
Lemma draw_fresh (L : loader) (st : tstate) :
  iterator st = [] ->
  batches L (shuffles L (epochs st)) <> [] ->
  draw L (List.length (batches L (shuffles L (epochs st)))) st =
  (set_iterator [] (S (epochs st)) st, Ok (batches L (shuffles L (epochs st)))).
Proof.
  intros Hit Hne.
  destruct (batches L (shuffles L (epochs st))) as [|b rest] eqn:Ebt;
    [congruence|].
  simpl List.length. rewrite draw_succ. unfold next_batch at 1.
  rewrite Hit, Ebt. cbv iota beta.
  rewrite (@draw_pending L rest [] (set_iterator rest (S (epochs st)) st))
    by (simpl; rewrite app_nil_r; reflexivity).
  reflexivity.
Qed.

Lemma draw_add (L : loader) (m1 m2 : nat) (st st1 st2 : tstate)
  (bs1 bs2 : list (list nat)) :
  draw L m1 st = (st1, Ok bs1) ->
  draw L m2 st1 = (st2, Ok bs2) ->
  draw L (m1 + m2) st = (st2, Ok (bs1 ++ bs2)).
Proof.
  revert st bs1. induction m1 as [|m1 IH]; intros st bs1 H1 H2.
  - simpl in H1. injection H1 as <- <-. exact H2.
  - simpl Nat.add. rewrite draw_succ in *.
    destruct (next_batch L st) as [sta [b|e]]; [|discriminate].
    destruct (draw L m1 sta) as [stb [bs|e]] eqn:Ed; [|discriminate].
    injection H1 as <- <-.
    rewrite (IH sta bs Ed H2). reflexivity.
Qed.

(** With batches of one sample, an epoch is the shuffled order itself. *)
Lemma batches_singletons (L : loader) (order : list nat) :
  batch_size L = 1 -> batches L order = map (fun x => [x]) order.
Proof.
  intros Hb. unfold batches, range_step. rewrite Hb.
  replace (List.length order + 1 - 1) with (List.length order) by lia.
  rewrite Nat.div_1_r, map_map.
  assert (Hrows : Forall (fun p : list nat => List.length p = 1)
                    (map (fun x => [x]) order))
    by (apply Forall_forall; intros p Hp; apply in_map_iff in Hp;
        destruct Hp as [x [<- _]]; reflexivity).
  pose proof (slice_rows Hrows) as H.
  rewrite length_map in H.
  assert (Hc : concat (map (fun x : nat => [x]) order) = order)
    by (clear; induction order; simpl; congruence).
  rewrite Hc in H. rewrite <- H.
  apply map_ext. intros r. f_equal; lia.
Qed.

Lemma concat_singletons (l : list nat) :
  concat (map (fun x => [x]) l) = l.
Proof. induction l; simpl; congruence. Qed.

Lemma count_occ_shuffle (l : list nat) (n s : nat) :
  Permutation l (seq 0 n) -> s < n -> count_occ Nat.eq_dec l s = 1.
Proof.
  intros Hp Hs.
  rewrite (Permutation_count_occ Nat.eq_dec) in Hp. rewrite Hp.
  apply NoDup_count_occ'; [apply seq_NoDup|apply in_seq0; assumption].
Qed.

(** The loop body never lets [StopIteration] escape while a batch can
    be drawn. *)
Lemma body_no_stop (a : args) (E : collaborators) (L : loader) (k : nat)
  (st : tstate) :
  can_draw L st -> snd (body a E L k st) <> Raise StopIteration.
Proof.
  intros Hd. body_cases a L k st;
    try discriminate; try (destruct Hd; congruence);
    unfold coefficient in Ecoef;
    (destruct (Qeq_bool (1 - a0) 0); [|discriminate]);
    injection Ecoef as <-; discriminate.
Qed.

Lemma loop_no_stop (a : args) (E : collaborators) (L : loader) :
  (forall st, can_draw L st) ->
  forall ks st, snd (loop (body a E L) ks st) <> Raise StopIteration.
Proof.
  intros Hd. induction ks as [|k ks IH]; intros st; [discriminate|].
  rewrite loop_cons. pose proof (body_no_stop a E k (Hd st)) as Hb.
  destruct (body a E L k st) as [st1 [u|e]]; [apply IH|exact Hb].
Qed.

(** C5: over a dataset of at least one sample, drawing batches from the
    batch source of the training loop never raises an exhaustion error,
    whatever the number of draws and from whatever state: an exhausted
    iterator is replaced by a freshly shuffled one and the draw goes on;
    [train] itself never ends in [StopIteration].  With batches of size
    1, the [2 * len(dataset)] first draws are exactly the first two
    shuffled orders, so every sample is visited twice. *)
Theorem epoch_wraparound (L : loader) :
  loader_ok L -> 0 < n_samples L ->
  (forall m st, exists bs,
     snd (draw L m st) = Ok bs /\ List.length bs = m) /\
  (forall a E, snd (train a E L) <> Raise StopIteration) /\
  (batch_size L = 1 ->
   snd (draw L (2 * n_samples L) (initial L)) =
     Ok (map (fun x => [x]) (shuffles L 0 ++ shuffles L 1)) /\
   forall s, s < n_samples L ->
     count_occ Nat.eq_dec (shuffles L 0 ++ shuffles L 1) s = 2).
Proof.
  intros HL Hn.
  pose proof (fun st => can_draw_any st HL Hn) as Hd.
  split; [apply draw_total; assumption|].
  split; [intros a E; apply loop_no_stop; assumption|].
  intros Hb. destruct HL as [Hbs Hperm]. split.
  - assert (Hlen : forall e, List.length (batches L (shuffles L e)) =
                             n_samples L).
    { intros e. rewrite (@batches_singletons L _ Hb), length_map.
      rewrite (Permutation_length (Hperm e)). apply length_seq. }
    pose proof (@draw_pending L (batches L (shuffles L 0)) [] (initial L))
      as H0.
    rewrite Hlen in H0. specialize (H0 (eq_sym (app_nil_r _))).
    set (st1 := set_iterator [] (epochs (initial L)) (initial L)) in *.
    pose proof (@draw_fresh L st1 eq_refl) as H1.
    change (epochs st1) with 1 in H1. rewrite Hlen in H1.
    assert (Hne : batches L (shuffles L 1) <> []).
    { intros Hnil. specialize (Hlen 1). rewrite Hnil in Hlen.
      simpl in Hlen. lia. }
    specialize (H1 Hne).
    replace (2 * n_samples L) with (n_samples L + n_samples L) by lia.
    rewrite (@draw_add L _ _ _ _ _ _ _ H0 H1). simpl.
    rewrite !(@batches_singletons L _ Hb), map_app. reflexivity.
  - intros s Hs. rewrite count_occ_app.
    rewrite (count_occ_shuffle (Hperm 0) Hs).
    rewrite (count_occ_shuffle (Hperm 1) Hs). reflexivity.
Qed.

(** A run of the theorem: three samples, six draws. *)
Lemma epoch_wraparound_witness :
  snd (draw Examples.loader3 6 (initial Examples.loader3)) =
    Ok [[2]; [0]; [1]; [1]; [2]; [0]] /\
  count_occ Nat.eq_dec ([2; 0; 1] ++ [1; 2; 0]) 0 = 2.
Proof.
  destruct (@epoch_wraparound Examples.loader3) as [_ [_ Htwice]].
  - apply loader3_ok.
  - simpl. lia.
  - destruct (Htwice eq_refl) as [Hdraw Hcount]. split.
    + exact Hdraw.
    + apply (Hcount 0). simpl. lia.
Defined.

End BatchFacts.

(** ** Ray Builder and Ray Dataset *)

Module DatasetFacts.
Import Py PyFacts Dataset.

Lemma nth_error_combine {A B : Type} (l1 : list A) (l2 : list B) (n : nat) :
  nth_error (combine l1 l2) n =
  match nth_error l1 n, nth_error l2 n with
  | Some a, Some b => Some (a, b)
  | _, _ => None
  end.
Proof.
  revert l2 n. induction l1 as [|a l1 IH]; intros [|b l2] [|n]; simpl; auto.
  destruct (nth_error l1 n); reflexivity.
Qed.

(** Entry [i * c + j] of the concatenation of rows of width [c] is entry
    [j] of row [i]. *)
Lemma nth_error_concat_rows {A : Type} (c : nat) (ps : list (list A))
  (i j : nat) :
  Forall (fun p => List.length p = c) ps -> j < c ->
  nth_error (concat ps) (i * c + j) =
  match nth_error ps i with
  | Some p => nth_error p j
  | None => None
  end.
Proof.
  intros Hps Hj. revert i.
  induction Hps as [|p t Hp Ht IH]; intros i.
  - destruct i; simpl; apply nth_error_None; simpl; lia.
  - destruct i as [|i]; simpl.
    + apply nth_error_app1. lia.
    + rewrite nth_error_app2 by lia.
      replace (c + i * c + j - List.length p) with (i * c + j) by lia.
      apply IH.
Qed.

(** The rows and the pixels of a batch of grids. *)
Lemma shaped_rows (n h w c : nat) (t : list image) :
  shaped n h w c t ->
  List.length (concat t) = n * h /\
  Forall (fun row => List.length row = w /\
                     Forall (fun px => List.length px = c) row) (concat t).
Proof.
  intros [Hn Hg]. split.
  - rewrite <- Hn. apply concat_length_rows.
    eapply Forall_impl; [|exact Hg]. intros g [H _]. exact H.
  - apply Forall_concat. eapply Forall_impl; [|exact Hg].
    intros g [_ H]. exact H.
Qed.

Lemma shaped_pixels (n h w c : nat) (t : list image) :
  shaped n h w c t ->
  List.length (concat (concat t)) = n * h * w /\
  Forall (fun px => List.length px = c) (concat (concat t)).
Proof.
  intros Hs. destruct (shaped_rows Hs) as [Hl Hr]. split.
  - rewrite <- Hl. apply concat_length_rows.
    eapply Forall_impl; [|exact Hr]. intros r [H _]. exact H.
  - apply Forall_concat. eapply Forall_impl; [|exact Hr].
    intros r [_ H]. exact H.
Qed.

(** Pixel [(i, j)] of view [v] sits at row [v * h * w + i * w + j] of the
    flattened batch. *)
Lemma flat_pixel_at (n h w c : nat) (t : list image) (v i j : nat) :
  shaped n h w c t -> i < h -> j < w ->
  nth_error (concat (concat t)) (v * h * w + i * w + j) =
  match nth_error t v with
  | Some g => grid_at g i j
  | None => None
  end.
Proof.
  intros Hs Hi Hj. destruct (shaped_rows Hs) as [_ Hr].
  replace (v * h * w + i * w + j) with ((v * h + i) * w + j) by lia.
  rewrite (@nth_error_concat_rows _ w (concat t) (v * h + i) j);
    [|eapply Forall_impl; [|exact Hr]; intros r [H _]; exact H|assumption].
  rewrite (@nth_error_concat_rows _ h t v i);
    [|destruct Hs as [_ Hg]; eapply Forall_impl; [|exact Hg];
      intros g [H _]; exact H|assumption].
  unfold grid_at. destruct (nth_error t v); reflexivity.
Qed.

Lemma nth_error_seq_lt (s n i : nat) :
  i < n -> nth_error (seq s n) i = Some (s + i).
Proof.
  revert s i. induction n as [|n IH]; intros s i Hi; [lia|].
  destruct i as [|i]; simpl; [f_equal; lia|].
  rewrite IH by lia. f_equal. lia.
Qed.

(** A grid given by a formula for its entries. *)
Lemma tabulate_shape (h w c : nat) (F : nat -> nat -> list Q) :
  (forall i j, List.length (F i j) = c) ->
  grid_shaped h w c (map (fun i => map (fun j => F i j) (seq 0 w)) (seq 0 h)).
Proof.
  intros HF. split; [rewrite length_map; apply length_seq|].
  apply Forall_forall. intros row Hrow. apply in_map_iff in Hrow.
  destruct Hrow as [i [<- _]]. split; [rewrite length_map; apply length_seq|].
  apply Forall_forall. intros px Hpx. apply in_map_iff in Hpx.
  destruct Hpx as [j [<- _]]. apply HF.
Qed.

Lemma tabulate_at (h w : nat) (F : nat -> nat -> list Q) (i j : nat) :
  i < h -> j < w ->
  grid_at (map (fun i => map (fun j => F i j) (seq 0 w)) (seq 0 h)) i j =
  Some (F i j).
Proof.
  intros Hi Hj. unfold grid_at.
  rewrite nth_error_map, nth_error_seq_lt by assumption. simpl.
  rewrite nth_error_map, nth_error_seq_lt by assumption. reflexivity.
Qed.

Lemma cat_last_shape (h w a b : nat) (o d : image) :
  grid_shaped h w a o -> grid_shaped h w b d ->
  grid_shaped h w (a + b) (cat_last o d).
Proof.
  intros [Ho Hor] [Hd Hdr]. unfold cat_last. split.
  - rewrite length_map, length_combine. lia.
  - apply Forall_forall. intros row Hrow. apply in_map_iff in Hrow.
    destruct Hrow as [[ro rd] [<- Hin]]. simpl.
    pose proof (in_combine_l _ _ _ _ Hin) as Hro.
    pose proof (in_combine_r _ _ _ _ Hin) as Hrd.
    rewrite Forall_forall in Hor, Hdr.
    destruct (Hor _ Hro) as [Hlo Hpo]. destruct (Hdr _ Hrd) as [Hld Hpd].
    split; [rewrite length_map, length_combine; lia|].
    apply Forall_forall. intros px Hpx. apply in_map_iff in Hpx.
    destruct Hpx as [[x y] [<- Hxy]]. simpl.
    rewrite Forall_forall in Hpo, Hpd. rewrite length_app.
    rewrite (Hpo _ (in_combine_l _ _ _ _ Hxy)).
    rewrite (Hpd _ (in_combine_r _ _ _ _ Hxy)). reflexivity.
Qed.

Lemma cat_last_at (o d : image) (i j : nat) (x y : list Q) :
  grid_at o i j = Some x -> grid_at d i j = Some y ->
  grid_at (cat_last o d) i j = Some (x ++ y).
Proof.
  unfold grid_at, cat_last. intros Ho Hd.
  rewrite nth_error_map, nth_error_combine.
  destruct (nth_error o i) as [ro|]; [|discriminate].
  destruct (nth_error d i) as [rd|]; [|discriminate]. simpl.
  rewrite nth_error_map, nth_error_combine, Ho, Hd. reflexivity.
Qed.

Lemma get_rays_shape (H W : nat) (f : Q) (p : pose) :
  grid_shaped H W 3 (fst (get_rays H W f p)) /\
  grid_shaped H W 3 (snd (get_rays H W f p)).
Proof.
  split; apply tabulate_shape; reflexivity.
Qed.

Lemma ray_grids_shape (i : intrinsics) (ps : list pose) :
  shaped (List.length ps) (height i) (width i) 6 (ray_grids i ps).
Proof.
  split; [apply length_map|].
  apply Forall_forall. intros g Hg. apply in_map_iff in Hg.
  destruct Hg as [p [<- _]].
  destruct (get_rays_shape (height i) (width i) (focal i) p) as [Ho Hd].
  apply (cat_last_shape Ho Hd).
Qed.

(** On well-shaped inputs [__build_data] succeeds, and the three columns
    of the ray table are the flattened grids. *)
Lemma build_data_ok (ds : dataset) (new_imgs : list image)
  (new_poses : list pose) (new_hwf : intrinsics) (n : nat) :
  shaped n (height new_hwf) (width new_hwf) 3 new_imgs ->
  new_poses <> [] ->
  exists ds',
    build_data ds new_imgs new_poses new_hwf = Ok ds' /\
    img_mode ds' = img_mode ds /\ imgs ds' = imgs ds /\
    poses ds' = poses ds /\ hwf ds' = hwf ds /\
    rays_o ds' =
      Some (map (firstn 3) (concat (concat (ray_grids new_hwf new_poses)))) /\
    rays_d ds' =
      Some (map (skipn 3) (concat (concat (ray_grids new_hwf new_poses)))) /\
    rgb ds' = Some (concat (concat new_imgs)).
Proof.
  intros Himgs Hne. unfold build_data.
  destruct new_poses as [|p0 ps0] eqn:Eps; [congruence|]. rewrite <- Eps.
  unfold flatten.
  destruct (shaped_pixels (ray_grids_shape new_hwf new_poses)) as [_ Hr].
  destruct (shaped_pixels Himgs) as [_ Hc].
  rewrite (reshape_rows_concat (c := 6)) by (assumption || lia).
  simpl rbind.
  rewrite (reshape_rows_concat (c := 3)) by (assumption || lia).
  simpl rbind. eexists. split; [reflexivity|]. simpl. repeat split.
Qed.

Lemma grid_at_some (h w c : nat) (g : image) (i j : nat) :
  grid_shaped h w c g -> i < h -> j < w ->
  exists x, grid_at g i j = Some x.
Proof.
  intros [Hh Hrows] Hi Hj. unfold grid_at.
  destruct (nth_error g i) as [row|] eqn:Ei;
    [|apply nth_error_None in Ei; lia].
  rewrite Forall_forall in Hrows.
  destruct (Hrows row (nth_error_In _ _ Ei)) as [Hw _].
  destruct (nth_error row j) as [x|] eqn:Ej;
    [eauto|apply nth_error_None in Ej; lia].
Qed.

(** In ray mode [__getitem__] returns the row of the table. *)
Lemma getitem_table_row (ds : dataset) (r : nat) (o d c : list Q) :
  img_mode ds = false -> table_row ds r = Some (o, d, c) ->
  getitem ds r = Ok (RaySample o d c).
Proof.
  intros Hm. unfold table_row, getitem. rewrite Hm.
  destruct (rays_o ds) as [os|]; [|discriminate].
  destruct (rays_d ds) as [dirs|]; [|discriminate].
  destruct (rgb ds) as [colors|]; [|discriminate].
  destruct (nth_error os r); [|discriminate].
  destruct (nth_error dirs r); [|discriminate].
  destruct (nth_error colors r); [|discriminate].
  intros H. injection H as -> -> ->. reflexivity.
Qed.

Lemma row_index_split (n h w r : nat) :
  r < n * h * w ->
  exists v i j, v < n /\ i < h /\ j < w /\ r = v * h * w + i * w + j.
Proof.
  intros Hr.
  assert (Hw : w <> 0) by (intros ->; lia).
  assert (Hh : h <> 0) by (intros ->; lia).
  exists (r / w / h), ((r / w) mod h), (r mod w).
  pose proof (Nat.div_mod_eq r w) as E1.
  pose proof (Nat.div_mod_eq (r / w) h) as E2.
  pose proof (Nat.mod_upper_bound r w Hw) as B1.
  pose proof (Nat.mod_upper_bound (r / w) h Hh) as B2.
  set (q := r / w) in *. set (m := r mod w) in *.
  set (q2 := q / h) in *. set (m2 := q mod h) in *.
  clearbody q m q2 m2.
  repeat split; try assumption.
  - assert (Hq : q < n * h).
    { destruct (Nat.lt_ge_cases q (n * h)) as [Hlt|Hge]; [assumption|].
      pose proof (Nat.mul_le_mono_l _ _ w Hge). lia. }
    destruct (Nat.lt_ge_cases q2 n) as [Hlt|Hge]; [assumption|].
    pose proof (Nat.mul_le_mono_l _ _ h Hge). lia.
  - subst r q. ring.
Qed.

(** C7: the Ray Builder succeeds on images of the shape given by the
    intrinsics, one per pose; the three columns of its table have one
    row per pixel of every view, and at row [v * H * W + i * W + j] the
    origin and the direction are those [get_rays] gives for pixel
    [(i, j)] under the pose of view [v] and the colour is pixel [(i, j)]
    of the image of view [v], which is what [__getitem__] returns for
    that row in ray mode; every row index is of that form. *)
Theorem rows_refer_to_same_pixel (ds : dataset) (new_imgs : list image)
  (new_poses : list pose) (new_hwf : intrinsics) :
  let H := height new_hwf in
  let W := width new_hwf in
  shaped (List.length new_poses) H W 3 new_imgs ->
  new_poses <> [] ->
  exists ds',
    build_data ds new_imgs new_poses new_hwf = Ok ds' /\
    (forall v i j p im,
       nth_error new_poses v = Some p -> nth_error new_imgs v = Some im ->
       i < H -> j < W ->
       exists o d c,
         grid_at (fst (get_rays H W (focal new_hwf) p)) i j = Some o /\
         grid_at (snd (get_rays H W (focal new_hwf) p)) i j = Some d /\
         grid_at im i j = Some c /\
         table_row ds' (v * H * W + i * W + j) = Some (o, d, c) /\
         (img_mode ds = false ->
          getitem ds' (v * H * W + i * W + j) = Ok (RaySample o d c))) /\
    (forall r, r < List.length new_poses * H * W ->
       exists v i j,
         v < List.length new_poses /\ i < H /\ j < W /\
         r = v * H * W + i * W + j).
Proof.
  intros H W Himgs Hne.
  destruct (@build_data_ok ds new_imgs new_poses new_hwf _ Himgs Hne)
    as [ds' [Hb [Hmode [_ [_ [_ [Ho [Hd Hc]]]]]]]].
  exists ds'. split; [exact Hb|]. split; [|apply row_index_split].
  intros v i j p im Hp Him Hi Hj.
  assert (Hg : grid_shaped H W 3 im).
  { destruct Himgs as [_ Hall]. rewrite Forall_forall in Hall.
    apply Hall. eapply nth_error_In. exact Him. }
  destruct (grid_at_some Hg Hi Hj) as [c Hcat].
  set (o := [entry p 0 3; entry p 1 3; entry p 2 3]).
  destruct (@grid_at_some H W 3 (snd (get_rays H W (focal new_hwf) p)) i j)
    as [d Hdat]; [apply get_rays_shape|assumption|assumption|].
  assert (Hoat : grid_at (fst (get_rays H W (focal new_hwf) p)) i j = Some o)
    by (apply tabulate_at; assumption).
  assert (Hdlen : exists d0 d1 d2, d = [d0; d1; d2]).
  { unfold get_rays in Hdat. simpl snd in Hdat.
    rewrite tabulate_at in Hdat by assumption. injection Hdat as <-.
    simpl. eauto. }
  exists o, d, c.
  assert (Hrow : table_row ds' (v * H * W + i * W + j) = Some (o, d, c));
    [|repeat split; try assumption;
      intros Hm; apply getitem_table_row; congruence].
  unfold table_row. rewrite Ho, Hd, Hc.
  rewrite !nth_error_map.
  rewrite (@flat_pixel_at _ H W 6 _ v i j
             (ray_grids_shape new_hwf new_poses) Hi Hj).
  rewrite (@flat_pixel_at _ H W 3 _ v i j Himgs Hi Hj).
  unfold ray_grids. rewrite nth_error_map, Hp, Him. cbn [option_map].
  cbv zeta. fold H W. rewrite (@cat_last_at _ _ i j o d Hoat Hdat), Hcat. simpl.
  destruct Hdlen as [d0 [d1 [d2 ->]]]. reflexivity.
Qed.

Lemma take_spec {A : Type} (l : list A) (idxs : list nat) (xs : list A) :
  take l idxs = Ok xs ->
  List.length xs = List.length idxs /\ Forall (fun x => In x l) xs.
Proof.
  revert xs. induction idxs as [|j rest IH]; intros xs; simpl.
  - intros H. injection H as <-. auto.
  - destruct (nth_error l j) as [x|] eqn:Ej; [|discriminate].
    intros H. apply rbind_ok in H. destruct H as [ys [Hys H]].
    injection H as <-. destruct (IH _ Hys) as [Hl Hin].
    split; [simpl; lia|]. constructor; [|assumption].
    eapply nth_error_In. exact Ej.
Qed.

Lemma composite_length (white_bkgd : bool) (c : nat) (px : list Q) :
  3 <= c -> List.length px = c ->
  List.length (composite white_bkgd px) = 3.
Proof.
  intros Hc H. unfold composite.
  destruct white_bkgd; rewrite ?length_map, length_firstn; lia.
Qed.

Lemma composite_shape (white_bkgd : bool) (h w c : nat)
  (g : list (list (list Q))) :
  3 <= c -> grid_shaped h w c g ->
  grid_shaped h w 3 (map (map (composite white_bkgd)) g).
Proof.
  intros Hc [Hh Hrows]. split; [rewrite length_map; assumption|].
  apply Forall_map. eapply Forall_impl; [|exact Hrows].
  intros row [Hw Hpx]. split; [rewrite length_map; assumption|].
  apply Forall_map. eapply Forall_impl; [|exact Hpx].
  intros px. apply composite_length. assumption.
Qed.

Lemma built_len (n h w : nat) (mode : bool) (ds : dataset) :
  built n h w mode ds ->
  len ds = Ok (if mode then n else n * h * w).
Proof.
  intros [Hm [[Hn _] [_ [_ [_ Hrgb]]]]]. unfold len. rewrite Hm.
  destruct mode; [rewrite Hn; reflexivity|].
  destruct (Hrgb eq_refl) as [colors [-> Hl]]. rewrite Hl. reflexivity.
Qed.

(** What a successful construction went through. *)
Lemma init_inv (scene_name split_name : string) (n_imgs : nat)
  (white_bkgd mode : bool) (ld : scene_data) (idx : nat) (km : kmeans_fit)
  (ds : dataset) :
  init scene_name split_name n_imgs white_bkgd mode ld idx km = Ok ds ->
  let rgb_imgs := map (map (map (composite white_bkgd))) (all_imgs ld) in
  exists timg tpose idxs sel_imgs sel_poses,
    nth_error rgb_imgs idx = Some timg /\
    nth_error (all_poses ld) idx = Some tpose /\
    4 <= pose_cols (all_poses ld) /\
    0 < n_imgs /\ n_imgs <= List.length (all_poses ld) /\
    ViewSelector.select (labels km) (dists km) n_imgs = Ok idxs /\
    take rgb_imgs idxs = Ok sel_imgs /\
    take (all_poses ld) idxs = Ok sel_poses /\
    let ds0 := {| scene := scene_name; split := split_name;
                  near := 2; far := 8;
                  img_mode := mode; hwf := scene_hwf ld;
                  testimg := timg; testpose := tpose;
                  imgs := sel_imgs; poses := sel_poses;
                  rays_o := None; rays_d := None; rgb := None |} in
    (if mode then Ok ds0
     else build_data ds0 sel_imgs sel_poses (scene_hwf ld)) = Ok ds.
Proof.
  intros H rgb_imgs. unfold init in H. fold rgb_imgs in H.
  destruct (Nat.eqb (List.length rgb_imgs) 0); [discriminate|].
  destruct (nth_error rgb_imgs idx) as [timg|]; [|discriminate].
  destruct (nth_error (all_poses ld) idx) as [tpose|]; [|discriminate].
  destruct (Nat.ltb_spec (pose_cols (all_poses ld)) 4) as [Hc|Hc];
    [discriminate|].
  apply rbind_ok in H. destruct H as [u [Hk H]].
  unfold kmeans_accepts in Hk.
  destruct (Nat.eqb_spec n_imgs 0) as [Hz|Hz]; [discriminate|].
  destruct (Nat.ltb_spec (List.length (all_poses ld)) n_imgs) as [Hv|Hv];
    [discriminate|].
  apply rbind_ok in H. destruct H as [idxs [Hsel H]].
  apply rbind_ok in H. destruct H as [sel_imgs [Himgs H]].
  apply rbind_ok in H. destruct H as [sel_poses [Hposes H]].
  exists timg, tpose, idxs, sel_imgs, sel_poses.
  repeat split; try assumption; lia.
Qed.

(** Construction leaves the dataset built. *)
Lemma init_built (scene_name split_name : string) (n_imgs : nat)
  (white_bkgd mode : bool) (ld : scene_data) (idx : nat) (km : kmeans_fit)
  (ds : dataset) (n0 h w c : nat) :
  3 <= c -> shaped n0 h w c (all_imgs ld) ->
  height (scene_hwf ld) = h -> width (scene_hwf ld) = w ->
  init scene_name split_name n_imgs white_bkgd mode ld idx km = Ok ds ->
  built n_imgs h w mode ds.
Proof.
  intros Hch [_ Hsh] Hh Hw H. apply init_inv in H.
  destruct H as [timg [tpose [idxs [sel_imgs [sel_poses
    [_ [_ [_ [_ [_ [Hsel [Himgs [Hposes H]]]]]]]]]]]]].
  cbv zeta in H.
  apply ViewSelectorFacts.select_loop_nth in Hsel. destruct Hsel as [Hlen _].
  rewrite length_seq in Hlen.
  apply take_spec in Himgs. destruct Himgs as [Hli Hin].
  apply take_spec in Hposes. destruct Hposes as [Hlp _].
  assert (Hshaped : shaped n_imgs h w 3 sel_imgs).
  { split; [lia|]. eapply Forall_impl; [|exact Hin].
    intros g Hg. apply in_map_iff in Hg. destruct Hg as [g0 [<- Hg0]].
    apply (composite_shape _ Hch). rewrite Forall_forall in Hsh. auto. }
  destruct mode.
  - injection H as <-. unfold built. simpl.
    repeat split; try assumption; try lia; try apply Hshaped;
      try discriminate.
  - assert (Hne : sel_poses <> [])
      by (unfold build_data in H; destruct sel_poses; [discriminate|
          discriminate]).
    rewrite <- Hh, <- Hw in Hshaped.
    match type of H with
    | build_data ?d0 _ _ _ = _ =>
        destruct (@build_data_ok d0 sel_imgs sel_poses (scene_hwf ld) n_imgs
                    Hshaped Hne)
          as [ds' [Hb [Hm [Hi [Hp [Hf [_ [_ Hc]]]]]]]]
    end.
    rewrite H in Hb. injection Hb as <-.
    unfold built. rewrite Hm, Hi, Hp, Hf, Hc. simpl.
    rewrite Hh, Hw in *.
    repeat split; try assumption; try lia; try apply Hshaped.
    intros _. eexists. split; [reflexivity|].
    apply (shaped_pixels Hshaped).
Qed.

(** A call of [gaussian_downsample] succeeds on a built dataset and
    leaves it built. *)
Lemma gaussian_downsample_built (T : transforms) (ds : dataset) (t : Q)
  (n h w : nat) (mode : bool) :
  transforms_ok T -> 0 < n -> 0 < h -> 0 < w -> built n h w mode ds ->
  exists r ds',
    gaussian_downsample T ds t = Ok (r, ds') /\ built n h w mode ds'.
Proof.
  intros [Hblur Hresize] Hn Hhpos Hwpos Hb. unfold gaussian_downsample.
  destruct (0 <? py_int t)%Z; [|eauto].
  destruct Hb as [Hm [Hs [Hp [Hh [Hw Hrgb]]]]].
  unfold downsample. change (Nat.eqb 1 0) with false. cbv iota.
  rewrite !Nat.div_1_r.
  assert (Hz : Nat.eqb (height (hwf ds)) 0 || Nat.eqb (width (hwf ds)) 0
               = false).
  { rewrite Hh, Hw. destruct h; [lia|]. destruct w; [lia|]. reflexivity. }
  rewrite Hz. cbn [rbind fst snd].
  set (new_imgs := resize T (height (hwf ds)) (width (hwf ds))
                     (blur T (6 * py_int t + 1)%Z (py_int t) (imgs ds))).
  set (new_hwf := {| height := height (hwf ds); width := width (hwf ds);
                     focal := (focal (hwf ds) / inject_Z (Z.of_nat 1))%Q |}).
  assert (Hnew : shaped n (height new_hwf) (width new_hwf) 3 new_imgs).
  { simpl. apply (Hresize _ _ n h w 3); try assumption.
    apply Hblur. assumption. }
  assert (Hne : poses ds <> [])
    by (intros E; rewrite E in Hp; simpl in Hp; lia).
  destruct (@build_data_ok ds new_imgs (poses ds) new_hwf n Hnew Hne)
    as [ds' [Hbd [Hm' [Hi' [Hp' [Hf' [_ [_ Hc']]]]]]]].
  rewrite Hbd. cbn [rbind]. do 2 eexists. split; [reflexivity|].
  unfold built. rewrite Hm', Hi', Hp', Hf'.
  repeat split; try assumption; try apply Hs.
  intros _. exists (concat (concat new_imgs)). split; [assumption|].
  destruct (shaped_pixels Hnew) as [Hl _]. rewrite Hl. simpl.
  rewrite Hh, Hw. reflexivity.
Qed.

(** C6: a dataset constructed over [n_imgs] selected views of height
    [H] and width [W], none of them zero, from loaded images of at least
    three channels, has length [n_imgs * H * W] in ray mode and [n_imgs]
    in image mode, and after any sequence of rebuilds of the ray table by
    [gaussian_downsample] it still has. *)
Theorem dataset_length (scene_name split_name : string) (n_imgs : nat)
  (white_bkgd mode : bool) (ld : scene_data) (idx : nat) (km : kmeans_fit)
  (T : transforms) (ds : dataset) (n0 H W c : nat) :
  3 <= c -> shaped n0 H W c (all_imgs ld) ->
  height (scene_hwf ld) = H -> width (scene_hwf ld) = W ->
  0 < n_imgs -> 0 < H -> 0 < W -> transforms_ok T ->
  init scene_name split_name n_imgs white_bkgd mode ld idx km = Ok ds ->
  len ds = Ok (if mode then n_imgs else n_imgs * H * W) /\
  forall ts, exists ds',
    resample T ds ts = Ok ds' /\
    len ds' = Ok (if mode then n_imgs else n_imgs * H * W).
Proof.
  intros Hc Hsh Hh Hw Hn HH HW HT Hinit.
  pose proof (init_built _ _ _ _ _ _ _ _ Hc Hsh Hh Hw Hinit) as Hb.
  split; [apply (built_len Hb)|].
  intros ts. clear Hinit. revert ds Hb.
  induction ts as [|t ts IH]; intros ds Hb.
  - exists ds. split; [reflexivity|apply (built_len Hb)].
  - destruct (gaussian_downsample_built t HT Hn HH HW Hb)
      as [r [ds1 [Hg Hb1]]].
    destruct (IH ds1 Hb1) as [ds' [Hres Hlen]].
    exists ds'. split; [|assumption].
    simpl. rewrite Hg. simpl. assumption.
Qed.

(** C9: a call of the resampling transform with [t == 0] returns the
    images and intrinsics of the dataset as they are and leaves every
    field of the dataset as it was; the ray table is not rebuilt. *)
Theorem gaussian_downsample_zero (T : transforms) (ds : dataset) (t : Q) :
  (t == 0)%Q ->
  gaussian_downsample T ds t = Ok ((imgs ds, hwf ds), ds).
Proof.
  intros Ht. unfold gaussian_downsample, py_int.
  unfold Qeq in Ht. simpl in Ht.
  assert (Hnum : Qnum t = 0%Z) by lia.
  rewrite Hnum. rewrite Z.quot_0_l by discriminate. reflexivity.
Qed.

(** The example transforms honour the contract. *)
Lemma tiling_ok : transforms_ok Examples.tiling.
Proof.
  split; [intros; assumption|].
  intros h' w' n h w c t Hh Hw [Hn Hall]. split.
  - simpl. rewrite length_map. assumption.
  - simpl. apply Forall_map. eapply Forall_impl; [|exact Hall].
    intros im [Hlen Hrows]. apply tabulate_shape. intros i j.
    rewrite Forall_forall in Hrows.
    assert (Hrow : forall r, r < h ->
              List.length (nth r im []) = w /\
              Forall (fun px => List.length px = c) (nth r im [])).
    { intros r Hr. apply Hrows. apply nth_In. lia. }
    destruct (Hrow 0 Hh) as [Hw0 _]. rewrite Hw0, Hlen.
    destruct (Hrow (i mod h)) as [Hwi Hpx];
      [apply Nat.mod_upper_bound; lia|].
    rewrite Forall_forall in Hpx. apply Hpx. apply nth_In.
    rewrite Hwi. apply Nat.mod_upper_bound. lia.
Qed.

Lemma toy_scene_shaped : shaped 2 1 2 4 (all_imgs Examples.toy_scene).
Proof.
  split; [reflexivity|]. repeat constructor.
Qed.

(** A run of the theorem: two views of one by two pixels in ray mode. *)
Lemma dataset_length_witness :
  exists ds,
    init "lego" "train" 2 false false Examples.toy_scene 0 Examples.toy_fit
      = Ok ds /\
    len ds = Ok 4 /\
    exists ds',
      resample Examples.tiling ds [1; 0; 2]%Q = Ok ds' /\ len ds' = Ok 4.
Proof.
  eexists. split; [vm_compute; reflexivity|].
  match goal with
  | |- len ?d = _ /\ _ =>
      destruct (@dataset_length "lego" "train" 2 false false
                  Examples.toy_scene 0 Examples.toy_fit Examples.tiling d
                  2 1 2 4)
        as [Hlen Hre]
  end.
  - lia.
  - apply toy_scene_shaped.
  - reflexivity.
  - reflexivity.
  - lia.
  - lia.
  - lia.
  - apply tiling_ok.
  - vm_compute. reflexivity.
  - split; [exact Hlen|]. apply Hre.
Defined.

Lemma toy_imgs_shaped :
  shaped (List.length (poses Examples.toy_dataset)) 1 2 3
         (imgs Examples.toy_dataset).
Proof.
  split; [reflexivity|]. repeat constructor.
Qed.

(** A run of the theorem: row 1 of the table of one view of one by two
    pixels is pixel (0, 1). *)
Lemma rows_refer_to_same_pixel_witness :
  exists ds',
    build_data Examples.toy_dataset (imgs Examples.toy_dataset)
               (poses Examples.toy_dataset) (hwf Examples.toy_dataset)
      = Ok ds' /\
    exists o d c,
      grid_at (fst (get_rays 1 2 1 Examples.identity_pose)) 0 1 = Some o /\
      grid_at (snd (get_rays 1 2 1 Examples.identity_pose)) 0 1 = Some d /\
      grid_at [[ [1; 0; 0]; [0; 1; 0] ]]%Q 0 1 = Some c /\
      table_row ds' 1 = Some (o, d, c) /\
      (img_mode Examples.toy_dataset = false ->
       getitem ds' 1 = Ok (RaySample o d c)).
Proof.
  destruct (@rows_refer_to_same_pixel Examples.toy_dataset
              (imgs Examples.toy_dataset) (poses Examples.toy_dataset)
              (hwf Examples.toy_dataset) toy_imgs_shaped)
    as [ds' [Hb [Hrow _]]].
  - discriminate.
  - exists ds'. split; [exact Hb|].
    apply (Hrow 0 0 1 Examples.identity_pose [[ [1; 0; 0]; [0; 1; 0] ]]%Q);
      try reflexivity; simpl; lia.
Defined.

(** A run of the theorem on the example dataset. *)
Lemma gaussian_downsample_zero_witness :
  (0 == 0)%Q /\
  gaussian_downsample Examples.tiling Examples.toy_dataset 0 =
    Ok ((imgs Examples.toy_dataset, hwf Examples.toy_dataset),
        Examples.toy_dataset).
Proof.
  split; [reflexivity|].
  apply gaussian_downsample_zero. reflexivity.
Defined.

End DatasetFacts.

(** ** Validator *)

Module ValidatorFacts.
Import Py PyFacts Validator.

Lemma qsum_app (l1 l2 : list Q) :
  (qsum (l1 ++ l2) == qsum l1 + qsum l2)%Q.
Proof.
  induction l1 as [|x l1 IH]; simpl.
  - ring.
  - rewrite IH. ring.
Qed.

(** A chunk and what follows it add up to the rest of the batch. *)
Lemma qsum_chunk (d : list Q) (i j c : nat) :
  j = i + c ->
  (qsum (skipn i d) == qsum (slice d i (i + c)) + qsum (skipn j d))%Q.
Proof.
  intros ->. unfold slice. replace (i + c - i) with c by lia.
  rewrite <- qsum_app, Nat.add_comm, <- skipn_skipn, firstn_skipn.
  reflexivity.
Qed.

Lemma slice_length (d : list Q) (i c : nat) :
  i + c <= List.length d -> List.length (slice d i (i + c)) = c.
Proof.
  intros H. unfold slice. rewrite length_firstn, length_skipn. lia.
Qed.

Lemma mean_nonempty (l : list Q) :
  0 < List.length l ->
  mean l = Finite (qsum l / inject_Z (Z.of_nat (List.length l))).
Proof.
  destruct l; simpl; [lia|reflexivity].
Qed.

(** Where the two paths agree: on a batch whose size is a multiple of
    the chunk count, 25 in particular, the chunked value is the one-pass
    mean. *)
Lemma val_lpips_divisible (d : list Q) (c : nat) :
  List.length d = 5 * c -> 5 <= c ->
  feq (val_lpips d) (one_pass_lpips d).
Proof.
  intros Hlen Hc. unfold val_lpips, one_pass_lpips.
  destruct (Nat.ltb_spec (List.length d) 25) as [Hlt|_]; [lia|].
  rewrite Hlen.
  replace (5 * c / 5) with c by (apply Nat.div_unique_exact; lia).
  unfold range_step.
  replace ((5 * c + c - 1) / c) with 5
    by (apply Nat.div_unique with (r := c - 1); lia).
  cbn [seq map fold_left].
  assert (Hs : forall i, i + c <= 5 * c ->
            mean (slice d i (i + c)) =
            Finite (qsum (slice d i (i + c)) / inject_Z (Z.of_nat c))).
  { intros i Hi. rewrite mean_nonempty; rewrite slice_length; try lia.
    reflexivity. }
  rewrite !Hs by lia. rewrite mean_nonempty by lia. rewrite Hlen.
  cbn [fadd fdiv feq].
  assert (E0 : (qsum (skipn (0 * c) d) ==
                qsum (slice d (0 * c) (0 * c + c)) + qsum (skipn (1 * c) d))%Q)
    by (apply qsum_chunk; lia).
  assert (E1 : (qsum (skipn (1 * c) d) ==
                qsum (slice d (1 * c) (1 * c + c)) + qsum (skipn (2 * c) d))%Q)
    by (apply qsum_chunk; lia).
  assert (E2 : (qsum (skipn (2 * c) d) ==
                qsum (slice d (2 * c) (2 * c + c)) + qsum (skipn (3 * c) d))%Q)
    by (apply qsum_chunk; lia).
  assert (E3 : (qsum (skipn (3 * c) d) ==
                qsum (slice d (3 * c) (3 * c + c)) + qsum (skipn (4 * c) d))%Q)
    by (apply qsum_chunk; lia).
  assert (E4 : (qsum (skipn (4 * c) d) ==
                qsum (slice d (4 * c) (4 * c + c)) +
                qsum (skipn (List.length d) d))%Q)
    by (apply qsum_chunk; lia).
  rewrite skipn_all in E4. simpl (qsum []) in E4.
  change (qsum d) with (qsum (skipn (0 * c) d)).
  rewrite E0, E1, E2, E3, E4.
  rewrite Nat2Z.inj_mul, inject_Z_mult.
  assert (Hcq : ~ (inject_Z (Z.of_nat c) == 0)%Q).
  { intros E. apply (Qlt_irrefl 0). rewrite <- E at 2.
    apply CoefficientFacts.inject_Z_pos. lia. }
  simpl (Z.of_nat 5). field. assumption.
Qed.

Lemma skipn_repeat (x : Q) (n i : nat) :
  skipn i (repeat x n) = repeat x (n - i).
Proof.
  revert i. induction n as [|n IH]; intros [|i]; simpl; auto.
Qed.

Lemma firstn_repeat (x : Q) (n i : nat) :
  firstn i (repeat x n) = repeat x (Nat.min i n).
Proof.
  revert i. induction n as [|n IH]; intros [|i]; simpl; auto.
  rewrite IH. reflexivity.
Qed.

Lemma mean_repeat (x : Q) (m : nat) :
  0 < m -> feq (mean (repeat x m)) (Finite x).
Proof.
  intros Hm. rewrite mean_nonempty by (rewrite repeat_length; assumption).
  rewrite repeat_length. simpl.
  assert (Hsum : (qsum (repeat x m) == inject_Z (Z.of_nat m) * x)%Q).
  { clear Hm. induction m as [|m IH].
    - simpl. ring.
    - simpl repeat. simpl qsum. rewrite IH.
      rewrite Nat2Z.inj_succ. unfold Z.succ. rewrite inject_Z_plus.
      change (inject_Z 1) with 1%Q. ring. }
  rewrite Hsum. field.
  intros E. apply (Qlt_irrefl 0). rewrite <- E at 2.
  apply CoefficientFacts.inject_Z_pos. lia.
Qed.

(** The defect at every size: a batch of [n >= 25] images with [n] not
    a multiple of 5 is cut into six chunks, the last one short, and the
    sum of the six chunk means is still divided by 5.  On a batch with
    the same distance [x] for every image the one-pass mean is [x] and
    the chunked value is [6 * x / 5]. *)
Lemma val_lpips_not_divisible (x : Q) (n : nat) :
  25 <= n -> n mod 5 <> 0 ->
  feq (val_lpips (repeat x n)) (Finite (6 * x / 5)) /\
  feq (one_pass_lpips (repeat x n)) (Finite x).
Proof.
  intros Hn Hmod. split; [|apply mean_repeat; lia].
  unfold val_lpips. rewrite repeat_length.
  destruct (Nat.ltb_spec n 25) as [Hlt|_]; [lia|].
  pose proof (Nat.div_mod_eq n 5) as Hdm.
  pose proof (Nat.mod_upper_bound n 5) as Hr.
  set (c := n / 5) in *. set (r := n mod 5) in *. clearbody c r.
  assert (Hc : 5 <= c) by lia.
  unfold range_step.
  replace ((n + c - 1) / c) with 6
    by (apply Nat.div_unique with (r := r - 1); lia).
  cbn [seq map fold_left]. unfold slice.
  rewrite !skipn_repeat, !firstn_repeat.
  replace (Nat.min (0 * c + c - 0 * c) (n - 0 * c)) with c by lia.
  replace (Nat.min (1 * c + c - 1 * c) (n - 1 * c)) with c by lia.
  replace (Nat.min (2 * c + c - 2 * c) (n - 2 * c)) with c by lia.
  replace (Nat.min (3 * c + c - 3 * c) (n - 3 * c)) with c by lia.
  replace (Nat.min (4 * c + c - 4 * c) (n - 4 * c)) with c by lia.
  replace (Nat.min (5 * c + c - 5 * c) (n - 5 * c)) with r by lia.
  pose proof (@mean_repeat x c) as Mc. pose proof (@mean_repeat x r) as Mr.
  destruct (mean (repeat x c)) as [mc|]; [|exfalso; apply Mc; lia].
  destruct (mean (repeat x r)) as [mr|]; [|exfalso; apply Mr; lia].
  simpl in Mc, Mr. simpl. rewrite Mc, Mr by lia.
  change (inject_Z 5) with 5%Q. field.
Qed.

(** C3: on a held-out set of 26 images, each at perceptual distance
    1/2, the one-pass mean is 1/2 while the chunked computation of
    lines 160-168 returns 3/5: [range(0, 26, 5)] yields six chunks and
    the sum of their means is divided by [n_chunks = 5]. *)
Theorem val_lpips_26_images :
  25 <= List.length (repeat (1 # 2)%Q 26) /\
  feq (val_lpips (repeat (1 # 2)%Q 26)) (Finite (3 # 5)) /\
  feq (one_pass_lpips (repeat (1 # 2)%Q 26)) (Finite (1 # 2)) /\
  ~ feq (val_lpips (repeat (1 # 2)%Q 26))
        (one_pass_lpips (repeat (1 # 2)%Q 26)).
Proof.
  split; [simpl; lia|].
  split; [vm_compute; reflexivity|].
  split; [vm_compute; reflexivity|].
  intros H. vm_compute in H. discriminate H.
Qed.

End ValidatorFacts.

(** ** Validation metrics beyond the claims *)

Module MetricsFacts.
Import Py PyFacts Validator Metrics.

Lemma feq_refl (x : float) : feq x x.
Proof. destruct x; simpl; [reflexivity|exact I]. Qed.

(** X1: on a held-out set whose size is at least 25 and a multiple of
    5, the chunked perceptual distance of lines 160-168 is the one-pass
    mean of line 157. *)
Theorem chunked_on_multiples (d : list Q) :
  25 <= List.length d -> List.length d mod 5 = 0 ->
  feq (val_lpips d) (one_pass_lpips d).
Proof.
  intros Hlen Hmod.
  pose proof (Nat.div_mod_eq (List.length d) 5) as Hdm.
  rewrite Hmod, Nat.add_0_r in Hdm.
  apply (@ValidatorFacts.val_lpips_divisible d (List.length d / 5)).
  - exact Hdm.
  - lia.
Qed.

Lemma chunked_on_multiples_witness :
  feq (val_lpips (repeat (1 # 3)%Q 30)) (one_pass_lpips (repeat (1 # 3)%Q 30)).
Proof.
  apply chunked_on_multiples.
  - simpl. lia.
  - reflexivity.
Defined.

(** X2: on a held-out set of [n >= 25] images with [n] not a multiple
    of 5, all at the same positive distance [x], the chunked value is
    [6 * x / 5]: strictly above the one-pass mean [x], and above every
    distance in the set. *)
Theorem chunked_off_multiples (x : Q) (n : nat) :
  (0 < x)%Q -> 25 <= n -> n mod 5 <> 0 ->
  exists v w,
    val_lpips (repeat x n) = Finite v /\
    one_pass_lpips (repeat x n) = Finite w /\
    (v == 6 * x / 5)%Q /\ (w == x)%Q /\ (w < v)%Q.
Proof.
  intros Hx Hn Hmod.
  destruct (ValidatorFacts.val_lpips_not_divisible x Hn Hmod) as [Hv Hw].
  destruct (val_lpips (repeat x n)) as [v|]; [|contradiction].
  destruct (one_pass_lpips (repeat x n)) as [w|]; [|contradiction].
  simpl in Hv, Hw. exists v, w. repeat split; try assumption.
  rewrite Hv, Hw.
  assert (E : (6 * x / 5 == (6 # 5) * x)%Q) by field.
  rewrite E. lra.
Qed.

Lemma chunked_off_multiples_witness :
  exists v w,
    val_lpips (repeat (1 # 4)%Q 27) = Finite v /\
    one_pass_lpips (repeat (1 # 4)%Q 27) = Finite w /\
    (v == 6 * (1 # 4) / 5)%Q /\ (w == 1 # 4)%Q /\ (w < v)%Q.
Proof.
  apply chunked_off_multiples.
  - reflexivity.
  - lia.
  - discriminate.
Defined.

(** X3: for a validation ratio in [[0, 1]], every validation set [main]
    builds (the [int(val_ratio * 25)] views used during training and the
    25 views of the final pass) has a size on which the perceptual
    distance [validation] computes is the one-pass mean. *)
Theorem main_sizes_exact (val_ratio : Q) (d : list Q) :
  (0 <= val_ratio)%Q -> (val_ratio <= 1)%Q ->
  Z.of_nat (List.length d) = subset_size val_ratio \/
  List.length d = final_size ->
  feq (val_lpips d) (one_pass_lpips d).
Proof.
  intros H0 H1 Hsize.
  assert (Hle : List.length d <= 25).
  { destruct Hsize as [Hs|Hs]; [|rewrite Hs; unfold final_size; lia].
    assert (Hb : (0 <= subset_size val_ratio <= 25)%Z).
    { unfold subset_size, py_int.
      apply (@int_fmul64_bounds (round64 val_ratio) (round64 25) 1 25).
      - reflexivity.
      - lia.
      - apply round64_nonneg. assumption.
      - apply round64_le; [reflexivity|assumption|assumption].
      - apply round64_nonneg. discriminate.
      - apply round64_le; [reflexivity|discriminate|].
        change (inject_Z 25) with 25%Q. apply Qle_refl. }
    lia. }
  destruct (Nat.eq_dec (List.length d) 25) as [E|NE].
  - apply (@ValidatorFacts.val_lpips_divisible d 5); lia.
  - unfold val_lpips, one_pass_lpips.
    destruct (Nat.ltb_spec (List.length d) 25) as [_|Hge]; [|lia].
    apply feq_refl.
Qed.

Lemma main_sizes_exact_witness :
  feq (val_lpips (repeat (1 # 3)%Q 12)) (one_pass_lpips (repeat (1 # 3)%Q 12)).
Proof.
  apply (@main_sizes_exact (1 # 2)%Q).
  - discriminate.
  - discriminate.
  - left. reflexivity.
Defined.

Lemma fold_left_Qplus (l : list Q) (acc : Q) :
  (fold_left Qplus l acc == acc + qsum l)%Q.
Proof.
  revert acc. induction l as [|x l IH]; intros acc; simpl.
  - ring.
  - rewrite IH. ring.
Qed.

Lemma qsum_bounds (lo hi : Q) (l : list Q) :
  Forall (fun s => lo <= s /\ s <= hi)%Q l ->
  (inject_Z (Z.of_nat (List.length l)) * lo <= qsum l /\
   qsum l <= inject_Z (Z.of_nat (List.length l)) * hi)%Q.
Proof.
  induction 1 as [|s l [Hlo Hhi] _ [IHlo IHhi]].
  - cbn [List.length Z.of_nat qsum fold_right].
    change (inject_Z 0) with 0%Q. split; lra.
  - simpl List.length. rewrite Nat2Z.inj_succ. unfold Z.succ.
    rewrite inject_Z_plus. change (inject_Z 1) with 1%Q. simpl qsum.
    split; lra.
Qed.

(** X4: the structural-similarity value of [validation] is the
    arithmetic mean of the per-image scores: with at least one image the
    division succeeds and the value times the number of images is the
    sum of the scores; hence, whenever every score lies in [[lo, hi]], so
    does the value. *)
Theorem val_ssim_is_mean (lo hi : Q) (scores : list Q) :
  scores <> [] ->
  Forall (fun s => lo <= s /\ s <= hi)%Q scores ->
  exists v,
    val_ssim scores = Ok v /\
    (v * inject_Z (Z.of_nat (List.length scores)) == qsum scores)%Q /\
    (lo <= v)%Q /\ (v <= hi)%Q.
Proof.
  intros Hne Hall. unfold val_ssim.
  destruct scores as [|s0 rest] eqn:E; [congruence|]. rewrite <- E in *.
  assert (Hlen : 0 < List.length scores) by (rewrite E; simpl; lia).
  destruct (Nat.eqb_spec (List.length scores) 0) as [H0|_]; [lia|].
  eexists. split; [reflexivity|].
  destruct (qsum_bounds Hall) as [Hlo Hhi].
  assert (Hn : (0 < inject_Z (Z.of_nat (List.length scores)))%Q)
    by (apply CoefficientFacts.inject_Z_pos; lia).
  rewrite fold_left_Qplus, Qplus_0_l. split; [|split].
  - field. lra.
  - apply Qle_shift_div_l; [assumption|].
    rewrite Qmult_comm. assumption.
  - apply Qle_shift_div_r; [assumption|].
    rewrite Qmult_comm. assumption.
Qed.

Lemma val_ssim_is_mean_witness :
  exists v,
    val_ssim [1 # 2; 3 # 4; 1]%Q = Ok v /\
    (v * 3 == (1 # 2) + ((3 # 4) + (1 + 0)))%Q /\
    (- (1) <= v)%Q /\ (v <= 1)%Q.
Proof.
  apply (@val_ssim_is_mean (- (1)) 1 [1 # 2; 3 # 4; 1]%Q).
  - discriminate.
  - repeat constructor; discriminate.
Defined.

End MetricsFacts.

(** ** Construction, selection and resampling beyond the claims *)

Module DatasetProps.
Import Py PyFacts ViewSelector Dataset DatasetFacts.

(** X5: white-background compositing of an RGBA pixel whose channels
    and opacity lie in [[0, 1]] gives three channels in [[0, 1]]; a fully
    opaque pixel keeps its colour and a fully transparent one becomes
    white.  Without the white background the colour channels are kept
    and the opacity dropped. *)
Theorem composite_rgba (r g b a : Q) :
  (0 <= r <= 1)%Q -> (0 <= g <= 1)%Q -> (0 <= b <= 1)%Q -> (0 <= a <= 1)%Q ->
  Forall (fun c => 0 <= c /\ c <= 1)%Q (composite true [r; g; b; a]) /\
  ((a == 1)%Q -> Forall2 Qeq (composite true [r; g; b; a]) [r; g; b]) /\
  ((a == 0)%Q -> Forall2 Qeq (composite true [r; g; b; a]) [1; 1; 1]%Q) /\
  composite false [r; g; b; a] = [r; g; b].
Proof.
  intros Hr Hg Hb Ha.
  assert (Hmix : forall c, (0 <= c <= 1)%Q ->
            (0 <= c * a + (1 - a) /\ c * a + (1 - a) <= 1)%Q).
  { intros c [Hc0 Hc1].
    assert (H0 : (0 <= c * a)%Q) by (apply Qmult_le_0_compat; lra).
    assert (H1 : (c * a <= 1 * a)%Q) by (apply Qmult_le_compat_r; lra).
    lra. }
  unfold composite. simpl. repeat split.
  - repeat constructor; apply Hmix; assumption.
  - intros E. repeat constructor; rewrite E; ring.
  - intros E. repeat constructor; rewrite E; ring.
Qed.

Lemma composite_rgba_witness :
  Forall (fun c => 0 <= c /\ c <= 1)%Q
         (composite true [1 # 2; 1; 0; 1 # 4]%Q).
Proof.
  apply (@composite_rgba (1 # 2) 1 0 (1 # 4))%Q;
    split; discriminate.
Defined.

Lemma np_where_length (labels : list nat) (dists : list Q) (i : nat) :
  List.length (np_where labels i dists) =
  Nat.min (List.length labels) (List.length dists).
Proof.
  unfold np_where. rewrite length_map. apply length_combine.
Qed.

Lemma select_bounds (labels : list nat) (dists : list Q) (k : nat)
  (idxs : list nat) :
  select labels dists k = Ok idxs ->
  List.length idxs = k /\
  Forall (fun j => j < Nat.min (List.length labels) (List.length dists)) idxs.
Proof.
  intros Hsel. unfold select in Hsel.
  destruct (ViewSelectorFacts.select_loop_nth _ _ _ Hsel) as [Hl Hn].
  rewrite length_seq in Hl. split; [assumption|].
  apply Forall_forall. intros j Hj.
  apply In_nth_error in Hj. destruct Hj as [v Hv].
  destruct (Hn _ _ Hv) as [i [_ Harg]].
  destruct (ViewSelectorFacts.argmin_min _ Harg) as [x [Hx _]].
  assert (Hlt : j < List.length (np_where labels i dists))
    by (apply nth_error_Some; congruence).
  rewrite np_where_length in Hlt. assumption.
Qed.

Lemma select_total (labels : list nat) (dists : list Q) (k : nat) :
  List.length labels = List.length dists -> labels <> [] ->
  exists idxs, select labels dists k = Ok idxs.
Proof.
  intros Hlen Hne. apply ViewSelectorFacts.select_loop_total.
  intros Hnil. apply (f_equal (@List.length dist)) in Hnil.
  rewrite np_where_length, <- Hlen, Nat.min_id in Hnil.
  destruct labels; [congruence|discriminate].
Qed.

(** X6: the indices the View Selector returns are always valid indices
    into the views, one per requested cluster, whether or not a cluster
    is empty; the selection succeeds as soon as there is one view, and
    with no view at all the first arg-min raises [ValueError]. *)
Theorem selection_in_bounds (labels : list nat) (dists : list Q) (k : nat) :
  List.length labels = List.length dists ->
  (forall idxs, select labels dists k = Ok idxs ->
     List.length idxs = k /\
     Forall (fun j => j < List.length labels) idxs) /\
  (labels <> [] -> exists idxs, select labels dists k = Ok idxs) /\
  (labels = [] -> 0 < k -> select labels dists k = Raise ValueError).
Proof.
  intros Hlen. split; [|split].
  - intros idxs Hsel. destruct (select_bounds _ _ _ Hsel) as [Hl Hb].
    split; [assumption|]. rewrite <- Hlen, Nat.min_id in Hb. assumption.
  - intros Hne. apply select_total; assumption.
  - intros -> Hk. unfold select. destruct k as [|k]; [lia|]. reflexivity.
Qed.

Lemma selection_in_bounds_witness :
  List.length [0; 0; 1] = List.length [1; 2; 3]%Q /\
  exists idxs, select [0; 0; 1] [1; 2; 3]%Q 3 = Ok idxs.
Proof.
  split; [reflexivity|].
  destruct (@selection_in_bounds [0; 0; 1] [1; 2; 3]%Q 3 eq_refl)
    as [_ [Htot _]].
  apply Htot. discriminate.
Defined.

Lemma take_total {A : Type} (l : list A) (idxs : list nat) :
  Forall (fun j => j < List.length l) idxs ->
  exists xs, take l idxs = Ok xs.
Proof.
  induction 1 as [|j rest Hj _ [xs IH]]; simpl; [eauto|].
  destruct (nth_error l j) eqn:E; [|apply nth_error_None in E; lia].
  rewrite IH. simpl. eauto.
Qed.

Lemma take_nth {A : Type} (l : list A) (idxs : list nat) (xs : list A)
  (v j : nat) :
  take l idxs = Ok xs -> nth_error idxs v = Some j ->
  exists x, nth_error l j = Some x /\ nth_error xs v = Some x.
Proof.
  revert xs v. induction idxs as [|j0 rest IH]; intros xs v; simpl.
  - intros _ H. destruct v; discriminate.
  - destruct (nth_error l j0) as [x0|] eqn:E0; [|discriminate].
    intros H Hv. apply rbind_ok in H. destruct H as [ys [Hys H]].
    injection H as <-. destruct v as [|v]; simpl in *.
    + injection Hv as <-. eauto.
    + apply (IH _ _ Hys Hv).
Qed.

(** [__build_data] writes the three columns of the table and nothing
    else. *)
Lemma build_data_fields (ds ds' : dataset) (new_imgs : list (list (list (list Q))))
  (new_poses : list (list (list Q))) (new_hwf : intrinsics) :
  build_data ds new_imgs new_poses new_hwf = Ok ds' ->
  scene ds' = scene ds /\ split ds' = split ds /\
  near ds' = near ds /\ far ds' = far ds /\
  img_mode ds' = img_mode ds /\ hwf ds' = hwf ds /\
  testimg ds' = testimg ds /\ testpose ds' = testpose ds /\
  imgs ds' = imgs ds /\ poses ds' = poses ds.
Proof.
  unfold build_data. destruct new_poses; [discriminate|].
  intros H. apply rbind_ok in H. destruct H as [rows [_ H]].
  apply rbind_ok in H. destruct H as [colors [_ H]].
  injection H as <-. simpl. repeat split.
Qed.

Lemma init_ok (scene_name split_name : string) (n_imgs : nat)
  (white_bkgd mode : bool) (ld : scene_data) (idx : nat) (km : kmeans_fit)
  (n0 H W c : nat) :
  3 <= c -> shaped n0 H W c (all_imgs ld) ->
  List.length (all_poses ld) = n0 -> 4 <= pose_cols (all_poses ld) ->
  List.length (labels km) = n0 -> List.length (dists km) = n0 ->
  height (scene_hwf ld) = H -> width (scene_hwf ld) = W ->
  idx < n0 -> 0 < n_imgs -> n_imgs <= n0 ->
  exists ds,
    init scene_name split_name n_imgs white_bkgd mode ld idx km = Ok ds.
Proof.
  intros Hc Hsh Hposes Hcols Hlab Hdis Hh Hw Hidx Hn Hle.
  unfold init. destruct Hsh as [Hn0 Hall].
  set (rgb_imgs := map (map (map (composite white_bkgd))) (all_imgs ld)).
  assert (Hlr : List.length rgb_imgs = n0)
    by (unfold rgb_imgs; rewrite length_map; assumption).
  destruct (Nat.eqb_spec (List.length rgb_imgs) 0) as [Hz|_]; [lia|].
  destruct (nth_error rgb_imgs idx) as [timg|] eqn:Et;
    [|apply nth_error_None in Et; lia].
  destruct (nth_error (all_poses ld) idx) as [tpose|] eqn:Ep;
    [|apply nth_error_None in Ep; lia].
  destruct (Nat.ltb_spec (pose_cols (all_poses ld)) 4) as [Hlt|_]; [lia|].
  unfold kmeans_accepts.
  destruct (Nat.eqb_spec n_imgs 0) as [Hz|_]; [lia|].
  destruct (Nat.ltb_spec (List.length (all_poses ld)) n_imgs) as [Hlt|_];
    [lia|].
  cbn [rbind].
  assert (Hlen : List.length (labels km) = List.length (dists km))
    by congruence.
  destruct (@select_total (labels km) (dists km) n_imgs Hlen)
    as [idxs Hsel];
    [intros E; rewrite E in Hlab; simpl in Hlab; lia|].
  destruct (select_bounds _ _ _ Hsel) as [Hli Hin].
  rewrite <- Hlen, Nat.min_id in Hin. rewrite Hsel. simpl rbind.
  destruct (@take_total _ rgb_imgs idxs) as [sel_imgs Hsi];
    [rewrite Hlr, <- Hlab; assumption|].
  destruct (@take_total _ (all_poses ld) idxs) as [sel_poses Hsp];
    [rewrite Hposes, <- Hlab; assumption|].
  rewrite Hsi, Hsp. simpl rbind.
  destruct mode; [eauto|].
  destruct (take_spec _ _ Hsi) as [Hl1 Hin1].
  destruct (take_spec _ _ Hsp) as [Hl2 _].
  assert (Hshaped : shaped n_imgs (height (scene_hwf ld))
                      (width (scene_hwf ld)) 3 sel_imgs).
  { rewrite Hh, Hw. split; [lia|].
    eapply Forall_impl; [|exact Hin1].
    intros g Hg. apply in_map_iff in Hg. destruct Hg as [g0 [<- Hg0]].
    apply (composite_shape _ Hc). rewrite Forall_forall in Hall. auto. }
  assert (Hne : sel_poses <> [])
    by (intros E; rewrite E in Hl2; simpl in Hl2; lia).
  match goal with
  | |- exists ds, build_data ?d0 _ _ _ = Ok ds =>
      destruct (@build_data_ok d0 sel_imgs sel_poses (scene_hwf ld)
                  n_imgs Hshaped Hne) as [ds' [Hb _]]
  end.
  eauto.
Qed.

(** More views requested than the scene has, or none: K-means
    refuses. *)
Lemma init_refuses (scene_name split_name : string) (n_imgs : nat)
  (white_bkgd mode : bool) (ld : scene_data) (idx : nat) (km : kmeans_fit) :
  List.length (all_imgs ld) = List.length (all_poses ld) ->
  4 <= pose_cols (all_poses ld) -> idx < List.length (all_poses ld) ->
  n_imgs = 0 \/ List.length (all_poses ld) < n_imgs ->
  init scene_name split_name n_imgs white_bkgd mode ld idx km
  = Raise ValueError.
Proof.
  intros Hlen Hcols Hidx Hbad. unfold init.
  set (rgb_imgs := map (map (map (composite white_bkgd))) (all_imgs ld)).
  assert (Hlr : List.length rgb_imgs = List.length (all_poses ld))
    by (unfold rgb_imgs; rewrite length_map; assumption).
  destruct (Nat.eqb_spec (List.length rgb_imgs) 0) as [Hz|_]; [lia|].
  destruct (nth_error rgb_imgs idx) as [timg|] eqn:Et;
    [|apply nth_error_None in Et; lia].
  destruct (nth_error (all_poses ld) idx) as [tpose|] eqn:Ep;
    [|apply nth_error_None in Ep; lia].
  destruct (Nat.ltb_spec (pose_cols (all_poses ld)) 4) as [Hlt|_]; [lia|].
  unfold kmeans_accepts.
  destruct (Nat.eqb_spec n_imgs 0) as [Hz|Hz]; [reflexivity|].
  destruct (Nat.ltb_spec (List.length (all_poses ld)) n_imgs) as [Hlt|Hge];
    [reflexivity|lia].
Qed.

Lemma pose4x4_cols (ps : list pose) :
  ps <> [] -> Forall pose4x4 ps -> 4 <= pose_cols ps.
Proof.
  intros Hne Hall. destruct ps as [|p ps']; [congruence|].
  inversion Hall as [|? ? [Hr Hc] _]; subst. unfold pose_cols. cbn [hd].
  destruct p as [|row p']; [discriminate|].
  inversion Hc as [|? ? Hrow _]; subst. cbn [hd]. lia.
Qed.

(** X7: on a scene of [n0] views with 4 x 4 poses, one label and one
    distance per view, images of the shape of the intrinsics and at
    least three channels, the constructor succeeds for every view count
    from 1 to [n0], in both modes and whatever the clustering, empty
    clusters included, and the dataset it returns has [n_imgs] views in
    image mode and [n_imgs * H * W] rays in ray mode; for a view count
    above [n0], and for none, it raises the [ValueError] of K-means. *)
Theorem init_succeeds (scene_name split_name : string) (n_imgs : nat)
  (white_bkgd mode : bool) (ld : scene_data) (idx : nat) (km : kmeans_fit)
  (n0 H W c : nat) :
  3 <= c -> shaped n0 H W c (all_imgs ld) ->
  List.length (all_poses ld) = n0 -> Forall pose4x4 (all_poses ld) ->
  List.length (labels km) = n0 -> List.length (dists km) = n0 ->
  height (scene_hwf ld) = H -> width (scene_hwf ld) = W ->
  idx < n0 ->
  (0 < n_imgs -> n_imgs <= n0 ->
   exists ds,
     init scene_name split_name n_imgs white_bkgd mode ld idx km = Ok ds /\
     len ds = Ok (if mode then n_imgs else n_imgs * H * W)) /\
  (n_imgs = 0 \/ n0 < n_imgs ->
   init scene_name split_name n_imgs white_bkgd mode ld idx km
   = Raise ValueError).
Proof.
  intros Hc Hsh Hposes H44 Hlab Hdis Hh Hw Hidx.
  assert (Hcols : 4 <= pose_cols (all_poses ld)).
  { apply pose4x4_cols; [|assumption].
    intros E. rewrite E in Hposes. simpl in Hposes. lia. }
  split.
  - intros Hn Hle.
    destruct (@init_ok scene_name split_name n_imgs white_bkgd mode ld idx
                km n0 H W c Hc Hsh Hposes Hcols Hlab Hdis Hh Hw Hidx Hn Hle)
      as [ds Hinit].
    exists ds. split; [assumption|].
    apply built_len. eapply init_built; eauto.
  - intros Hbad. apply init_refuses; try assumption.
    + destruct Hsh as [Hl _]. congruence.
    + lia.
    + rewrite Hposes. assumption.
Qed.

Lemma toy_scene_poses : Forall pose4x4 (all_poses Examples.toy_scene).
Proof.
  repeat constructor.
Qed.

Lemma init_succeeds_witness :
  (exists ds,
     init "lego" "train" 2 true false Examples.toy_scene 1 Examples.toy_fit
       = Ok ds /\
     len ds = Ok 4) /\
  init "lego" "train" 3 true false Examples.toy_scene 1 Examples.toy_fit
    = Raise ValueError.
Proof.
  split.
  - apply (@init_succeeds "lego" "train" 2 true false Examples.toy_scene 1
             Examples.toy_fit 2 1 2 4); try reflexivity; try lia.
    + apply toy_scene_shaped.
    + apply toy_scene_poses.
  - apply (@init_succeeds "lego" "train" 3 true false Examples.toy_scene 1
             Examples.toy_fit 2 1 2 4); try reflexivity; try lia.
    + apply toy_scene_shaped.
    + apply toy_scene_poses.
Defined.

(** X8: selection keeps image and pose together.  Entry [v] of the
    dataset is the composited image and the pose of one and the same
    scene view, the one whose index the View Selector returned for
    cluster [v]; in image mode that pair is what [__getitem__] returns
    for [v]. *)
Theorem selection_keeps_pairs (scene_name split_name : string)
  (n_imgs : nat) (white_bkgd mode : bool) (ld : scene_data) (idx : nat)
  (km : kmeans_fit) (ds : dataset) :
  init scene_name split_name n_imgs white_bkgd mode ld idx km = Ok ds ->
  exists idxs,
    select (labels km) (dists km) n_imgs = Ok idxs /\
    forall v j, nth_error idxs v = Some j ->
      exists im p,
        nth_error (all_imgs ld) j = Some im /\
        nth_error (all_poses ld) j = Some p /\
        nth_error (imgs ds) v = Some (map (map (composite white_bkgd)) im) /\
        nth_error (poses ds) v = Some p /\
        (mode = true ->
         getitem ds v =
           Ok (ImageSample (map (map (composite white_bkgd)) im) p)).
Proof.
  intros H. apply init_inv in H.
  destruct H as [timg [tpose [idxs [sel_imgs [sel_poses
    [_ [_ [_ [_ [_ [Hsel [Himgs [Hposes H]]]]]]]]]]]]].
  cbv zeta in H.
  exists idxs. split; [assumption|]. intros v j Hv.
  destruct (@take_nth _ _ _ _ _ _ Himgs Hv) as [im' [Him' Hsi]].
  destruct (@take_nth _ _ _ _ _ _ Hposes Hv) as [p [Hp Hsp]].
  rewrite nth_error_map in Him'.
  destruct (nth_error (all_imgs ld) j) as [im|] eqn:Eim; [|discriminate].
  injection Him' as <-. exists im, p.
  assert (Hfields : imgs ds = sel_imgs /\ poses ds = sel_poses /\
                    img_mode ds = mode).
  { destruct mode.
    - injection H as <-. simpl. auto.
    - apply build_data_fields in H. simpl in H.
      destruct H as [_ [_ [_ [_ [Hm [_ [_ [_ [Hi Hp']]]]]]]]]. auto. }
  destruct Hfields as [Hi [Hp' Hm]]. rewrite Hi, Hp'.
  repeat split; try assumption.
  intros ->. unfold getitem. rewrite Hm, Hi, Hp', Hsi, Hsp. reflexivity.
Qed.

Lemma selection_keeps_pairs_witness :
  exists ds idxs,
    init "lego" "val" 2 false true Examples.toy_scene 0 Examples.toy_fit
      = Ok ds /\
    select (labels Examples.toy_fit) (dists Examples.toy_fit) 2 = Ok idxs.
Proof.
  eexists.
  assert (Hinit : init "lego" "val" 2 false true Examples.toy_scene 0
                    Examples.toy_fit = Ok ?[ds])
    by (vm_compute; reflexivity).
  destruct (selection_keeps_pairs _ _ _ _ _ _ _ _ Hinit) as [idxs [Hsel _]].
  exists idxs. split; [exact Hinit|exact Hsel].
Defined.

(** X9: indexing the ray table.  After [__build_data] on [n] images of
    [H] by [W] RGB pixels and [n] poses, in ray mode [__getitem__]
    returns a triple of 3-vectors for every index below [n * H * W] and
    raises [IndexError] for every index from [n * H * W] on. *)
Theorem getitem_in_bounds (ds : dataset)
  (new_imgs : list (list (list (list Q))))
  (new_poses : list (list (list Q))) (new_hwf : intrinsics) :
  let H := height new_hwf in
  let W := width new_hwf in
  let n := List.length new_poses in
  shaped n H W 3 new_imgs -> new_poses <> [] -> img_mode ds = false ->
  exists ds',
    build_data ds new_imgs new_poses new_hwf = Ok ds' /\
    len ds' = Ok (n * H * W) /\
    (forall idx, idx < n * H * W ->
       exists o d c,
         getitem ds' idx = Ok (RaySample o d c) /\
         List.length o = 3 /\ List.length d = 3 /\ List.length c = 3) /\
    (forall idx, n * H * W <= idx -> getitem ds' idx = Raise IndexError).
Proof.
  intros H W n Himgs Hne Hmode.
  destruct (@build_data_ok ds new_imgs new_poses new_hwf n Himgs Hne)
    as [ds' [Hb [Hm [_ [_ [_ [Ho [Hd Hc]]]]]]]].
  destruct (shaped_pixels (ray_grids_shape new_hwf new_poses))
    as [Hrl Hrp].
  destruct (shaped_pixels Himgs) as [Hcl Hcp].
  fold H W n in Hrl, Hrp.
  set (rows := concat (concat (ray_grids new_hwf new_poses))) in *.
  set (colors := concat (concat new_imgs)) in *.
  exists ds'. split; [exact Hb|]. split; [|split].
  - unfold len. rewrite Hm, Hmode, Hc, Hcl. reflexivity.
  - intros idx Hidx. unfold getitem. rewrite Hm, Hmode, Ho, Hd, Hc.
    rewrite !nth_error_map.
    destruct (nth_error rows idx) as [row|] eqn:Er;
      [|apply nth_error_None in Er; lia].
    destruct (nth_error colors idx) as [c|] eqn:Ec;
      [|apply nth_error_None in Ec; lia].
    cbn [option_map]. do 3 eexists. split; [reflexivity|].
    rewrite Forall_forall in Hrp, Hcp.
    pose proof (Hrp _ (nth_error_In _ _ Er)) as Hrow.
    pose proof (Hcp _ (nth_error_In _ _ Ec)) as Hcol.
    rewrite length_firstn, length_skipn, Hrow, Hcol. repeat split.
  - intros idx Hidx. unfold getitem. rewrite Hm, Hmode, Ho, Hd, Hc.
    rewrite !nth_error_map.
    destruct (nth_error rows idx) as [row|] eqn:Er;
      [|reflexivity].
    assert (idx < List.length rows) by (apply nth_error_Some; congruence).
    lia.
Qed.

Lemma getitem_in_bounds_witness :
  exists ds',
    build_data Examples.toy_dataset (imgs Examples.toy_dataset)
               (poses Examples.toy_dataset) (hwf Examples.toy_dataset)
      = Ok ds' /\
    len ds' = Ok 2 /\
    getitem ds' 2 = Raise IndexError.
Proof.
  destruct (@getitem_in_bounds Examples.toy_dataset
              (imgs Examples.toy_dataset) (poses Examples.toy_dataset)
              (hwf Examples.toy_dataset) toy_imgs_shaped)
    as [ds' [Hb [Hlen [_ Hout]]]].
  - discriminate.
  - reflexivity.
  - exists ds'. split; [exact Hb|]. split; [exact Hlen|].
    apply Hout. simpl. lia.
Defined.

(** [int(t)] is positive exactly from [t = 1] on. *)
Lemma py_int_pos_iff (t : Q) : (0 < py_int t)%Z <-> (1 <= t)%Q.
Proof.
  unfold py_int, Qle. destruct t as [n d]. simpl.
  rewrite Z.mul_1_r. split.
  - intros Hq.
    destruct (Z.lt_ge_cases n 0) as [Hneg|Hpos].
    + exfalso.
      assert (Hle : (n ÷ Z.pos d <= 0)%Z).
      { replace n with (- (- n))%Z by lia.
        rewrite Z.quot_opp_l by discriminate.
        assert (0 <= (- n) ÷ Z.pos d)%Z by (apply Z.quot_pos; lia). lia. }
      lia.
    + destruct (Z.lt_ge_cases n (Z.pos d)) as [Hlt|Hge]; [|assumption].
      rewrite Z.quot_small in Hq by lia. lia.
  - intros Hge. rewrite Z.quot_div_nonneg by lia.
    apply Z.div_str_pos. lia.
Qed.

(** X10: the resampling transform does nothing for every deviation
    below 1, fractional and negative ones included, because the
    deviation is truncated to an integer before it is tested: it returns
    the stored images and intrinsics and leaves the dataset as it is. *)
Theorem gaussian_downsample_below_one (T : transforms) (ds : dataset)
  (t : Q) :
  (t < 1)%Q ->
  gaussian_downsample T ds t = Ok ((imgs ds, hwf ds), ds).
Proof.
  intros Ht. unfold gaussian_downsample.
  destruct (Z.ltb_spec 0 (py_int t)) as [Hpos|_]; [|reflexivity].
  apply py_int_pos_iff in Hpos. lra.
Qed.

Lemma gaussian_downsample_below_one_witness :
  gaussian_downsample Examples.tiling Examples.toy_dataset (9 # 10) =
    Ok ((imgs Examples.toy_dataset, hwf Examples.toy_dataset),
        Examples.toy_dataset) /\
  gaussian_downsample Examples.tiling Examples.toy_dataset (- (3)) =
    Ok ((imgs Examples.toy_dataset, hwf Examples.toy_dataset),
        Examples.toy_dataset).
Proof.
  split; apply gaussian_downsample_below_one; reflexivity.
Defined.

(** X11: whatever the deviation, a successful call of the resampling
    transform never changes the stored images, poses, intrinsics, mode
    or preview view of the dataset, and the intrinsics it returns have
    the height, the width and the focal length of the stored ones: the
    resize factor is fixed to 1, so no resolution is ever lost. *)
Theorem gaussian_downsample_keeps_source (T : transforms) (ds ds' : dataset)
  (t : Q) (r : list (list (list (list Q))) * intrinsics) :
  gaussian_downsample T ds t = Ok (r, ds') ->
  imgs ds' = imgs ds /\ poses ds' = poses ds /\ hwf ds' = hwf ds /\
  img_mode ds' = img_mode ds /\
  testimg ds' = testimg ds /\ testpose ds' = testpose ds /\
  height (snd r) = height (hwf ds) /\ width (snd r) = width (hwf ds) /\
  (focal (snd r) == focal (hwf ds))%Q.
Proof.
  unfold gaussian_downsample.
  destruct (0 <? py_int t)%Z.
  - unfold downsample. change (Nat.eqb 1 0) with false. cbv iota.
    destruct (Nat.eqb (height (hwf ds) / 1) 0
              || Nat.eqb (width (hwf ds) / 1) 0); [discriminate|].
    cbn [rbind fst snd]. intros H.
    apply rbind_ok in H. destruct H as [ds1 [Hb H]].
    match type of H with
    | Ok (?x, _) = _ =>
        assert (Er : r = x) by congruence;
        assert (Ed : ds' = ds1) by congruence
    end.
    clear H. subst ds'. rewrite Er. apply build_data_fields in Hb.
    destruct Hb as [_ [_ [_ [_ [Hm [Hf [Hti [Htp [Hi Hp]]]]]]]]].
    cbn [snd height width focal]. rewrite !Nat.div_1_r.
    repeat split; try assumption.
    change (inject_Z (Z.of_nat 1)) with 1%Q. field.
  - intros H. injection H as <- <-. simpl. repeat split; reflexivity.
Qed.

Lemma gaussian_downsample_keeps_source_witness :
  exists r ds',
    gaussian_downsample Examples.tiling Examples.toy_dataset 2 = Ok (r, ds') /\
    imgs ds' = imgs Examples.toy_dataset /\
    height (snd r) = 1 /\ width (snd r) = 2.
Proof.
  do 2 eexists.
  assert (Hcall : gaussian_downsample Examples.tiling Examples.toy_dataset 2
                  = Ok (?[r], ?[ds'])) by (vm_compute; reflexivity).
  destruct (gaussian_downsample_keeps_source _ _ _ Hcall)
    as [Hi [_ [_ [_ [_ [_ [Hh [Hw _]]]]]]]].
  split; [exact Hcall|]. split; [exact Hi|]. split; [exact Hh|exact Hw].
Defined.

Lemma build_data_same_source (ds1 ds2 : dataset)
  (new_imgs : list (list (list (list Q))))
  (new_poses : list (list (list Q))) (new_hwf : intrinsics) :
  scene ds1 = scene ds2 -> split ds1 = split ds2 ->
  near ds1 = near ds2 -> far ds1 = far ds2 ->
  img_mode ds1 = img_mode ds2 -> hwf ds1 = hwf ds2 ->
  testimg ds1 = testimg ds2 -> testpose ds1 = testpose ds2 ->
  imgs ds1 = imgs ds2 -> poses ds1 = poses ds2 ->
  build_data ds1 new_imgs new_poses new_hwf =
  build_data ds2 new_imgs new_poses new_hwf.
Proof.
  intros. unfold build_data. destruct new_poses; [reflexivity|].
  destruct (reshape_rows 6 _); [|reflexivity].
  destruct (reshape_rows 3 _); [|reflexivity].
  simpl. congruence.
Qed.

(** X12: a rebuild overwrites the ray table and keeps nothing of the
    previous one.  After any successful call with deviation [t1], a call
    with a deviation [t2 >= 1] returns the same images and intrinsics and
    leaves the same dataset as that call made on the original dataset:
    blurs do not accumulate. *)
Theorem rebuild_overwrites (T : transforms) (ds ds1 : dataset) (t1 t2 : Q)
  (r1 : list (list (list (list Q))) * intrinsics) :
  gaussian_downsample T ds t1 = Ok (r1, ds1) -> (1 <= t2)%Q ->
  gaussian_downsample T ds1 t2 = gaussian_downsample T ds t2.
Proof.
  intros H1 Ht2.
  assert (Hsame : scene ds1 = scene ds /\ split ds1 = split ds /\
                  near ds1 = near ds /\ far ds1 = far ds /\
                  img_mode ds1 = img_mode ds /\ hwf ds1 = hwf ds /\
                  testimg ds1 = testimg ds /\ testpose ds1 = testpose ds /\
                  imgs ds1 = imgs ds /\ poses ds1 = poses ds).
  { unfold gaussian_downsample in H1. destruct (0 <? py_int t1)%Z.
    - apply rbind_ok in H1. destruct H1 as [x [_ H1]].
      apply rbind_ok in H1. destruct H1 as [d [Hb H1]].
      injection H1 as _ <-. apply (build_data_fields _ _ _ _ Hb).
    - injection H1 as _ <-. repeat split. }
  destruct Hsame as [E1 [E2 [E3 [E4 [E5 [E6 [E7 [E8 [E9 E10]]]]]]]]].
  apply py_int_pos_iff in Ht2. apply Z.ltb_lt in Ht2.
  unfold gaussian_downsample. rewrite Ht2, E9, E6, E10.
  destruct (downsample T _ (hwf ds) 1) as [x|e]; [|reflexivity].
  cbn [rbind].
  rewrite (@build_data_same_source ds1 ds (fst x) (poses ds) (snd x));
    auto.
Qed.

Lemma rebuild_overwrites_witness :
  exists r1 ds1,
    gaussian_downsample Examples.tiling Examples.toy_dataset 3 = Ok (r1, ds1) /\
    gaussian_downsample Examples.tiling ds1 1 =
    gaussian_downsample Examples.tiling Examples.toy_dataset 1.
Proof.
  do 2 eexists.
  assert (Hcall : gaussian_downsample Examples.tiling Examples.toy_dataset 3
                  = Ok (?[r1], ?[ds1])) by (vm_compute; reflexivity).
  split; [exact Hcall|].
  apply (rebuild_overwrites _ _ _ Hcall). discriminate.
Defined.

(** X13: [__downsample] composes.  On a batch of images of the height
    and width of the intrinsics, as long as the product [f * g] of two
    positive factors exceeds neither the height nor the width, reducing
    by [f] and then by [g] succeeds and gives the height, width and focal
    length of one reduction by [f * g], and images of that height and
    width; the reduced height and width times the factor never exceed
    the original.  A factor above the height or the width raises the
    [RuntimeError] of [Resize] on an empty target, and a zero factor
    raises [ZeroDivisionError]. *)
Theorem downsample_composes (T : transforms)
  (ims : list (list (list (list Q)))) (i : intrinsics) (n c f g : nat) :
  transforms_ok T -> 0 < n -> 0 < c ->
  shaped n (height i) (width i) c ims ->
  0 < f -> 0 < g ->
  (f * g <= height i -> f * g <= width i ->
   exists ims1 i1 ims2 i2 ims3 i3,
     downsample T ims i f = Ok (ims1, i1) /\
     downsample T ims1 i1 g = Ok (ims2, i2) /\
     downsample T ims i (f * g) = Ok (ims3, i3) /\
     height i2 = height i3 /\ width i2 = width i3 /\
     (focal i2 == focal i3)%Q /\
     0 < height i2 /\ 0 < width i2 /\
     shaped n (height i2) (width i2) c ims2 /\
     shaped n (height i3) (width i3) c ims3 /\
     height i1 * f <= height i /\ width i1 * f <= width i) /\
  (height i < f \/ width i < f ->
   downsample T ims i f = Raise RuntimeError) /\
  downsample T ims i 0 = Raise ZeroDivisionError.
Proof.
  intros [_ Hresize] Hn Hc Hsh Hf Hg.
  assert (Hpos : forall n d, 0 < d -> d <= n -> Nat.eqb (n / d) 0 = false).
  { intros m d Hd Hle. apply Nat.eqb_neq. intros E.
    apply Nat.div_small_iff in E; lia. }
  assert (Hzero : forall n d, 0 < d -> n < d -> Nat.eqb (n / d) 0 = true).
  { intros m d Hd Hlt. apply Nat.eqb_eq. apply Nat.div_small. assumption. }
  split; [|split].
  - intros HH HW.
    assert (Hfg : 0 < f * g) by nia.
    assert (HfH : f <= height i) by nia.
    assert (HfW : f <= width i) by nia.
    assert (HgH : g <= height i / f).
    { apply Nat.div_le_lower_bound; lia. }
    assert (HgW : g <= width i / f).
    { apply Nat.div_le_lower_bound; lia. }
    assert (H1h : 0 < height i / f) by (apply Nat.div_str_pos; lia).
    assert (H1w : 0 < width i / f) by (apply Nat.div_str_pos; lia).
    unfold downsample.
    destruct (Nat.eqb_spec f 0) as [Ef|_]; [lia|].
    destruct (Nat.eqb_spec (f * g) 0) as [Efg|_]; [lia|].
    rewrite (Hpos (height i) f Hf HfH), (Hpos (width i) f Hf HfW).
    rewrite (Hpos (height i) (f * g) Hfg HH), (Hpos (width i) (f * g) Hfg HW).
    cbn [orb].
    destruct (Nat.eqb_spec g 0) as [Eg|_]; [lia|].
    do 6 eexists.
    split; [reflexivity|]. cbn [height width focal].
    rewrite (Hpos (height i / f) g Hg HgH), (Hpos (width i / f) g Hg HgW).
    cbn [orb].
    split; [reflexivity|]. split; [reflexivity|].
    cbn [height width focal]. rewrite !Nat.Div0.div_div.
    split; [reflexivity|]. split; [reflexivity|]. split.
    { rewrite Nat2Z.inj_mul, inject_Z_mult.
      assert (F1 : ~ (inject_Z (Z.of_nat f) == 0)%Q).
      { change 0%Q with (inject_Z 0). rewrite inject_Z_injective. lia. }
      assert (G1 : ~ (inject_Z (Z.of_nat g) == 0)%Q).
      { change 0%Q with (inject_Z 0). rewrite inject_Z_injective. lia. }
      field. split; assumption. }
    split.
    { apply Nat.div_str_pos. lia. }
    split.
    { apply Nat.div_str_pos. lia. }
    split.
    { rewrite <- !Nat.Div0.div_div.
      apply (Hresize _ _ n (height i / f) (width i / f) c);
        [assumption|assumption|].
      apply (Hresize _ _ n (height i) (width i) c); [lia|lia|assumption]. }
    split.
    { apply (Hresize _ _ n (height i) (width i) c); [lia|lia|assumption]. }
    split.
    + rewrite Nat.mul_comm. apply Nat.Div0.mul_div_le.
    + rewrite Nat.mul_comm. apply Nat.Div0.mul_div_le.
  - intros Hbig. unfold downsample.
    destruct (Nat.eqb_spec f 0) as [Ef|_]; [lia|].
    destruct Hbig as [Hb|Hb].
    + rewrite (Hzero _ _ Hf Hb). reflexivity.
    + rewrite (Hzero _ _ Hf Hb). rewrite orb_true_r. reflexivity.
  - reflexivity.
Qed.

Lemma downsample_composes_witness :
  let ims := resize Examples.tiling 12 9 (imgs Examples.toy_dataset) in
  let i := {| height := 12; width := 9; focal := 6 |} in
  (exists i2 i3 ims2 ims3,
     rbind (downsample Examples.tiling ims i 2)
           (fun r => downsample Examples.tiling (fst r) (snd r) 3)
       = Ok (ims2, i2) /\
     downsample Examples.tiling ims i 6 = Ok (ims3, i3) /\
     height i2 = height i3 /\ width i2 = width i3) /\
  downsample Examples.tiling ims i 10 = Raise RuntimeError.
Proof.
  intros ims i.
  assert (Hsh : shaped 1 (height i) (width i) 3 ims).
  { apply (proj2 tiling_ok 12 9 1 1 2 3); [lia|lia|].
    apply toy_imgs_shaped. }
  destruct (@downsample_composes Examples.tiling ims i 1 3 2 3 tiling_ok)
    as [Hok _]; [lia|lia|exact Hsh|lia|lia|].
  destruct (@downsample_composes Examples.tiling ims i 1 3 10 1 tiling_ok)
    as [_ [Hbig _]]; [lia|lia|exact Hsh|lia|lia|].
  split.
  - destruct Hok as [ims1 [i1 [ims2 [i2 [ims3 [i3
      [H1 [H2 [H3 [Hh [Hw _]]]]]]]]]]]; [simpl; lia|simpl; lia|].
    exists i2, i3, ims2, ims3. rewrite H1. cbn [rbind fst snd].
    auto.
  - apply Hbig. right. simpl. lia.
Defined.


End DatasetProps.

(** ** The training loop beyond the claims *)

Module TrainProps.
Import Py PyFacts Train TrainFacts BatchFacts Stream.

(** With a zero validation period an iteration steps the optimizer and
    then fails on [k % args.val_rate]. *)
Lemma body_zero_period (a : args) (E : collaborators) (L : loader) (k : nat)
  (st : tstate) :
  val_rate a = 0%Z ->
  (forall a0, ao a = Some a0 -> ~ (1 - a0 == 0)%Q) ->
  can_draw L st ->
  snd (body a E L k st) = Raise ZeroDivisionError /\
  stepped (trace (fst (body a E L k st))) = stepped (trace st) ++ [k] /\
  validated (trace (fst (body a E L k st))) = validated (trace st) /\
  logged (trace (fst (body a E L k st))) = logged (trace st).
Proof.
  intros Hz Hao Hd. unfold stepped, validated, logged.
  body_cases a L k st;
    try (rewrite Hz in Evr; discriminate);
    try (destruct Hd; congruence);
    try use_coefficient Hao;
    rewrite ?flat_map_app; simpl; rewrite ?app_nil_r; auto.
Qed.

(** X14: with a validation period of zero and at least one iteration,
    [train] makes the optimizer step of iteration 0 and then raises
    [ZeroDivisionError]; nothing is validated and nothing is logged. *)
Theorem zero_period_fails (a : args) (E : collaborators) (L : loader) :
  val_rate a = 0%Z ->
  (forall a0, ao a = Some a0 -> ~ (1 - a0 == 0)%Q) ->
  loader_ok L -> 0 < n_samples L -> 0 < n_iters a ->
  snd (train a E L) = Raise ZeroDivisionError /\
  stepped (trace (fst (train a E L))) = [0] /\
  validated (trace (fst (train a E L))) = [] /\
  logged (trace (fst (train a E L))) = [].
Proof.
  intros Hz Hao HL Hn Hit. unfold train.
  destruct (n_iters a) as [|m]; [lia|]. simpl seq. rewrite loop_cons.
  destruct (@body_zero_period a E L 0 (initial L) Hz Hao
              (can_draw_any (initial L) HL Hn)) as [Hr [Hs [Hv Hl]]].
  destruct (body a E L 0 (initial L)) as [st1 r]. simpl in *. subst r.
  auto.
Qed.

Lemma zero_period_fails_witness :
  snd (train {| n_iters := 4; val_rate := 0; debug := true; no_val := false;
                beta := None; ao := None; reg := "l1"%string;
                reg_ratio := (1 # 2)%Q; Td := 4 |}
             Examples.unit_loss Examples.loader3) = Raise ZeroDivisionError.
Proof.
  eapply zero_period_fails.
  - reflexivity.
  - intros a0 H. discriminate.
  - apply loader3_ok.
  - simpl. lia.
  - simpl. lia.
Defined.

(** With a floor equal to 1 the coefficient cannot be computed. *)
Lemma body_unit_floor (a : args) (E : collaborators) (L : loader) (k : nat)
  (st : tstate) (a0 : Q) :
  ao a = Some a0 -> (a0 == 1)%Q -> (Z.of_nat k < window a)%Z ->
  can_draw L st ->
  snd (body a E L k st) = Raise ZeroDivisionError /\
  trace (fst (body a E L k st)) = trace st.
Proof.
  intros Hao H1 Hk Hd.
  assert (Hc : coefficient a0 (window a) k = Raise ZeroDivisionError).
  { unfold coefficient.
    destruct (Qeq_bool (1 - a0) 0) eqn:Eq; [reflexivity|].
    apply Qeq_bool_neq in Eq. exfalso. apply Eq. rewrite H1. reflexivity. }
  apply Z.ltb_lt in Hk.
  unfold body, bind, set_train, next_batch, freq_regularizer, set_iterator,
    raise.
  simpl. rewrite Hao, Hk, Hc.
  destruct (iterator st) as [|b rest] eqn:Eit; simpl; auto.
  destruct (batches L (shuffles L (epochs st))) as [|b rest] eqn:Ebt;
    simpl; auto.
  destruct Hd; congruence.
Qed.

(** X15: with a floor [ao] equal to 1 and a non-empty window, [train]
    raises [ZeroDivisionError] in the regularizer block of iteration 0,
    before any optimizer step, validation or log. *)
Theorem unit_floor_fails (a : args) (E : collaborators) (L : loader)
  (a0 : Q) :
  ao a = Some a0 -> (a0 == 1)%Q -> (0 < window a)%Z ->
  loader_ok L -> 0 < n_samples L -> 0 < n_iters a ->
  snd (train a E L) = Raise ZeroDivisionError /\
  trace (fst (train a E L)) = [].
Proof.
  intros Hao H1 Hw HL Hn Hit. unfold train.
  destruct (n_iters a) as [|m]; [lia|]. simpl seq. rewrite loop_cons.
  destruct (@body_unit_floor a E L 0 (initial L) a0 Hao H1 Hw
              (can_draw_any (initial L) HL Hn)) as [Hr Ht].
  destruct (body a E L 0 (initial L)) as [st1 r]. simpl in *. subst r.
  auto.
Qed.

Lemma unit_floor_fails_witness :
  snd (train {| n_iters := 4; val_rate := 2; debug := true; no_val := false;
                beta := None; ao := Some 1%Q; reg := "l1"%string;
                reg_ratio := (1 # 2)%Q; Td := 4 |}
             Examples.unit_loss Examples.loader3) = Raise ZeroDivisionError /\
  trace (fst (train {| n_iters := 4; val_rate := 2; debug := true;
                       no_val := false; beta := None; ao := Some 1%Q;
                       reg := "l1"%string; reg_ratio := (1 # 2)%Q; Td := 4 |}
                    Examples.unit_loss Examples.loader3)) = [].
Proof.
  eapply unit_floor_fails.
  - reflexivity.
  - reflexivity.
  - reflexivity.
  - apply loader3_ok.
  - simpl. lia.
  - simpl. lia.
Defined.

(** Inside the window [alpha] is rebound to the closed form of the
    current iteration; after it, it keeps the closed form of the last
    iteration of the window. *)
Lemma alpha_after_value (a : args) (a0 : Q) (k : nat) (before : option Q) :
  ao a = Some a0 -> (0 < window a)%Z ->
  k = 0 \/
  before = Some (closed_form a0 (window a) (last_in_window a (k - 1))) ->
  alpha_after a k before =
    Some (closed_form a0 (window a) (last_in_window a k)).
Proof.
  intros Hao Hw Hk. unfold alpha_after, last_in_window in *. rewrite Hao.
  destruct (Z.ltb_spec (Z.of_nat k) (window a)) as [Hin|Hout].
  - replace (Nat.min k (Z.to_nat (window a) - 1)) with k by lia.
    reflexivity.
  - destruct Hk as [-> | ->]; [simpl in Hout; lia|].
    do 2 f_equal. lia.
Qed.

Lemma loop_logged_values (a : args) (E : collaborators) (L : loader)
  (a0 : Q) :
  arithmetic_ok a -> (forall st, can_draw L st) ->
  ao a = Some a0 -> (0 < window a)%Z ->
  forall n s st,
    s = 0 \/
    alpha st = Some (closed_form a0 (window a) (last_in_window a (s - 1))) ->
    logged (trace (fst (loop (body a E L) (seq s n) st))) =
      logged (trace st) ++
      map (fun k => (k, closed_form a0 (window a) (last_in_window a k)))
          (filter (emits_metrics a) (seq s n)).
Proof.
  intros Har Hdraw Hao Hw. induction n as [|n IH]; intros s st Hs.
  - simpl. rewrite app_nil_r. reflexivity.
  - simpl seq. rewrite loop_cons.
    destruct (body_result E s Har (Hdraw st)) as [Hal [Hres [Hlog _]]].
    rewrite (@alpha_after_value a a0 s (alpha st) Hao Hw Hs)
      in Hal, Hres, Hlog.
    destruct (body a E L s st) as [st1 r] eqn:Eb. simpl in *.
    assert (Hr : r = Ok tt)
      by (rewrite Hres; destruct (reads_alpha a s); reflexivity).
    rewrite Hr, (IH (S s) st1), Hlog, <- app_assoc.
    + f_equal. destruct (emits_metrics a s); reflexivity.
    + right. rewrite Hal. do 3 f_equal. lia.
Qed.

(** X16: with the frequency regularizer active (floor [a0] different
    from 1, window [Ts > 0]) and logging on, the coefficient reported at
    every emitting iteration [k] is the closed form at [min(k, Ts - 1)]:
    the current value inside the window, and from the end of the window
    on the frozen value of iteration [Ts - 1]. *)
Theorem logged_alpha_values (a : args) (E : collaborators) (L : loader)
  (a0 : Q) :
  loader_ok L -> 0 < n_samples L -> arithmetic_ok a ->
  ao a = Some a0 -> (0 < window a)%Z ->
  logged (trace (fst (train a E L))) =
    map (fun k => (k, closed_form a0 (window a) (last_in_window a k)))
        (filter (emits_metrics a) (seq 0 (n_iters a))).
Proof.
  intros HL Hn Har Hao Hw. unfold train.
  rewrite (@loop_logged_values a E L a0 Har
             (fun st => can_draw_any st HL Hn) Hao Hw (n_iters a) 0
             (initial L)) by (left; reflexivity).
  reflexivity.
Qed.

Lemma regularized_args_ok : arithmetic_ok Examples.regularized_args.
Proof.
  split; simpl; [discriminate|].
  intros a0 H. injection H as <-. discriminate.
Qed.

Lemma logged_alpha_values_witness :
  logged (trace (fst (train Examples.regularized_args Examples.unit_loss
                            Examples.loader3))) =
    [(1, closed_form (1 # 2) 2 1); (2, closed_form (1 # 2) 2 1)].
Proof.
  rewrite (@logged_alpha_values Examples.regularized_args Examples.unit_loss
             Examples.loader3 (1 # 2)%Q).
  - reflexivity.
  - apply loader3_ok.
  - simpl. lia.
  - apply regularized_args_ok.
  - reflexivity.
  - reflexivity.
Defined.

Lemma firstn_extend {A : Type} (l : list A) (n m : nat) :
  firstn (n + m) l = firstn n l ++ firstn m (skipn n l).
Proof.
  revert l. induction n as [|n IH]; intros [|x l]; simpl; auto.
  - rewrite firstn_nil. reflexivity.
  - rewrite IH. reflexivity.
Qed.

(** Consecutive slices of width [b] make up a prefix. *)
Lemma concat_slices {A : Type} (l : list A) (b q : nat) :
  concat (map (fun r => slice l (r * b) (r * b + b)) (seq 0 q)) =
  firstn (q * b) l.
Proof.
  induction q as [|q IH]; [reflexivity|].
  rewrite seq_S, map_app, concat_app, IH. simpl.
  rewrite app_nil_r. unfold slice.
  replace (q * b + b - q * b) with b by lia.
  rewrite <- firstn_extend. f_equal. lia.
Qed.

(** The batches of an epoch, put end to end, are the shuffled order. *)
Lemma batches_concat (L : loader) (order : list nat) :
  0 < batch_size L -> concat (batches L order) = order.
Proof.
  intros Hb. unfold batches, range_step. rewrite map_map.
  rewrite (concat_slices order (batch_size L)).
  apply firstn_all2.
  pose proof (Nat.div_mod_eq (List.length order + batch_size L - 1)
                             (batch_size L)) as Hdm.
  pose proof (Nat.mod_upper_bound (List.length order + batch_size L - 1)
                                  (batch_size L)) as Hr.
  nia.
Qed.

Lemma epoch_stream_S (L : loader) (e : nat) :
  epoch_stream L (S e) = epoch_stream L e ++ batches L (shuffles L e).
Proof.
  unfold epoch_stream. rewrite seq_S, flat_map_app. simpl.
  rewrite app_nil_r. reflexivity.
Qed.

Lemma draw_epochs (L : loader) :
  (forall st, can_draw L st) ->
  forall e,
    draw L (List.length (epoch_stream L (S e))) (initial L) =
    (set_iterator [] (S e) (initial L), Ok (epoch_stream L (S e))).
Proof.
  intros Hd. induction e as [|e IH].
  - unfold epoch_stream. simpl. rewrite app_nil_r.
    apply draw_pending. simpl. rewrite app_nil_r. reflexivity.
  - rewrite (epoch_stream_S L (S e)), length_app.
    set (st := set_iterator [] (S e) (initial L)) in *.
    pose proof (@draw_fresh L st eq_refl) as Hf.
    change (epochs st) with (S e) in Hf.
    assert (Hne : batches L (shuffles L (S e)) <> []).
    { destruct (Hd st) as [H|H]; [exfalso; apply H; reflexivity|exact H]. }
    apply (@draw_add L _ _ _ _ _ _ _ IH (Hf Hne)).
Qed.

(** X17: for every batch size, the batches the loop draws are whole
    epochs in shuffle order: drawing as many batches as the first [e]
    epochs hold succeeds, returns the batches of shuffle 0, then those of
    shuffle 1, and so on, never mixing two shuffles in one batch, and
    leaves the iterator exhausted after [e] calls of [iter]; over these
    draws every sample is visited exactly [e] times. *)
Theorem epochs_in_order (L : loader) (e : nat) :
  loader_ok L -> 0 < n_samples L -> 0 < e ->
  draw L (List.length (epoch_stream L e)) (initial L) =
    (set_iterator [] e (initial L), Ok (epoch_stream L e)) /\
  forall s, s < n_samples L ->
    count_occ Nat.eq_dec (concat (epoch_stream L e)) s = e.
Proof.
  intros HL Hn He. split.
  - destruct e as [|e]; [lia|].
    apply draw_epochs. intros st. apply can_draw_any; assumption.
  - intros s Hs. destruct HL as [Hb Hperm]. clear He.
    induction e as [|e IH]; [reflexivity|].
    rewrite epoch_stream_S, concat_app, count_occ_app, IH.
    rewrite (batches_concat L _ Hb).
    rewrite (count_occ_shuffle (Hperm e) Hs). lia.
Qed.

Lemma epochs_in_order_witness :
  snd (draw {| n_samples := 3; batch_size := 2;
               shuffles := shuffles Examples.loader3 |} 4
            (initial {| n_samples := 3; batch_size := 2;
                        shuffles := shuffles Examples.loader3 |})) =
    Ok [[2; 0]; [1]; [1; 2]; [0]].
Proof.
  destruct (@epochs_in_order {| n_samples := 3; batch_size := 2;
                                shuffles := shuffles Examples.loader3 |} 2)
    as [Hdraw _].
  - split; [simpl; lia|]. apply loader3_ok.
  - simpl. lia.
  - lia.
  - change 4 with (List.length
                     (epoch_stream {| n_samples := 3; batch_size := 2;
                                      shuffles := shuffles Examples.loader3 |}
                                   2)).
    rewrite Hdraw. reflexivity.
Defined.

(** The modes an iteration leaves behind when it completes. *)
Lemma body_modes (a : args) (E : collaborators) (L : loader) (k : nat)
  (st : tstate) :
  snd (body a E L k st) = Ok tt ->
  model_training (fst (body a E L k st)) = negb (validation_due a k) /\
  estimator_training (fst (body a E L k st)) = negb (validation_due a k).
Proof.
  unfold validation_due.
  body_cases a L k st; intros H; try discriminate H; auto.
Qed.

Lemma loop_app (f : nat -> M unit) (l1 l2 : list nat) (st : tstate) :
  loop f (l1 ++ l2) st =
  match loop f l1 st with
  | (st1, Ok _) => loop f l2 st1
  | (st1, Raise e) => (st1, Raise e)
  end.
Proof.
  revert st. induction l1 as [|k l1 IH]; intros st; [reflexivity|].
  simpl app. rewrite !loop_cons.
  destruct (f k st) as [st1 [u|e]]; [apply IH|reflexivity].
Qed.

(** X18: when [train] returns after at least one iteration, it leaves
    the model and the accelerator in evaluation mode if the last
    iteration ran a validation pass, and in training mode otherwise. *)
Theorem final_modes (a : args) (E : collaborators) (L : loader) :
  0 < n_iters a -> snd (train a E L) = Ok tt ->
  model_training (fst (train a E L)) =
    negb (validation_due a (n_iters a - 1)) /\
  estimator_training (fst (train a E L)) =
    negb (validation_due a (n_iters a - 1)).
Proof.
  unfold train. intros Hn.
  destruct (n_iters a) as [|m]; [lia|].
  replace (S m - 1) with m by lia.
  rewrite seq_S, loop_app. simpl Nat.add.
  destruct (loop (body a E L) (seq 0 m) (initial L)) as [st1 [u|e]];
    [|discriminate].
  rewrite loop_cons. pose proof (body_modes a E L m st1) as Hb.
  destruct (body a E L m st1) as [st2 [u2|e2]]; [|discriminate].
  intros _. simpl in *. destruct u2. apply Hb. reflexivity.
Qed.

Lemma final_modes_witness :
  model_training (fst (train Examples.quiet_args Examples.unit_loss
                             Examples.loader3)) = true /\
  estimator_training (fst (train Examples.quiet_args Examples.unit_loss
                                 Examples.loader3)) = true.
Proof.
  apply (@final_modes Examples.quiet_args Examples.unit_loss
           Examples.loader3).
  - simpl. lia.
  - reflexivity.
Defined.

Lemma prefix_spec (n s : string) :
  String.prefix n s = true <-> exists post, s = (n ++ post)%string.
Proof.
  revert s. induction n as [|c n IH]; intros s.
  - split; [intros _; exists s; reflexivity|].
    intros _. destruct s; reflexivity.
  - destruct s as [|c' s]; simpl.
    + split; [discriminate|]. intros [post H]. discriminate.
    + destruct (Ascii.ascii_dec c c') as [->|Hne].
      * rewrite IH. split; intros [post H]; exists post; congruence.
      * split; [discriminate|]. intros [post H]. congruence.
Qed.

(** [contains needle s] decides whether [needle] occurs in [s]. *)
Lemma contains_spec (n s : string) :
  contains n s = true <-> exists pre post, s = (pre ++ n ++ post)%string.
Proof.
  induction s as [|c s IH].
  - cbn [contains]. rewrite orb_false_r, prefix_spec. split.
    + intros [post H]. exists EmptyString, post. exact H.
    + intros [pre [post H]]. destruct pre; [eauto|discriminate].
  - cbn [contains]. rewrite orb_true_iff, prefix_spec, IH. split.
    + intros [[post H]|[pre [post H]]].
      * exists EmptyString, post. exact H.
      * exists (String c pre), post. simpl. congruence.
    + intros [pre [post H]]. destruct pre as [|c0 pre].
      * left. eauto.
      * right. simpl in H. injection H as _ H. eauto.
Qed.

Lemma penalized_spec (p : param) :
  penalized p = true <->
  (exists pre post, pname p = (pre ++ "weight" ++ post)%string) /\
  3 < lead_dim p.
Proof.
  unfold penalized. rewrite andb_true_iff, contains_spec, Nat.ltb_lt.
  reflexivity.
Qed.

Lemma feq_trans (x y z : float) : feq x y -> feq y z -> feq x z.
Proof.
  destruct x, y, z; simpl; try tauto. intros H1 H2. rewrite H1. exact H2.
Qed.

Lemma fadd_swap (x c n : float) :
  feq (fadd (fadd x c) n) (fadd (fadd x n) c).
Proof.
  destruct x, c, n; simpl; try exact I. ring.
Qed.

Lemma fadd_feq (x y c : float) : feq x y -> feq (fadd x c) (fadd y c).
Proof.
  destruct x, y, c; simpl; try tauto. intros H. rewrite H. reflexivity.
Qed.

(** The loop of lines 277-282 from an accumulator [acc]. *)
Lemma penalty_loop_feq (a : args) (ps : list param) (x y : float) :
  feq x y ->
  feq (fold_left (fun acc p => if penalized p then fadd acc (norm_of a p)
                               else acc) ps x)
      (fold_left (fun acc p => if penalized p then fadd acc (norm_of a p)
                               else acc) ps y).
Proof.
  revert x y. induction ps as [|p ps IH]; intros x y H; simpl; [exact H|].
  apply IH. destruct (penalized p); [apply fadd_feq|]; assumption.
Qed.

Lemma penalty_loop_shift (a : args) (ps : list param) (x c : float) :
  feq (fold_left (fun acc p => if penalized p then fadd acc (norm_of a p)
                               else acc) ps (fadd x c))
      (fadd (fold_left (fun acc p => if penalized p
                                     then fadd acc (norm_of a p)
                                     else acc) ps x) c).
Proof.
  revert x. induction ps as [|p ps IH]; intros x; simpl.
  - destruct (fadd x c); simpl; [reflexivity|exact I].
  - destruct (penalized p); [|apply IH].
    eapply feq_trans; [|apply IH].
    apply penalty_loop_feq. apply fadd_swap.
Qed.

Lemma weight_penalty_loop (a : args) (ps : list param) :
  weight_penalty a ps =
  fold_left (fun acc p => if penalized p then fadd acc (norm_of a p)
                          else acc) ps (Finite 0).
Proof.
  unfold weight_penalty. generalize (Finite 0).
  induction ps as [|p ps IH]; intros acc; simpl; [reflexivity|].
  rewrite IH. unfold penalized, norm_of.
  destruct (contains "weight" (pname p) && (3 <? lead_dim p));
    [destruct (String.eqb (reg a) "l1")|]; reflexivity.
Qed.

(** X19: what the weight penalty of lines 277-282 sums.  It starts from
    zero; a parameter whose name has the substring [weight] and whose
    leading dimension exceeds 3 adds its norm to the penalty, the sum of
    absolute values under ['l1'] and the Euclidean norm otherwise,
    wherever it stands among the parameters; any other parameter (a
    bias, or a weight with three rows or fewer such as a three-channel
    output layer) adds nothing. *)
Theorem weight_penalty_counts (a : args) (p : param)
  (ps1 ps2 : list param) :
  weight_penalty a [] = Finite 0 /\
  ((exists pre post, pname p = (pre ++ "weight" ++ post)%string) /\
   3 < lead_dim p ->
   feq (weight_penalty a (ps1 ++ p :: ps2))
       (fadd (weight_penalty a (ps1 ++ ps2))
             (if String.eqb (reg a) "l1" then abs_sum p else l2_norm p))) /\
  (~ ((exists pre post, pname p = (pre ++ "weight" ++ post)%string) /\
      3 < lead_dim p) ->
   weight_penalty a (ps1 ++ p :: ps2) = weight_penalty a (ps1 ++ ps2)).
Proof.
  split; [reflexivity|]. split.
  - intros Hp. apply penalized_spec in Hp.
    rewrite !weight_penalty_loop, !fold_left_app. simpl. rewrite Hp.
    apply penalty_loop_shift.
  - intros Hp.
    assert (Hf : penalized p = false).
    { destruct (penalized p) eqn:E; [|reflexivity].
      apply penalized_spec in E. contradiction. }
    rewrite !weight_penalty_loop, !fold_left_app. simpl. rewrite Hf.
    reflexivity.
Qed.

Lemma weight_penalty_counts_witness :
  feq (weight_penalty Examples.quiet_args
         ([{| pname := "rgb.weight"; lead_dim := 3;
              abs_sum := Finite 7; l2_norm := Finite 5 |}] ++
          {| pname := "net.0.weight"; lead_dim := 256;
             abs_sum := Finite 2; l2_norm := Finite 1 |} ::
          [{| pname := "net.0.bias"; lead_dim := 256;
              abs_sum := Finite 3; l2_norm := Finite 1 |}]))
      (Finite 2).
Proof.
  destruct (@weight_penalty_counts Examples.quiet_args
              {| pname := "net.0.weight"; lead_dim := 256;
                 abs_sum := Finite 2; l2_norm := Finite 1 |}
              [{| pname := "rgb.weight"; lead_dim := 3;
                  abs_sum := Finite 7; l2_norm := Finite 5 |}]
              [{| pname := "net.0.bias"; lead_dim := 256;
                  abs_sum := Finite 3; l2_norm := Finite 1 |}])
    as [_ [Hadd _]].
  eapply feq_trans.
  - apply Hadd. split; [|simpl; lia].
    exists "net.0."%string, ""%string. reflexivity.
  - reflexivity.
Defined.

End TrainProps.

(** ** How the View Selector breaks ties *)

Module SelectionProps.
Import Py PyFacts ViewSelector ViewSelectorFacts.

Lemma dist_ltb_below (x y bv : dist) :
  dist_ltb x bv = true -> dist_ltb y bv = false -> dist_ltb x y = true.
Proof.
  destruct x as [x|], y as [y|], bv as [b|]; simpl; try congruence.
  intros Hx Hy.
  apply negb_true_iff in Hx. apply negb_false_iff in Hy.
  apply negb_true_iff. apply Qle_bool_iff in Hy.
  destruct (Qle_bool y x) eqn:E; [|reflexivity].
  apply Qle_bool_iff in E.
  assert (Hbx : (b <= x)%Q) by (eapply Qle_trans; eassumption).
  apply Qle_bool_iff in Hbx. congruence.
Qed.

(** The scan returns the first position of the minimum: every earlier
    entry is strictly above the entry it returns. *)
Lemma argmin_scan_first (l pre : list dist) (best : nat) (bv : dist) :
  nth_error pre best = Some bv ->
  (forall y, In y pre -> dist_ltb y bv = false) ->
  (forall j y, j < best -> nth_error pre j = Some y -> dist_ltb bv y = true) ->
  exists v,
    nth_error (pre ++ l) (argmin_scan l (List.length pre) best bv) = Some v /\
    forall j y, j < argmin_scan l (List.length pre) best bv ->
      nth_error (pre ++ l) j = Some y -> dist_ltb v y = true.
Proof.
  revert pre best bv.
  induction l as [|x t IH]; intros pre best bv Hbest Hmin Hfirst; simpl.
  - exists bv. rewrite app_nil_r. auto.
  - assert (Hb : best < List.length pre)
      by (apply nth_error_Some; congruence).
    replace (pre ++ x :: t) with ((pre ++ [x]) ++ t)
      by (rewrite <- app_assoc; reflexivity).
    replace (S (List.length pre)) with (List.length (pre ++ [x]))
      by (rewrite length_app; simpl; lia).
    destruct (dist_ltb x bv) eqn:Hx.
    + apply IH.
      * rewrite nth_error_app2 by lia. rewrite Nat.sub_diag. reflexivity.
      * intros y Hy. apply in_app_or in Hy. destruct Hy as [Hy|[<-|[]]].
        -- eapply dist_ltb_chain; eauto.
        -- apply dist_ltb_irrefl.
      * intros j y Hj Hy. rewrite nth_error_app1 in Hy by assumption.
        eapply dist_ltb_below; [exact Hx|].
        apply Hmin. eapply nth_error_In. exact Hy.
    + apply IH.
      * rewrite nth_error_app1 by assumption. assumption.
      * intros y Hy. apply in_app_or in Hy. destruct Hy as [Hy|[<-|[]]]; auto.
      * intros j y Hj Hy. rewrite nth_error_app1 in Hy by lia.
        eapply Hfirst; eauto.
Qed.

Lemma argmin_first (l : list dist) (r : nat) :
  argmin l = Ok r ->
  exists v, nth_error l r = Some v /\
            forall j y, j < r -> nth_error l j = Some y ->
                        dist_ltb v y = true.
Proof.
  destruct l as [|x t]; simpl; [discriminate|].
  intros H. injection H as <-.
  apply (@argmin_scan_first t [x] 0 x).
  - reflexivity.
  - intros y [<-|[]]. apply dist_ltb_irrefl.
  - intros j y Hj. lia.
Qed.

(** X20: ties are broken by position.  The view returned for a cluster
    that has members is its first member at minimal distance: every
    member with a smaller index lies strictly farther from the centre.
    The view returned for a cluster without members is view 0. *)
Theorem selection_breaks_ties (labels : list nat) (dists : list Q)
  (k : nat) (idxs : list nat) :
  List.length labels = List.length dists ->
  select labels dists k = Ok idxs ->
  forall i j, nth_error idxs i = Some j ->
    (member labels i j ->
     forall j' d d', j' < j -> member labels i j' ->
       nth_error dists j = Some d -> nth_error dists j' = Some d' ->
       (d < d')%Q) /\
    ((forall j', ~ member labels i j') -> j = 0).
Proof.
  intros Hlen Hsel i j Hij. unfold select in Hsel.
  destruct (select_loop_nth _ _ _ Hsel) as [_ Hn].
  destruct (Hn _ _ Hij) as [c [Hc Harg]].
  apply seq_nth_error in Hc. destruct Hc as [-> _].
  destruct (argmin_first _ Harg) as [v [Hv Hfirst]].
  rewrite np_where_nth in Hv. split.
  - intros Hm j' d d' Hlt Hm' Hd Hd'.
    unfold member in Hm, Hm'. rewrite Hm, Hd, Nat.eqb_refl in Hv.
    injection Hv as <-.
    assert (Hy : nth_error (np_where labels i dists) j' = Some (Fin d'))
      by (rewrite np_where_nth, Hm', Hd', Nat.eqb_refl; reflexivity).
    specialize (Hfirst _ _ Hlt Hy). simpl in Hfirst.
    apply negb_true_iff in Hfirst.
    destruct (Qlt_le_dec d d') as [H|H]; [assumption|].
    apply Qle_bool_iff in H. congruence.
  - intros Hnone. destruct j as [|j]; [reflexivity|]. exfalso.
    destruct (nth_error labels (S j)) as [l|] eqn:El; [|discriminate].
    destruct (nth_error dists (S j)) as [d|] eqn:Ed; [|discriminate].
    destruct (Nat.eqb_spec l i) as [->|Hne].
    + apply (Hnone (S j)). exact El.
    + injection Hv as <-.
      destruct (nth_error (np_where labels i dists) 0) as [y|] eqn:E0.
      * specialize (Hfirst 0 y (Nat.lt_0_succ j) E0). discriminate.
      * apply nth_error_None in E0.
        assert (S j < List.length (np_where labels i dists)).
        { apply nth_error_Some. rewrite np_where_nth, El, Ed. discriminate. }
        lia.
Qed.

Lemma selection_breaks_ties_witness :
  exists idxs,
    select [1; 0; 0; 1] [0; 3 # 2; 3 # 2; 0]%Q 3 = Ok idxs /\
    forall j, nth_error idxs 2 = Some j -> j = 0.
Proof.
  exists [1; 0; 0].
  assert (Hsel : select [1; 0; 0; 1] [0; 3 # 2; 3 # 2; 0]%Q 3 = Ok [1; 0; 0])
    by reflexivity.
  split; [exact Hsel|]. intros j Hj.
  destruct (@selection_breaks_ties [1; 0; 0; 1] [0; 3 # 2; 3 # 2; 0]%Q 3
              [1; 0; 0] eq_refl Hsel 2 j Hj) as [_ Hempty].
  apply Hempty. intros j' Hm.
  destruct j' as [|[|[|[|j']]]]; try discriminate Hm.
  destruct j'; discriminate Hm.
Defined.

End SelectionProps.

(** ** Scene Loader *)

Module LoaderFacts.
Import Py PyFacts Dataset DatasetFacts DatasetProps Loader.

Lemma shape2_eqb_eq (x y : nat * nat) : shape2_eqb x y = true <-> x = y.
Proof.
  destruct x as [a b], y as [c d]. unfold shape2_eqb. simpl.
  rewrite andb_true_iff, !Nat.eqb_eq. split.
  - intros [-> ->]. reflexivity.
  - intros H. injection H as -> ->. auto.
Qed.

Lemma shape3_eqb_eq (x y : nat * nat * nat) : shape3_eqb x y = true <-> x = y.
Proof.
  destruct x as [p a], y as [q b]. unfold shape3_eqb. simpl.
  rewrite andb_true_iff, shape2_eqb_eq, Nat.eqb_eq. split.
  - intros [-> ->]. reflexivity.
  - intros H. injection H as -> ->. auto.
Qed.

Lemma stack_ok {A S : Type} (shape : A -> S) (eqb : S -> S -> bool)
  (arrs xs : list A) :
  stack shape eqb arrs = Ok xs ->
  xs = arrs /\
  exists first rest,
    arrs = first :: rest /\
    Forall (fun x => eqb (shape x) (shape first) = true) rest.
Proof.
  unfold stack. destruct arrs as [|first rest]; [discriminate|].
  destruct (forallb _ rest) eqn:E; [|discriminate].
  intros H. injection H as <-. split; [reflexivity|].
  exists first, rest. split; [reflexivity|].
  apply Forall_forall. rewrite forallb_forall in E. exact E.
Qed.

Lemma stack_raises {A S : Type} (shape : A -> S) (eqb : S -> S -> bool)
  (arrs : list A) (e : exn) :
  stack shape eqb arrs = Raise e -> e = ValueError.
Proof.
  unfold stack. destruct arrs as [|first rest]; [congruence|].
  destruct (forallb _ rest); congruence.
Qed.

Lemma load_ok_inv (frames : list frame) (tan_half_fov : Q)
  (images : list image) (ps : list pose) (H W : nat) (f : float) :
  load frames tan_half_fov = Ok (images, ps, (H, W, f)) ->
  exists first rest,
    frames = first :: rest /\
    Forall (fun fr =>
              shape2 (transform_matrix fr) = shape2 (transform_matrix first) /\
              shape3 (pixels fr) = shape3 (pixels first)) rest /\
    images = map (map (map (map scale))) (map pixels frames) /\
    ps = map transform_matrix frames /\
    H = List.length (pixels first) /\
    W = List.length (hd [] (pixels first)) /\
    f = if Qeq_bool tan_half_fov 0 then NonFinite
        else Finite ((1 # 2) * inject_Z (Z.of_nat W) / tan_half_fov)%Q.
Proof.
  intros Hl. unfold load in Hl.
  apply rbind_ok in Hl. destruct Hl as [ps0 [Hps Hl]].
  apply rbind_ok in Hl. destruct Hl as [raw [Hraw Hl]].
  apply stack_ok in Hps. destruct Hps as [-> [p0 [prest [Ep Hp]]]].
  apply stack_ok in Hraw. destruct Hraw as [-> [r0 [rrest [Er Hr]]]].
  destruct frames as [|first rest]; [discriminate|].
  simpl in Ep, Er. injection Ep as <- <-. injection Er as <- <-.
  exists first, rest. split; [reflexivity|].
  split.
  { rewrite Forall_map in Hp, Hr. rewrite Forall_forall in *.
    intros fr Hfr. split.
    - apply shape2_eqb_eq. apply Hp. assumption.
    - apply shape3_eqb_eq. apply Hr. assumption. }
  cbn [map hd] in Hl. injection Hl as <- <- <- <- <-.
  cbn [map]. repeat split; reflexivity.
Qed.

Lemma load_same_shapes (first : frame) (rest : list frame)
  (tan_half_fov : Q) :
  Forall (fun fr =>
            shape2 (transform_matrix fr) = shape2 (transform_matrix first) /\
            shape3 (pixels fr) = shape3 (pixels first)) rest ->
  exists r, load (first :: rest) tan_half_fov = Ok r.
Proof.
  intros Hall. unfold load, stack. simpl map.
  assert (H2 : forallb (fun x => shape2_eqb (shape2 x)
                                   (shape2 (transform_matrix first)))
                 (map transform_matrix rest) = true).
  { apply forallb_forall. intros x Hx. apply in_map_iff in Hx.
    destruct Hx as [fr [<- Hfr]]. rewrite Forall_forall in Hall.
    apply shape2_eqb_eq. apply (Hall fr Hfr). }
  assert (H3 : forallb (fun x => shape3_eqb (shape3 x)
                                   (shape3 (pixels first)))
                 (map pixels rest) = true).
  { apply forallb_forall. intros x Hx. apply in_map_iff in Hx.
    destruct Hx as [fr [<- Hfr]]. rewrite Forall_forall in Hall.
    apply shape3_eqb_eq. apply (Hall fr Hfr). }
  cbv iota. rewrite H2. cbn [rbind]. rewrite H3. cbn [rbind]. eauto.
Qed.

Lemma load_raises (frames : list frame) (tan_half_fov : Q) (e : exn) :
  load frames tan_half_fov = Raise e -> e = ValueError.
Proof.
  intros H. unfold load in H.
  destruct (stack shape2 shape2_eqb (map transform_matrix frames))
    as [ps|e1] eqn:E1.
  - cbn [rbind] in H.
    destruct (stack shape3 shape3_eqb (map pixels frames))
      as [raw|e2] eqn:E2.
    + discriminate.
    + cbn [rbind] in H. injection H as <-.
      apply (stack_raises _ _ _ E2).
  - cbn [rbind] in H. injection H as <-. apply (stack_raises _ _ _ E1).
Qed.

Lemma array3_shape (h w c : nat) (im : list (list (list nat))) :
  0 < h -> 0 < w -> array3 h w c im -> shape3 im = (h, w, c).
Proof.
  intros Hh Hw [Hl Hrows]. unfold shape3.
  destruct im as [|row im']; [simpl in Hl; lia|].
  inversion Hrows as [|? ? [Hrw Hpx] _]; subst. cbn [hd].
  destruct row as [|px row']; [simpl in Hw; lia|].
  inversion Hpx as [|? ? [Hc _] _]; subst. reflexivity.
Qed.

Lemma is_array3_shape (im : list (list (list nat))) :
  is_array3 im ->
  exists h w c,
    0 < h /\ 0 < w /\ 0 < c /\ array3 h w c im /\ shape3 im = (h, w, c).
Proof.
  intros [h [w [c [Hh [Hw [Hc Ha]]]]]]. exists h, w, c.
  repeat split; try assumption; try apply Ha.
  apply array3_shape; assumption.
Qed.

Lemma is_array3_dims (h w c : nat) (im : list (list (list nat))) :
  is_array3 im -> array3 h w c im -> shape3 im = (h, w, c).
Proof.
  intros [h' [w' [c' [Hh [Hw [_ [Hl' Hrows']]]]]]] Ha.
  apply array3_shape; try assumption.
  - destruct Ha as [Hl _]. lia.
  - destruct Ha as [Hl Hrows].
    destruct im as [|row im']; [simpl in Hl'; lia|].
    inversion Hrows as [|? ? [Hrw _] _]; subst.
    inversion Hrows' as [|? ? [Hrw' _] _]; subst. assumption.
Qed.

Lemma scale_unit (b : nat) : b <= 255 -> (0 <= scale b /\ scale b <= 1)%Q.
Proof.
  intros Hb. unfold scale. split.
  - apply Qle_shift_div_l; [reflexivity|]. rewrite Qmult_0_l.
    change 0%Q with (inject_Z 0). rewrite <- Zle_Qle. lia.
  - apply Qle_shift_div_r; [reflexivity|]. rewrite Qmult_1_l.
    change 255%Q with (inject_Z 255). rewrite <- Zle_Qle. lia.
Qed.

Lemma scaled_grid (h w c : nat) (im : list (list (list nat))) :
  array3 h w c im ->
  grid_shaped h w c (map (map (map scale)) im) /\
  Forall (Forall (Forall (fun v => 0 <= v /\ v <= 1)%Q))
         (map (map (map scale)) im).
Proof.
  intros [Hl Hrows]. split.
  - split; [rewrite length_map; assumption|].
    apply Forall_map. eapply Forall_impl; [|exact Hrows].
    intros row [Hw Hpx]. split; [rewrite length_map; assumption|].
    apply Forall_map. eapply Forall_impl; [|exact Hpx].
    intros px [Hc _]. rewrite length_map. assumption.
  - apply Forall_map. eapply Forall_impl; [|exact Hrows].
    intros row [_ Hpx]. apply Forall_map.
    eapply Forall_impl; [|exact Hpx].
    intros px [_ Hb]. apply Forall_map.
    eapply Forall_impl; [|exact Hb].
    intros b Hb255. apply scale_unit. assumption.
Qed.

(** A batch of readable frames that pass the shape check of [np.stack]
    are arrays of one and the same shape, the one of the first frame. *)
Lemma stacked_arrays (first : frame) (rest : list frame) :
  Forall readable (first :: rest) ->
  Forall (fun fr => shape3 (pixels fr) = shape3 (pixels first)) rest ->
  exists h w c,
    0 < h /\ 0 < w /\ 0 < c /\
    shape3 (pixels first) = (h, w, c) /\
    Forall (fun fr => array3 h w c (pixels fr)) (first :: rest).
Proof.
  intros Hr Hs. inversion Hr as [|? ? [_ H1] Hrest]; subst.
  destruct (is_array3_shape H1) as [h [w [c [Hh [Hw [Hc [Ha Hsh]]]]]]].
  exists h, w, c. repeat split; try assumption.
  constructor; [assumption|].
  rewrite Forall_forall in *. intros fr Hfr.
  destruct (Hrest fr Hfr) as [_ H3].
  destruct (is_array3_shape H3) as [h' [w' [c' [_ [_ [_ [Ha' Hsh']]]]]]].
  specialize (Hs fr Hfr). rewrite Hsh, Hsh' in Hs.
  injection Hs as -> -> ->. assumption.
Qed.

(** X21: on frames that hold arrays, the Scene Loader succeeds exactly
    when there is at least one frame, all images have one height, width
    and channel count and all pose matrices one number of rows and
    columns; every failure is the [ValueError] of [np.stack].  On success
    the poses come back one per frame, in frame order. *)
Theorem load_checks (frames : list frame) (tan_half_fov : Q) :
  Forall readable frames ->
  ((exists r, load frames tan_half_fov = Ok r) <->
   frames <> [] /\
   exists h w c rows cols,
     Forall (fun fr =>
               array3 h w c (pixels fr) /\
               List.length (transform_matrix fr) = rows /\
               Forall (fun row => List.length row = cols)
                      (transform_matrix fr)) frames) /\
  (forall e, load frames tan_half_fov = Raise e -> e = ValueError) /\
  (forall images ps i,
     load frames tan_half_fov = Ok (images, ps, i) ->
     ps = map transform_matrix frames).
Proof.
  intros Hread. split; [|split].
  - split.
    + intros [[[images ps] [[H W] f]] Hl].
      apply load_ok_inv in Hl.
      destruct Hl as [first [rest [-> [Hall _]]]].
      split; [discriminate|].
      destruct (@stacked_arrays first rest Hread)
        as [h [w [c [_ [_ [_ [_ Harr]]]]]]].
      { eapply Forall_impl; [|exact Hall]. intros fr [_ E]. exact E. }
      exists h, w, c, (List.length (transform_matrix first)),
        (List.length (hd [] (transform_matrix first))).
      assert (Hm : forall fr, readable fr ->
                shape2 (transform_matrix fr)
                = shape2 (transform_matrix first) ->
                List.length (transform_matrix fr)
                = List.length (transform_matrix first) /\
                Forall (fun row => List.length row
                        = List.length (hd [] (transform_matrix first)))
                       (transform_matrix fr)).
      { intros fr [H2 _] E. unfold shape2 in E. injection E as E1 E2.
        split; [assumption|]. unfold is_array2 in H2.
        rewrite E2 in H2. assumption. }
      rewrite Forall_forall in *. intros fr Hfr. split; [auto|].
      destruct Hfr as [<- | Hfr].
      * apply Hm; [apply Hread; left|]; reflexivity.
      * apply Hm; [apply Hread; right; assumption|].
        apply (Hall fr Hfr).
    + intros [Hne [h [w [c [rows [cols Hall]]]]]].
      destruct frames as [|first rest]; [congruence|].
      apply load_same_shapes.
      inversion Hall as [|? ? [Ha1 [Hr1 Hc1]] Hrest]; subst.
      inversion Hread as [|? ? [_ Hi1] Hreadrest]; subst.
      rewrite Forall_forall in Hrest, Hreadrest. apply Forall_forall.
      intros fr Hfr.
      destruct (Hrest fr Hfr) as [Ha [Hr Hc]].
      destruct (Hreadrest fr Hfr) as [_ Hi].
      split.
      * unfold shape2. rewrite Hr. f_equal.
        destruct (transform_matrix fr) as [|r1 m1];
          destruct (transform_matrix first) as [|r2 m2];
          try discriminate; try reflexivity.
        inversion Hc; inversion Hc1; subst. simpl. congruence.
      * rewrite (is_array3_dims Hi Ha), (is_array3_dims Hi1 Ha1).
        reflexivity.
  - apply load_raises.
  - intros images ps [[H W] f] Hl. apply load_ok_inv in Hl.
    destruct Hl as [first [rest [_ [_ [_ [-> _]]]]]]. reflexivity.
Qed.

Lemma toy_frame_readable (x : Q) (r g : nat) :
  r <= 255 -> g <= 255 -> readable (toy_frame x r g).
Proof.
  intros Hr Hg. split.
  - unfold is_array2. simpl. repeat constructor.
  - exists 1, 2, 4. unfold array3. simpl.
    repeat first [lia | reflexivity | split | apply Forall_cons
                 | apply Forall_nil].
Qed.

Lemma toy_frames_readable : Forall readable toy_frames.
Proof.
  unfold toy_frames. repeat constructor; apply toy_frame_readable; lia.
Qed.

Lemma tall_frame_readable : readable tall_frame.
Proof.
  split.
  - unfold is_array2. simpl. repeat constructor.
  - exists 2, 2, 4. unfold array3. simpl.
    repeat first [lia | reflexivity | split | apply Forall_cons
                 | apply Forall_nil].
Qed.

Lemma load_checks_witness :
  Forall readable (toy_frames ++ [tall_frame]) /\
  load (toy_frames ++ [tall_frame]) 1 = Raise ValueError /\
  forall images ps i,
    load toy_frames 1 = Ok (images, ps, i) ->
    ps = map transform_matrix toy_frames.
Proof.
  assert (Hr : Forall readable (toy_frames ++ [tall_frame])).
  { apply Forall_app. split; [apply toy_frames_readable|].
    constructor; [apply tall_frame_readable|constructor]. }
  split; [exact Hr|]. split.
  - destruct (load (toy_frames ++ [tall_frame]) 1) as [r|e] eqn:E.
    + discriminate E.
    + f_equal.
      apply (proj1 (proj2 (@load_checks (toy_frames ++ [tall_frame]) 1 Hr))
               e E).
  - apply (proj2 (proj2 (@load_checks toy_frames 1 toy_frames_readable))).
Defined.

(** X22: what the Scene Loader returns on frames that hold arrays.  The
    images form a batch of one image per frame, each of the height and
    width reported in the intrinsics, both positive, and of one channel
    count; every channel value lies in [[0, 1]]; there is one pose per
    image; the focal length is finite exactly when the tangent of half the
    field of view is not zero, and then [focal * tan = W / 2]. *)
Theorem load_shapes (frames : list frame) (tan_half_fov : Q)
  (images : list image) (ps : list pose) (H W : nat) (f : float) :
  Forall readable frames ->
  load frames tan_half_fov = Ok (images, ps, (H, W, f)) ->
  exists c,
    0 < H /\ 0 < W /\ 0 < c /\
    Forall (fun fr => channels fr = c) frames /\
    shaped (List.length frames) H W c images /\
    unit_range images /\
    List.length ps = List.length images /\
    (f = NonFinite <-> (tan_half_fov == 0)%Q) /\
    (forall q, f = Finite q ->
       (q * tan_half_fov == inject_Z (Z.of_nat W) / 2)%Q).
Proof.
  intros Hread Hl. apply load_ok_inv in Hl.
  destruct Hl as [first [rest [-> [Hall [-> [-> [EH [EW Ef]]]]]]]].
  destruct (@stacked_arrays first rest Hread)
    as [h [w [c [Hh [Hw [Hc [Hs Harr]]]]]]].
  { eapply Forall_impl; [|exact Hall]. intros fr [_ E]. exact E. }
  unfold shape3 in Hs. injection Hs as Es1 Es2 Es3.
  rewrite Es1 in EH. rewrite Es2 in EW. subst H W.
  exists c. repeat split; try assumption.
  - rewrite Forall_forall in *. intros fr Hfr. unfold channels.
    rewrite (@array3_shape h w c (pixels fr) Hh Hw (Harr fr Hfr)).
    reflexivity.
  - rewrite !length_map. reflexivity.
  - apply Forall_map. apply Forall_map.
    eapply Forall_impl; [|exact Harr].
    intros fr Ha. apply (scaled_grid Ha).
  - unfold unit_range. apply Forall_map. apply Forall_map.
    eapply Forall_impl; [|exact Harr].
    intros fr Ha. apply (scaled_grid Ha).
  - rewrite !length_map. reflexivity.
  - intros E. rewrite E in Ef.
    destruct (Qeq_bool tan_half_fov 0) eqn:Eq; [|discriminate].
    apply Qeq_bool_iff. assumption.
  - intros E. apply Qeq_bool_iff in E. rewrite E in Ef. assumption.
  - intros q Eq. rewrite Eq in Ef.
    destruct (Qeq_bool tan_half_fov 0) eqn:Et; [discriminate|].
    injection Ef as ->.
    assert (Hne : ~ (tan_half_fov == 0)%Q).
    { intros E. apply Qeq_bool_iff in E. congruence. }
    field. assumption.
Qed.

Lemma load_shapes_witness :
  exists r c, load toy_frames 1 = Ok r /\
    shaped 2 1 2 c (fst (fst r)) /\ unit_range (fst (fst r)).
Proof.
  destruct (load toy_frames 1) as [[[images ps] [[H W] f]]|e] eqn:E;
    [|discriminate E].
  destruct (@load_shapes toy_frames 1 images ps H W f toy_frames_readable E)
    as [c [_ [_ [_ [_ [Hs [Hu _]]]]]]].
  exists (images, ps, (H, W, f)), c. split; [reflexivity|].
  assert (EH : H = 1) by (vm_compute in E; congruence).
  assert (EW : W = 2) by (vm_compute in E; congruence).
  rewrite EH, EW in Hs. split; assumption.
Defined.

(** X23: the constructor on a loaded scene.  When the frames hold 4 x 4
    pose matrices and images of at least three channels that load
    successfully, the tangent of half the field of view is not zero and
    the clustering gives one label and one distance per frame, [__init__]
    on what [__load] returned succeeds for every view count from 1 to the
    number of frames and every test index below the number of frames, and
    the dataset has [n_imgs] views in image mode and [n_imgs * H * W]
    rays in ray mode, [H] and [W] being the height and width the loader
    put in the intrinsics; for a view count above the number of frames
    it raises the [ValueError] of K-means. *)
Theorem load_then_init (scene_name split_name : string) (n_imgs : nat)
  (white_bkgd mode : bool) (frames : list frame) (tan_half_fov : Q)
  (images : list image) (ps : list pose) (H W : nat) (f : float)
  (idx : nat) (km : kmeans_fit) :
  Forall readable frames ->
  Forall (fun fr => shape2 (transform_matrix fr) = (4, 4)) frames ->
  Forall (fun fr => 3 <= channels fr) frames ->
  ~ (tan_half_fov == 0)%Q ->
  load frames tan_half_fov = Ok (images, ps, (H, W, f)) ->
  List.length (labels km) = List.length frames ->
  List.length (dists km) = List.length frames ->
  idx < List.length frames -> 0 < n_imgs ->
  exists ld,
    as_scene (images, ps, (H, W, f)) = Some ld /\
    (n_imgs <= List.length frames ->
     exists ds,
       init scene_name split_name n_imgs white_bkgd mode ld idx km = Ok ds /\
       len ds = Ok (if mode then n_imgs else n_imgs * H * W)) /\
    (List.length frames < n_imgs ->
     init scene_name split_name n_imgs white_bkgd mode ld idx km
     = Raise ValueError).
Proof.
  intros Hread Hmat Hch Htan Hl Hlab Hdis Hidx Hn.
  pose proof (load_ok_inv _ _ Hl)
    as [first [rest [-> [Hall [Ei [Ep [EH [EW Ef]]]]]]]].
  destruct (@stacked_arrays first rest Hread)
    as [h [w [c [Hh [Hw [Hc [Hs Harr]]]]]]].
  { eapply Forall_impl; [|exact Hall]. intros fr [_ E]. exact E. }
  assert (Hc3 : 3 <= c).
  { inversion Hch as [|? ? H3 _]; subst. unfold channels in H3.
    rewrite Hs in H3. exact H3. }
  unfold shape3 in Hs. injection Hs as Es1 Es2 Es3.
  destruct (Qeq_bool tan_half_fov 0) eqn:Et;
    [apply Qeq_bool_iff in Et; contradiction|].
  rewrite Ef. cbn [as_scene].
  match goal with
  | |- exists ld, Some ?x = Some ld /\ _ => set (ld0 := x)
  end.
  assert (Hsh : shaped (List.length (first :: rest)) H W c (all_imgs ld0)).
  { unfold ld0. cbn [all_imgs]. rewrite Ei. split.
    - rewrite !length_map. reflexivity.
    - apply Forall_map. apply Forall_map.
      eapply Forall_impl; [|exact Harr].
      intros fr Ha. rewrite EH, EW, Es1, Es2. apply (scaled_grid Ha). }
  assert (Hps : List.length (all_poses ld0) = List.length (first :: rest))
    by (unfold ld0; cbn [all_poses]; rewrite Ep, length_map; reflexivity).
  assert (Hcols : 4 <= pose_cols (all_poses ld0)).
  { unfold ld0. cbn [all_poses]. rewrite Ep. unfold pose_cols.
    cbn [map hd]. inversion Hmat as [|? ? H4 _]; subst.
    unfold shape2 in H4. injection H4 as _ H4. rewrite H4. lia. }
  exists ld0. split; [reflexivity|]. split.
  - intros Hle.
    destruct (@init_ok scene_name split_name n_imgs white_bkgd mode ld0 idx
                km (List.length (first :: rest)) H W c Hc3 Hsh Hps Hcols
                Hlab Hdis eq_refl eq_refl Hidx Hn Hle) as [ds Hinit].
    exists ds. split; [assumption|].
    apply built_len.
    apply (@init_built scene_name split_name n_imgs white_bkgd mode ld0 idx
             km ds (List.length (first :: rest)) H W c Hc3 Hsh eq_refl
             eq_refl Hinit).
  - intros Hgt. apply init_refuses.
    + destruct Hsh as [Hli _]. congruence.
    + assumption.
    + rewrite Hps. assumption.
    + right. rewrite Hps. assumption.
Qed.

Lemma load_then_init_witness :
  exists r ld ds,
    load toy_frames 1 = Ok r /\ as_scene r = Some ld /\
    init "lego" "train" 2 true false ld 1 Examples.toy_fit = Ok ds /\
    len ds = Ok 4 /\
    init "lego" "train" 3 true false ld 1 Examples.toy_fit
      = Raise ValueError.
Proof.
  destruct (load toy_frames 1) as [[[images ps] [[H W] f]]|e] eqn:E;
    [|discriminate E].
  assert (Hmat : Forall (fun fr => shape2 (transform_matrix fr) = (4, 4))
                        toy_frames)
    by (unfold toy_frames; repeat constructor).
  assert (Hch : Forall (fun fr => 3 <= channels fr) toy_frames)
    by (unfold toy_frames; repeat constructor).
  assert (Htan : ~ (1 == 0)%Q) by discriminate.
  destruct (@load_then_init "lego" "train" 2 true false toy_frames 1
              images ps H W f 1 Examples.toy_fit toy_frames_readable
              Hmat Hch Htan E eq_refl eq_refl)
    as [ld [H1 [H2 _]]]; [simpl; lia|lia|].
  destruct (@load_then_init "lego" "train" 3 true false toy_frames 1
              images ps H W f 1 Examples.toy_fit toy_frames_readable
              Hmat Hch Htan E eq_refl eq_refl)
    as [ld' [H1' [_ H3']]]; [simpl; lia|lia|].
  assert (Eld : ld' = ld) by congruence. subst ld'.
  destruct H2 as [ds [Hi Hlen]]; [simpl; lia|].
  exists (images, ps, (H, W, f)), ld, ds.
  assert (EH : H = 1) by (vm_compute in E; congruence).
  assert (EW : W = 2) by (vm_compute in E; congruence).
  rewrite EH, EW in Hlen.
  repeat split; try assumption. apply H3'. simpl. lia.
Defined.

End LoaderFacts.
